(** * suggest-reviewer: the signal-fusion and ranking engine of [src/index.js]

    A shallow embedding of the pure part of the action (bot detection, the
    median, the CODEOWNERS parser and matcher, the latency estimator, the
    ranking, the confidence heuristic and the comment renderer) and the
    properties its specification states about it.

    Conventions of the embedding:
    - a JavaScript string is a [string] of ASCII characters; the whitespace
      class [\s] is its ASCII part (tab, line feed, vertical tab, form feed,
      carriage return, space);
    - a JavaScript number is an exact rational [Q]: the engine only adds,
      multiplies by small constants, divides and compares, and no property
      below depends on rounding;
    - a JavaScript [Map] or [Set] is an association list or a list in
      insertion order, because the engine iterates them and the order of the
      result depends on it;
    - [Array.prototype.sort] is the stable sort of ES2019. *)

From Stdlib Require Import List Bool Arith ZArith QArith Qminmax Qround Lia Lqa.
From Stdlib Require Import Sorted Permutation.
From Stdlib Require Import Ascii String DecimalString.
Import ListNotations.

Open Scope string_scope.
Open Scope list_scope.

(* ================================================================= *)
(** ** JavaScript string primitives *)

Module Js.

Definition isEmpty (s : string) : bool :=
  match s with EmptyString => true | _ => false end.

(** [\s], restricted to ASCII. *)
Definition isSpace (c : ascii) : bool :=
  let n := nat_of_ascii c in
  ((9 <=? n) && (n <=? 13) || (n =? 32))%nat.

Definition lowerChar (c : ascii) : ascii :=
  let n := nat_of_ascii c in
  if ((65 <=? n) && (n <=? 90))%nat then ascii_of_nat (n + 32) else c.

(** [s.toLowerCase()] *)
Fixpoint toLowerCase (s : string) : string :=
  match s with
  | EmptyString => EmptyString
  | String c r => String (lowerChar c) (toLowerCase r)
  end.

(** [s.startsWith(p)] *)
Fixpoint startsWith (s p : string) : bool :=
  match p, s with
  | EmptyString, _ => true
  | String _ _, EmptyString => false
  | String a p', String b s' => Ascii.eqb a b && startsWith s' p'
  end.

(** [s.includes(p)] *)
Fixpoint includes (s p : string) : bool :=
  startsWith s p ||
  match s with
  | EmptyString => false
  | String _ r => includes r p
  end.

(** [s.endsWith(p)] *)
Fixpoint endsWith (s p : string) : bool :=
  String.eqb s p ||
  match s with
  | EmptyString => false
  | String _ r => endsWith r p
  end.

Fixpoint trimStart (s : string) : string :=
  match s with
  | EmptyString => EmptyString
  | String c r => if isSpace c then trimStart r else s
  end.

Fixpoint trimEnd (s : string) : string :=
  match s with
  | EmptyString => EmptyString
  | String c r =>
      match trimEnd r with
      | EmptyString => if isSpace c then EmptyString else String c EmptyString
      | t => String c t
      end
  end.

(** [s.trim()] *)
Definition trim (s : string) : string := trimEnd (trimStart s).

(** [s.slice(1)] *)
Definition slice1 (s : string) : string :=
  match s with EmptyString => EmptyString | String _ r => r end.

(** The pieces of [s.split(/c+/)] for the characters [c] of the class
    [isSep]: the first piece and the later ones. *)
Fixpoint splitRunsAux (isSep : ascii -> bool) (s : string)
  : string * list string :=
  match s with
  | EmptyString => (EmptyString, [])
  | String c r =>
      let '(p, ps) := splitRunsAux isSep r in
      if isSep c then
        match r with
        | String c' _ => if isSep c' then (p, ps) else (EmptyString, p :: ps)
        | EmptyString => (EmptyString, p :: ps)
        end
      else (String c p, ps)
  end.

Definition splitRuns (isSep : ascii -> bool) (s : string) : list string :=
  let '(p, ps) := splitRunsAux isSep s in p :: ps.

Definition isLF (c : ascii) : bool := (nat_of_ascii c =? 10)%nat.
Definition isCR (c : ascii) : bool := (nat_of_ascii c =? 13)%nat.

(** [s.split(/\r?\n/)] *)
Fixpoint splitLinesAux (s : string) : string * list string :=
  match s with
  | EmptyString => (EmptyString, [])
  | String c r =>
      let '(p, ps) := splitLinesAux r in
      if isLF c then (EmptyString, p :: ps)
      else if isCR c && (match r with String c' _ => isLF c' | _ => false end)
           then (p, ps)
           else (String c p, ps)
  end.

Definition splitLines (s : string) : list string :=
  let '(p, ps) := splitLinesAux s in p :: ps.

(** [s.split(/\s+#/)[0]]: the text before the first run of whitespace
    that is followed by [#]. *)
Fixpoint beforeSpaceHash (s : string) : string :=
  match s with
  | EmptyString => EmptyString
  | String c r =>
      if isSpace c && startsWith (trimStart r) "#" then EmptyString
      else String c (beforeSpaceHash r)
  end.

(** [s.split(/\s+/).filter(Boolean)] *)
Definition words (s : string) : list string :=
  filter (fun w => negb (isEmpty w)) (splitRuns isSpace s).

(** [s.replace(/^@/, "")] *)
Definition stripAt (s : string) : string :=
  match s with
  | String c r => if Ascii.eqb c "@" then r else s
  | EmptyString => s
  end.

End Js.

(* ================================================================= *)
(** ** Utilities *)

Open Scope Q_scope.

(** [isBotLogin]: a missing or empty login counts as a bot. *)
Definition isBotLogin (login : string) : bool :=
  if Js.isEmpty login then true
  else
    let l := Js.toLowerCase login in
    Js.endsWith login "[bot]" || Js.includes l "bot"
    || String.eqb l "github-actions".

(** [arr.sort(cmp)]: [before a b] says that [cmp(a, b) < 0].  The sort is
    stable: an element moves in front of an earlier one only when the
    comparator puts it strictly before. *)
Section StableSort.
Context {A : Type} (before : A -> A -> bool).

Fixpoint insertSorted (x : A) (l : list A) : list A :=
  match l with
  | [] => [x]
  | y :: r => if before y x then y :: insertSorted x r else x :: l
  end.

Definition sortBy (l : list A) : list A := fold_right insertSorted [] l.
End StableSort.

Definition Qlt_bool (a b : Q) : bool := negb (Qle_bool b a).

(** [median]: [None] is the [null] of the source. *)
Definition median (arr : list Q) : option Q :=
  if (List.length arr =? 0)%nat then None
  else
    let s := sortBy Qlt_bool arr in
    let mid := (List.length s / 2)%nat in
    if negb (List.length s mod 2 =? 0)%nat then Some (nth mid s 0)
    else Some ((nth (mid - 1) s 0 + nth mid s 0) / 2).

(** [latencyBonusHours]: [None] is a [null] median. *)
Definition latencyBonusHours (medianHours : option Q) : Q :=
  match medianHours with
  | None => 0
  | Some m =>
      if Qle_bool m 4 then 6
      else if Qle_bool m 12 then 4
      else if Qle_bool m 24 then 2
      else if Qle_bool m 48 then 1
      else 0
  end.

(* ================================================================= *)
(** ** The glob matcher

    [ownersForFile] calls the third-party package [minimatch], whose code is
    not part of this repository.  [Minimatch.minimatch file pattern] models
    the call [minimatch(file, pattern, { dot: true, nocase: false,
    matchBase: true })] after the package's documented algorithm
    ([Minimatch.make], [match] and [matchOne] of its 3.x line), on a POSIX
    host, for the patterns made of literal characters, [?], [*], [**] and
    [/] ([plainGlob]).  Character classes, braces, extended globs, negation
    and escapes are outside the model. *)

Module Minimatch.

Inductive part : Type :=
| Globstar
| Literal (s : string)
| Magic (s : string).

Definition isSlash (c : ascii) : bool := Ascii.eqb c "/".
Definition isStar (c : ascii) : bool := Ascii.eqb c "*".
Definition isQmark (c : ascii) : bool := Ascii.eqb c "?".

Fixpoint hasMagic (s : string) : bool :=
  match s with
  | EmptyString => false
  | String c r => isStar c || isQmark c || hasMagic r
  end.

(** The patterns the model covers. *)
Fixpoint plainGlob (s : string) : bool :=
  match s with
  | EmptyString => true
  | String c r =>
      negb (existsb (Ascii.eqb c)
              ["["; "]"; "{"; "}"; "("; ")"; "!"; "\"; "#"]%char)
      && plainGlob r
  end.

(** [parse]: one path portion of the pattern. *)
Definition parse (seg : string) : part :=
  if String.eqb seg "**" then Globstar
  else if hasMagic seg then Magic seg
  else Literal seg.

(** The body of the regular expression of a portion: [*] is [[^/]*?] and
    [?] is [[^/]]; every other character stands for itself. *)
Fixpoint globBody (p f : string) : bool :=
  match p with
  | EmptyString => Js.isEmpty f
  | String c p' =>
      if isStar c then
        (fix star (f : string) : bool :=
           globBody p' f ||
           match f with
           | EmptyString => false
           | String d f' => negb (isSlash d) && star f'
           end) f
      else
        match f with
        | EmptyString => false
        | String d f' =>
            (if isQmark c then negb (isSlash d) else Ascii.eqb c d)
            && globBody p' f'
        end
  end.

Definition isDots (f : string) : bool :=
  String.eqb f "." || String.eqb f "..".

(** The anchored regular expression of a magic portion: the look-ahead
    [(?=.)] wants a first character that is no line terminator, and a
    portion that starts with [*] or [?] gets, under [dot: true], the
    look-ahead that refuses the names [.] and [..]. *)
Definition magicMatch (p f : string) : bool :=
  match f with
  | EmptyString => false
  | String d _ =>
      negb (Js.isLF d || Js.isCR d)
      && (match p with
          | String c _ => if isStar c || isQmark c then negb (isDots f) else true
          | EmptyString => true
          end)
      && globBody p f
  end.

Definition partMatch (p : part) (f : string) : bool :=
  match p with
  | Globstar => false
  | Literal s => String.eqb f s
  | Magic s => magicMatch s f
  end.

(** [matchOne(file, pattern, false)] *)
Fixpoint matchOne (pattern : list part) (file : list string) : bool :=
  match pattern with
  | [] =>
      match file with
      | [] => true
      | [f] => Js.isEmpty f
      | _ => false
      end
  | Globstar :: rest =>
      match file, rest with
      | [], _ => false
      | _, [] => forallb (fun f => negb (isDots f)) file
      | _, _ =>
          (fix swallow (file : list string) : bool :=
             match file with
             | [] => false
             | f :: fs => matchOne rest file || (negb (isDots f) && swallow fs)
             end) file
      end
  | p :: rest =>
      match file with
      | [] => false
      | f :: fs => partMatch p f && matchOne rest fs
      end
  end.

(** No [/] occurs in [s]. *)
Fixpoint noSlash (s : string) : bool :=
  match s with
  | EmptyString => true
  | String c r => negb (isSlash c) && noSlash r
  end.

(** The last non-empty portion of the path, the basename. *)
Definition basename (f : list string) : string :=
  fold_left (fun acc s => if Js.isEmpty s then acc else s) f EmptyString.

Definition minimatch (p pattern : string) : bool :=
  if Js.startsWith pattern "#" then false
  else if Js.isEmpty pattern then Js.isEmpty p
  else
    let set := map parse (Js.splitRuns isSlash pattern) in
    let f := Js.splitRuns isSlash p in
    let file := if (List.length set =? 1)%nat then [basename f] else f in
    matchOne set file.

End Minimatch.

(* ================================================================= *)
(** ** CODEOWNERS support *)

Record rule : Type := Rule { pattern : string; owners : list string }.

(** One iteration of the loop of [parseCodeowners]: the rule a line gives,
    [None] where the source says [continue]. *)
Definition parseLine (raw : string) : option rule :=
  let line := Js.trim raw in
  if Js.isEmpty line || Js.startsWith line "#" then None
  else
    let noInline := Js.trim (Js.beforeSpaceHash line) in
    if Js.isEmpty noInline then None
    else
      match Js.words noInline with
      | pat :: (_ :: _) as rest =>
          let os :=
            filter (fun o => negb (Js.isEmpty o) && negb (isBotLogin o))
                   (map (fun o => Js.trim (Js.stripAt o)) rest) in
          match os with
          | [] => None
          | _ => Some (Rule pat os)
          end
      | _ => None
      end.

(** [parseCodeowners]: [None] is a [null] text. *)
Definition parseCodeowners (text : option string) : list rule :=
  match text with
  | None => []
  | Some t =>
      if Js.isEmpty t then []
      else
        fold_left
          (fun rules raw =>
             match parseLine raw with
             | Some r => rules ++ [r]
             | None => rules
             end)
          (Js.splitLines t) []
  end.

Definition normalizeCodeownersPattern (pattern : string) : string :=
  if Js.startsWith pattern "/" then Js.slice1 pattern
  else "**/" ++ pattern.

Section Matcher.
(** [minimatch file pattern] stands for the call with the options of
    [ownersForFile]. *)
Variable minimatch : string -> string -> bool.

Definition ruleMatches (r : rule) (filePath : string) : bool :=
  minimatch filePath (normalizeCodeownersPattern (pattern r)).

Definition ownersForFile (codeownersRules : list rule) (filePath : string)
  : list string :=
  match codeownersRules with
  | [] => []
  | _ =>
      fold_left
        (fun matchedOwners r =>
           if ruleMatches r filePath then owners r else matchedOwners)
        codeownersRules []
  end.
End Matcher.

(* ================================================================= *)
(** ** Maps and sets in insertion order *)

Section JsMap.
Context {V : Type}.

(** [m.get(k)] *)
Fixpoint mapGet (k : string) (m : list (string * V)) : option V :=
  match m with
  | [] => None
  | (k', v) :: r => if String.eqb k k' then Some v else mapGet k r
  end.

(** [m.has(k)] *)
Definition mapHas (k : string) (m : list (string * V)) : bool :=
  match mapGet k m with Some _ => true | None => false end.

(** [m.set(k, v)]: an existing key keeps its place, a new one goes last. *)
Fixpoint mapSet (k : string) (v : V) (m : list (string * V))
  : list (string * V) :=
  match m with
  | [] => [(k, v)]
  | (k', v') :: r =>
      if String.eqb k k' then (k', v) :: r else (k', v') :: mapSet k v r
  end.
End JsMap.

(** [s.has(x)] and [s.add(x)] *)
Definition setHas (x : string) (s : list string) : bool :=
  existsb (String.eqb x) s.

Definition setAdd (x : string) (s : list string) : list string :=
  if setHas x s then s else s ++ [x].

(** [x || 0] on a number. *)
Definition orZero (x : option Q) : Q :=
  match x with
  | Some v => if Qeq_bool v 0 then 0 else v
  | None => 0
  end.

Definition isNil {A : Type} (l : list A) : bool :=
  match l with [] => true | _ => false end.

(* ================================================================= *)
(** ** Review latency *)

(** What the estimator reads of a review and of a closed pull request;
    times are milliseconds since the epoch, [reviews] is [None] when the
    request for them failed. *)
Record review : Type :=
  Review { user : option string; submitted_at : option Z }.

Record pull : Type :=
  Pull { merged_at : option Z; closed_at : option Z; created_at : Z;
         reviews : option (list review) }.

Definition isSome {A : Type} (o : option A) : bool :=
  match o with Some _ => true | None => false end.

(** The first review of each reviewer on one pull request. *)
Definition firstByUser (rs : list review) : list (string * Z) :=
  fold_left
    (fun m r =>
       match user r with
       | None => m
       | Some login =>
           if Js.isEmpty login || isBotLogin login then m
           else
             match submitted_at r with
             | None => m
             | Some t =>
                 match mapGet login m with
                 | Some existing =>
                     if (t <? existing)%Z then mapSet login t m else m
                 | None => mapSet login t m
                 end
             end
       end)
    rs [].

Definition latencyHours (t createdAt : Z) : Q :=
  inject_Z (t - createdAt) / inject_Z (1000 * 60 * 60).

(** The samples of one pull request, pushed on the lists of [perReviewer]. *)
Definition pushSamples (createdAt : Z) (firsts : list (string * Z))
           (perReviewer : list (string * list Q)) : list (string * list Q) :=
  fold_left
    (fun per '(login, t) =>
       let hours := latencyHours t createdAt in
       if Qlt_bool hours 0 then per
       else
         let per' := if mapHas login per then per else mapSet login [] per in
         match mapGet login per' with
         | Some arr => mapSet login (arr ++ [hours]) per'
         | None => per'
         end)
    firsts perReviewer.

Definition perReviewerSamples (since : Z) (pulls : list pull)
  : list (string * list Q) :=
  fold_left
    (fun per pr =>
       if negb (isSome (merged_at pr)) && negb (isSome (closed_at pr)) then per
       else if (created_at pr <? since)%Z then per
       else
         match reviews pr with
         | None => per
         | Some rs => pushSamples (created_at pr) (firstByUser rs) per
         end)
    pulls [].

(** [computeReviewerLatencyHours], on the pull requests and reviews the
    host returned; [since] is the start of the look-back window. *)
Definition computeReviewerLatencyHours (since : Z) (pulls : list pull)
  : list (string * Q) :=
  fold_left
    (fun out '(login, arr) =>
       match median arr with
       | Some m => mapSet login m out
       | None => out
       end)
    (perReviewerSamples since pulls) [].

(* ================================================================= *)
(** ** Ranking *)

Record fileAuthorsEntry : Type :=
  FileAuthors { path : string; authors : list string }.

Record weightsT : Type :=
  Weights { commitHistory : Q; codeowners : Q; latency : Q }.

Record candidate : Type :=
  Candidate { login : string; score : Q; reasons : list string }.

(** The two maps of [rankCandidates]. *)
Record rankState : Type :=
  RankState { scores : list (string * Q);
              reasonSets : list (string * list string) }.

Definition nl : string := String (ascii_of_nat 10) EmptyString.

(** The key of the set [seen] of the CODEOWNERS signal. *)
Definition seenKey (o f : string) : string := (o ++ "::" ++ f)%string.

(** [Math.round] *)
Definition round (x : Q) : Q := inject_Z (Qfloor (x + (1 # 2))).

Section Engine.
Variable minimatch : string -> string -> bool.
(** The conversion of a number to a string in a template literal. *)
Variable numberToString : Q -> string.

Section Rank.
Variable prAuthor : string.
Variable weights : weightsT.

Definition add (login : string) (pts : Q) (reason : string)
           (st : rankState) : rankState :=
  if Js.isEmpty login || isBotLogin login then st
  else if String.eqb login prAuthor then st
  else
    let scores' :=
      mapSet login (orZero (mapGet login (scores st)) + pts) (scores st) in
    let rs :=
      if mapHas login (reasonSets st) then reasonSets st
      else mapSet login [] (reasonSets st) in
    let rs' :=
      if Js.isEmpty reason then rs
      else
        match mapGet login rs with
        | Some set => mapSet login (setAdd reason set) rs
        | None => rs
        end in
    RankState scores' rs'.

(** [Math.max(1, 3 - i)] *)
Definition positionWeight (i : nat) : Q :=
  Qmax 1 (3 - inject_Z (Z.of_nat i)).

(** 1) the commit history signal *)
Definition commitHistorySignal (fileAuthors : list fileAuthorsEntry)
           (st : rankState) : rankState :=
  fold_left
    (fun st fa =>
       let max := Nat.min (List.length (authors fa)) 10 in
       fold_left
         (fun st '(i, a) =>
            add a (positionWeight i * commitHistory weights)
                "recent commits" st)
         (combine (seq 0 max) (authors fa)) st)
    fileAuthors st.

(** 2) the CODEOWNERS signal *)
Definition codeownersSignal (codeownersRules : list rule)
           (changedFiles : list string) (st : rankState) : rankState :=
  if Qlt_bool 0 (codeowners weights) && negb (isNil codeownersRules) then
    snd
      (fold_left
         (fun acc f =>
            fold_left
              (fun '(seen, st) o =>
                 if Js.isEmpty o then (seen, st)
                 else
                   let key := seenKey o f in
                   if setHas key seen then (seen, st)
                   else (setAdd key seen,
                         add o (codeowners weights) "CODEOWNERS" st))
              (ownersForFile minimatch codeownersRules f) acc)
         changedFiles ([], st))
  else st.

(** 3) the review latency signal *)
Definition latencySignal (latencyMap : list (string * Q))
           (st : rankState) : rankState :=
  if Qlt_bool 0 (latency weights) && negb (isNil latencyMap) then
    fold_left
      (fun st '(l, medHrs) =>
         let bonus := latencyBonusHours (Some medHrs) * latency weights in
         if Qlt_bool 0 bonus then
           add l bonus
               ("fast reviewer (~" ++ numberToString (round medHrs)
                ++ "h median)")%string st
         else st)
      latencyMap st
  else st.

Definition rankCandidates (fileAuthors : list fileAuthorsEntry)
           (codeownersRules : list rule) (changedFiles : list string)
           (latencyMap : list (string * Q)) : list candidate :=
  let st0 := RankState [] [] in
  let st1 := commitHistorySignal fileAuthors st0 in
  let st2 := codeownersSignal codeownersRules changedFiles st1 in
  let st3 := latencySignal latencyMap st2 in
  map (fun '(l, sc) =>
         Candidate l sc
           (match mapGet l (reasonSets st3) with
            | Some set => set
            | None => []
            end))
      (sortBy (fun a b => Qlt_bool (snd b - snd a) 0) (scores st3)).
End Rank.

(* --------------------------------------------------------------- *)
(** *** Confidence *)

Definition scoreAt (ranked : list candidate) (i : nat) : Q :=
  orZero (option_map score (nth_error ranked i)).

Definition approxCovered (changedFiles : list string)
           (fileAuthors : list fileAuthorsEntry) : nat :=
  if isNil fileAuthors then 0%nat
  else Nat.max 0
         (Nat.min (List.length changedFiles)
                  (Nat.max 1 (List.length fileAuthors))).

Definition byFileHasSignal (codeownersRules : list rule)
           (changedFiles : list string) : list (string * bool) :=
  let init :=
    fold_left (fun m f => mapSet f false m) changedFiles [] in
  if isNil codeownersRules then init
  else
    fold_left
      (fun m f =>
         if isNil (ownersForFile minimatch codeownersRules f) then m
         else mapSet f true m)
      changedFiles init.

Definition coverageRatio (changedFiles : list string)
           (codeownersRules : list rule)
           (fileAuthors : list fileAuthorsEntry) : Q :=
  let covered := approxCovered changedFiles fileAuthors in
  let codeownersCovered :=
    List.length
      (filter (fun b : bool => b)
              (map snd (byFileHasSignal codeownersRules changedFiles))) in
  let covered := Nat.max covered codeownersCovered in
  if isNil changedFiles then 0
  else inject_Z (Z.of_nat covered)
       / inject_Z (Z.of_nat (List.length changedFiles)).

Definition separationOf (top second : Q) : Q :=
  if Qlt_bool 0 top then (top - second) / top else 0.

Definition computeConfidence (ranked : list candidate)
           (changedFiles : list string) (codeownersRules : list rule)
           (fileAuthors : list fileAuthorsEntry) : string :=
  let top := scoreAt ranked 0 in
  let second := scoreAt ranked 1 in
  let coverageRatio :=
    coverageRatio changedFiles codeownersRules fileAuthors in
  let separation := separationOf top second in
  if Qle_bool 12 top && Qle_bool (1 # 2) coverageRatio
     && Qle_bool (1 # 4) separation then "High"
  else if Qle_bool 6 top && Qle_bool (1 # 4) coverageRatio then "Medium"
  else "Low".

(* --------------------------------------------------------------- *)
(** *** Comment formatting *)

Definition MARKER : string := "<!-- reviewer-suggester:v0 -->".

(** [parts.join(sep)] *)
Fixpoint join (sep : string) (parts : list string) : string :=
  match parts with
  | [] => EmptyString
  | [x] => x
  | x :: r => (x ++ sep ++ join sep r)%string
  end.

Definition noCandidates : string :=
  ("No strong candidates found (not enough history, no CODEOWNERS match, or only bots/author matched)."
   ++ nl)%string.

Definition formatComment (suggestions : list candidate)
           (lookbackDays maxFiles fileCount : Q) (confidence : string)
  : string :=
  let header := ("### Reviewer suggestions" ++ nl ++ MARKER ++ nl ++ nl)%string in
  let meta :=
    ("Based on:" ++ nl
     ++ "- commit history in the last **" ++ numberToString lookbackDays
     ++ " days**" ++ nl
     ++ "- changed files: **" ++ numberToString (Qmin fileCount maxFiles)
     ++ "**" ++ nl
     ++ "- confidence: **" ++ confidence ++ "**" ++ nl ++ nl)%string in
  if isNil suggestions then (header ++ meta ++ noCandidates)%string
  else
    let list :=
      join nl
        (map (fun s =>
                let why :=
                  if isNil (reasons s) then EmptyString
                  else (" — " ++ join ", " (reasons s))%string in
                ("- @" ++ login s ++ " (score: " ++ numberToString (score s)
                 ++ ")" ++ why)%string)
             suggestions) in
    let note :=
      (nl ++ nl ++ "_Notes: excludes PR author and bots; heuristic-based._"
       ++ nl)%string in
    (header ++ meta ++ list ++ note)%string.
End Engine.

(* ================================================================= *)
(** ** Specification-level notions used by the statements *)

(** The label as the specification words it: ordered thresholds on the
    top score, the coverage and the separation. *)
Definition specSeparation (top second : Q) : Q :=
  if Qlt_bool 0 top then (top - second) / top else 0.

Definition specConfidence (top second coverage : Q) : string :=
  if Qle_bool 12 top && Qle_bool (1 # 2) coverage
     && Qle_bool (1 # 4) (specSeparation top second)
  then "High"
  else if Qle_bool 6 top && Qle_bool (1 # 4) coverage then "Medium"
  else "Low".

(** A reviewer has a valid latency sample when some sampled pull request
    of the window carries a first review of theirs that is not earlier
    than the creation of the pull request. *)
Definition hasValidSample (since : Z) (pulls : list pull) (l : string)
  : Prop :=
  exists pr rs t,
    In pr pulls
    /\ (isSome (merged_at pr) || isSome (closed_at pr)) = true
    /\ (since <= created_at pr)%Z
    /\ reviews pr = Some rs
    /\ In (l, t) (firstByUser rs)
    /\ 0 <= latencyHours t (created_at pr).

(** The body of the loop of [ownersForFile]. *)
Definition ownersStep (minimatch : string -> string -> bool)
           (filePath : string) (matchedOwners : list string) (r : rule)
  : list string :=
  if ruleMatches minimatch r filePath then owners r else matchedOwners.

(* ================================================================= *)
(** ** The ranking as a sequence of awards

    Every change of the two maps of [rankCandidates] is a call of [add].
    The three signals are read below as the lists of the calls they make,
    in order; [signalsState_awards] shows that the maps of the source are
    the result of replaying these lists. *)

Definition award : Type := (string * Q * string)%type.

Definition awardLogin (a : award) : string := fst (fst a).

(** The logins [add] accepts. *)
Definition eligible (prAuthor l : string) : bool :=
  negb (Js.isEmpty l || isBotLogin l) && negb (String.eqb l prAuthor).

Definition applyAwards (prAuthor : string) (aws : list award)
           (st : rankState) : rankState :=
  fold_left (fun st '(l, p, r) => add prAuthor l p r st) aws st.

Definition commitAwards (weights : weightsT)
           (fileAuthors : list fileAuthorsEntry) : list award :=
  flat_map
    (fun fa =>
       map (fun '(i, a) =>
              (a, positionWeight i * commitHistory weights, "recent commits"))
           (combine (seq 0 (Nat.min (List.length (authors fa)) 10))
                    (authors fa)))
    fileAuthors.

(** The owners of one file that pass the [seen] check, with the new set. *)
Fixpoint ownerHitsInFile (f : string) (os : list string) (seen : list string)
  : list string * list string :=
  match os with
  | [] => (seen, [])
  | o :: os' =>
      if Js.isEmpty o then ownerHitsInFile f os' seen
      else
        let key := seenKey o f in
        if setHas key seen then ownerHitsInFile f os' seen
        else
          let '(seen', hs) := ownerHitsInFile f os' (setAdd key seen) in
          (seen', o :: hs)
  end.

Fixpoint ownerHits (minimatch : string -> string -> bool)
         (codeownersRules : list rule) (changedFiles : list string)
         (seen : list string) : list string :=
  match changedFiles with
  | [] => []
  | f :: fs =>
      let '(seen', hs) :=
        ownerHitsInFile f (ownersForFile minimatch codeownersRules f) seen in
      hs ++ ownerHits minimatch codeownersRules fs seen'
  end.

Definition codeownersAwards (minimatch : string -> string -> bool)
           (weights : weightsT) (codeownersRules : list rule)
           (changedFiles : list string) : list award :=
  if Qlt_bool 0 (codeowners weights) && negb (isNil codeownersRules) then
    map (fun o => (o, codeowners weights, "CODEOWNERS"))
        (ownerHits minimatch codeownersRules changedFiles [])
  else [].

Definition latencyAward (numberToString : Q -> string) (weights : weightsT)
           (e : string * Q) : list award :=
  let bonus := latencyBonusHours (Some (snd e)) * latency weights in
  if Qlt_bool 0 bonus then
    [(fst e, bonus,
      ("fast reviewer (~" ++ numberToString (round (snd e)) ++ "h median)")
        %string)]
  else [].

Definition latencyAwards (numberToString : Q -> string) (weights : weightsT)
           (latencyMap : list (string * Q)) : list award :=
  if Qlt_bool 0 (latency weights) && negb (isNil latencyMap) then
    flat_map (latencyAward numberToString weights) latencyMap
  else [].

Definition allAwards (minimatch : string -> string -> bool)
           (numberToString : Q -> string) (weights : weightsT)
           (fileAuthors : list fileAuthorsEntry) (codeownersRules : list rule)
           (changedFiles : list string) (latencyMap : list (string * Q))
  : list award :=
  commitAwards weights fileAuthors
  ++ codeownersAwards minimatch weights codeownersRules changedFiles
  ++ latencyAwards numberToString weights latencyMap.

(** The two maps of [rankCandidates] after the three signals. *)
Definition signalsState (minimatch : string -> string -> bool)
           (numberToString : Q -> string) (prAuthor : string)
           (weights : weightsT)
           (fileAuthors : list fileAuthorsEntry) (codeownersRules : list rule)
           (changedFiles : list string) (latencyMap : list (string * Q))
  : rankState :=
  latencySignal numberToString prAuthor weights latencyMap
    (codeownersSignal minimatch prAuthor weights codeownersRules changedFiles
       (commitHistorySignal prAuthor weights fileAuthors (RankState [] []))).

(** The comparator of the final sort, [(a, b) => b[1] - a[1]]. *)
Definition byScoreDesc (a b : string * Q) : bool :=
  Qlt_bool (snd b - snd a) 0.

(** The candidate of an entry of the score map. *)
Definition toCandidate (st : rankState) (e : string * Q) : candidate :=
  Candidate (fst e) (snd e)
    (match mapGet (fst e) (reasonSets st) with
     | Some set => set
     | None => []
     end).

(** The three signals and their weights. *)
Inductive signal : Type := CommitHistory | Codeowners | Latency.

Definition weightOf (s : signal) (w : weightsT) : Q :=
  match s with
  | CommitHistory => commitHistory w
  | Codeowners => codeowners w
  | Latency => latency w
  end.

(** [w] with the weight of the signal [s] replaced by [x]. *)
Definition withWeight (s : signal) (x : Q) (w : weightsT) : weightsT :=
  match s with
  | CommitHistory => Weights x (codeowners w) (latency w)
  | Codeowners => Weights (commitHistory w) x (latency w)
  | Latency => Weights (commitHistory w) (codeowners w) x
  end.

(** The login [l] can draw points from the signal [s]: it is among the
    first ten contributors of a file, or an owner of a changed file, or it
    has a latency entry with a positive bonus. *)
Definition drawsFrom (minimatch : string -> string -> bool) (s : signal)
           (fileAuthors : list fileAuthorsEntry) (codeownersRules : list rule)
           (changedFiles : list string) (latencyMap : list (string * Q))
           (l : string) : Prop :=
  match s with
  | CommitHistory =>
      exists fa, In fa fileAuthors /\ In l (firstn 10 (authors fa))
  | Codeowners =>
      exists f, In f changedFiles
                /\ In l (ownersForFile minimatch codeownersRules f)
  | Latency =>
      exists m, In (l, m) latencyMap /\ 0 < latencyBonusHours (Some m)
  end.

(** The candidates of [a] and [b], in the order of the ranking. *)
Definition onlyLogins (a b : string) (ranked : list candidate)
  : list candidate :=
  filter (fun c => String.eqb (login c) a || String.eqb (login c) b) ranked.

(** [a] is ranked before [b]: the first of the two in the ranking is [a]. *)
Definition rankedBefore (a b : string) (ranked : list candidate) : bool :=
  match onlyLogins a b ranked with
  | c :: _ => String.eqb (login c) a
  | [] => false
  end.

(** The part of the two maps that belongs to the logins of [keep]. *)
Definition restrictMap {V : Type} (keep : string -> bool)
           (m : list (string * V)) : list (string * V) :=
  filter (fun e => keep (fst e)) m.

Definition restrict (keep : string -> bool) (st : rankState) : rankState :=
  RankState (restrictMap keep (scores st)) (restrictMap keep (reasonSets st)).

(** The text [p] occurs in [s]. *)
Definition containsText (s p : string) : Prop :=
  exists before after, s = (before ++ p ++ after)%string.

(** What the maps look like while only awards of zero points tagged
    "recent commits" are replayed. *)
Definition zeroCommitState (st : rankState) : Prop :=
  (forall k v, mapGet k (scores st) = Some v -> v == 0)
  /\ (forall k set, mapGet k (reasonSets st) = Some set ->
                    set = ["recent commits"])
  /\ (forall k, mapGet k (scores st) <> None ->
                mapGet k (reasonSets st) <> None).

(** Two replays compared: the second makes the calls of the first with at
    least as many points, and possibly further calls with points that are
    not negative. *)
Inductive awardsLe : list award -> list award -> Prop :=
| awardsLe_nil : awardsLe [] []
| awardsLe_both (l : string) (p p' : Q) (r : string) (aws aws' : list award) :
    p <= p' -> awardsLe aws aws' ->
    awardsLe ((l, p, r) :: aws) ((l, p', r) :: aws')
| awardsLe_right (l : string) (p' : Q) (r : string) (aws aws' : list award) :
    0 <= p' -> awardsLe aws aws' ->
    awardsLe aws ((l, p', r) :: aws').

(** Every score of the first state is matched by a score of the second
    that is at least as large, and the scores only the second state has are
    not negative. *)
Definition scoresLe (st st' : rankState) : Prop :=
  forall k,
    match mapGet k (scores st), mapGet k (scores st') with
    | Some v, Some v' => v <= v'
    | None, Some v' => 0 <= v'
    | Some _, None => False
    | None, None => True
    end.

(** A list in the order of a comparator: no later element is strictly
    before an earlier one. *)
Definition sortedBy {A : Type} (before : A -> A -> bool) (l : list A) : Prop :=
  StronglySorted (fun a b => before b a = false) l.

(* ================================================================= *)
(** ** Sample inputs *)

(** A decimal rendering of the integer part, for the sample runs. *)
Definition showInteger (q : Q) : string :=
  NilZero.string_of_int (Z.to_int (Qfloor q)).

Definition sampleRules : list rule :=
  parseCodeowners (Some ("/src/** alice" ++ nl ++ "*.md bob")%string).

Definition sampleFiles : list string := ["src/app.js"; "README.md"].

Definition sampleAuthors : list fileAuthorsEntry :=
  [FileAuthors "src/app.js"
     ["bob"; "alice"; "carol"; "zed"; "dependabot[bot]"; "bob"]].

Definition sampleLatency : list (string * Q) :=
  [("zed", 3); ("yan", 50); ("carol", 1)].

(** A ranking and a change for the confidence label: five changed files,
    three of them with contributors, no ownership rule. *)
Definition confRanked : list candidate :=
  [Candidate "alice" 14 ["CODEOWNERS"]; Candidate "bob" 9 ["recent commits"]].

Definition confFiles : list string := ["a"; "b"; "c"; "d"; "e"].

Definition confAuthors : list fileAuthorsEntry :=
  [FileAuthors "a" ["alice"]; FileAuthors "b" ["bob"];
   FileAuthors "c" ["bob"]].

(** A run in which only the author and bots are named by the signals. *)
Definition onlyAuthorAndBots : list fileAuthorsEntry :=
  [FileAuthors "a.txt" ["carol"; "dependabot[bot]"]].

Definition onlyAuthorRules : list rule := [Rule "*" ["carol"]].

Definition onlyBotLatency : list (string * Q) := [("robot", 1)].

(** A pull request on which [bo] answered before its creation (a negative
    latency, dropped) and [al] answered twice. *)
Definition samplePulls : list pull :=
  [Pull (Some 5%Z) None 1000
        (Some [Review (Some "al") (Some 7201000%Z);
               Review (Some "al") (Some 3601000%Z);
               Review (Some "bo") (Some 0%Z)])].

(* ================================================================= *)
(** ** The helpers around the engine

    The functions of [src/index.js] that talk to the host are read on the
    data the host returned: a page of files, the commits of a path, the
    comments of the pull request, the text of a file. *)


(** [topCommitAuthorsForPath], on the commits the host returned; an
    element is [c.author?.login], [None] when the commit has no author or
    the author no login. *)
Definition topCommitAuthorsForPath (data : list (option string))
  : list string :=
  fold_left
    (fun authors c =>
       match c with
       | Some login =>
           if negb (Js.isEmpty login) && negb (isBotLogin login)
           then authors ++ [login]
           else authors
       | None => authors
       end)
    data [].

(** The loop of [run] that builds [fileAuthors]; [lookup path] is the list
    of commits of the path, [None] when the request failed (the [catch]
    branch, which only warns). *)
Definition collectFileAuthors (lookup : string -> option (list (option string)))
           (files : list string) : list fileAuthorsEntry :=
  fold_left
    (fun fileAuthors path =>
       match lookup path with
       | None => fileAuthors
       | Some data =>
           let authors := topCommitAuthorsForPath data in
           if isNil authors then fileAuthors
           else fileAuthors ++ [FileAuthors path authors]
       end)
    files [].

(** The inner loop of [listAllPRFiles]: push the names of a page until
    [maxFiles] names are held. *)
Fixpoint pushFiles (maxFiles : Z) (files : list string) (data : list string)
  : list string :=
  match data with
  | [] => files
  | f :: rest =>
      let files' := files ++ [f] in
      if (maxFiles <=? Z.of_nat (List.length files'))%Z then files'
      else pushFiles maxFiles files' rest
  end.

(** The outer loop of [listAllPRFiles]; [listFiles page] is the page the
    host returns, [fuel] bounds the number of pages read and [None] says
    that it ran out. *)
Fixpoint listAllPRFilesLoop (fuel : nat) (listFiles : nat -> list string)
         (maxFiles : Z) (page : nat) (files : list string)
  : option (list string) :=
  match fuel with
  | O => None
  | S fuel' =>
      if (Z.of_nat (List.length files) <? maxFiles)%Z then
        let data := listFiles page in
        if isNil data then Some files
        else listAllPRFilesLoop fuel' listFiles maxFiles (S page)
               (pushFiles maxFiles files data)
      else Some files
  end.

(** [listAllPRFiles]: the loop from page 1 and no file. *)
Definition listAllPRFiles (fuel : nat) (listFiles : nat -> list string)
           (maxFiles : Z) : option (list string) :=
  listAllPRFilesLoop fuel listFiles maxFiles 1 [].

(** [arr.slice(0, end)] *)
Definition slice0 {A : Type} (l : list A) (e : Z) : list A :=
  let len := Z.of_nat (List.length l) in
  let final := if (e <? 0)%Z then Z.max (len + e) 0 else Z.min e len in
  firstn (Z.to_nat final) l.

(** A comment of the pull request, as [listComments] returns it. *)
Record issueComment : Type :=
  IssueComment { comment_id : Z; body : option string; html_url : string }.

(** The request [upsertComment] sends after listing the comments. *)
Inductive commentRequest : Type :=
| UpdateComment (id : Z) (newBody : string)
| CreateComment (newBody : string).

Record upsertResult : Type := UpsertResult { updated : bool; url : string }.

(** [upsertComment], on the comments the host listed (the first hundred);
    [createdUrl] is the address the host gives a new comment. *)
Definition upsertComment (listed : list issueComment) (createdUrl : string)
           (newBody : string) : commentRequest * upsertResult :=
  match
    find (fun c =>
            Js.includes (match body c with Some b => b | None => "" end)
                        MARKER)
         listed
  with
  | Some existing =>
      (UpdateComment (comment_id existing) newBody,
       UpsertResult true (html_url existing))
  | None => (CreateComment newBody, UpsertResult false createdUrl)
  end.

Definition CODEOWNERS_CANDIDATE_PATHS : list string :=
  [".github/CODEOWNERS"; "CODEOWNERS"; "docs/CODEOWNERS"].

(** The loop of [run] over the candidate paths: [tryFetchFileText path] is
    the text of the file or [None]; the loop stops at the first text that
    is not empty and otherwise keeps the last answer. *)
Fixpoint firstCodeownersText (tryFetchFileText : string -> option string)
         (paths : list string) (codeownersText : option string)
  : option string :=
  match paths with
  | [] => codeownersText
  | p :: rest =>
      match tryFetchFileText p with
      | Some t =>
          if Js.isEmpty t
          then firstCodeownersText tryFetchFileText rest (Some t)
          else Some t
      | None => firstCodeownersText tryFetchFileText rest None
      end
  end.

(** The rules [run] loads when [use_codeowners] is on. *)
Definition loadCodeownersRules (tryFetchFileText : string -> option string)
  : list rule :=
  parseCodeowners
    (firstCodeownersText tryFetchFileText CODEOWNERS_CANDIDATE_PATHS None).

(** The weights [run] builds from the two switches. *)
Definition runWeights (useCodeowners useLatency : bool) : weightsT :=
  Weights 1 (if useCodeowners then 4 else 0) (if useLatency then 1 else 0).


(** Two lists of numbers that agree place by place as numbers. *)
Definition sameNumbers (a b : list Q) : Prop := Forall2 Qeq a b.

(** No [:] occurs in [s]. *)
Fixpoint noColon (s : string) : bool :=
  match s with
  | EmptyString => true
  | String c r => negb (Ascii.eqb c ":") && noColon r
  end.

(** The three kinds of reason of the source. *)
Definition isReason (numberToString : Q -> string) (r : string) : Prop :=
  r = "recent commits" \/ r = "CODEOWNERS"
  \/ exists m, r = ("fast reviewer (~" ++ numberToString (round m)
                    ++ "h median)")%string.



(* ================================================================= *)
(** ** Booleans and rationals *)

Lemma Qlt_bool_true (a b : Q) : Qlt_bool a b = true <-> a < b.
Proof.
  unfold Qlt_bool. rewrite negb_true_iff.
  destruct (Qle_bool b a) eqn:E.
  - apply Qle_bool_iff in E. split; [discriminate | intros H; exfalso; lra].
  - split; [intros _ | reflexivity].
    destruct (Qlt_le_dec a b) as [H | H]; [exact H | ].
    apply Qle_bool_iff in H. congruence.
Qed.

Lemma Qlt_bool_false (a b : Q) : Qlt_bool a b = false <-> b <= a.
Proof.
  unfold Qlt_bool. rewrite negb_false_iff. apply Qle_bool_iff.
Qed.

Lemma Qle_bool_false (a b : Q) : Qle_bool a b = false <-> b < a.
Proof.
  destruct (Qle_bool a b) eqn:E.
  - apply Qle_bool_iff in E. split; [discriminate | intros H; exfalso; lra].
  - split; [intros _ | reflexivity].
    destruct (Qlt_le_dec b a) as [H | H]; [exact H | ].
    apply Qle_bool_iff in H. congruence.
Qed.

Lemma orZero_Some (v : Q) : orZero (Some v) == v.
Proof.
  unfold orZero. destruct (Qeq_bool v 0) eqn:E; [ | reflexivity].
  apply Qeq_bool_iff in E. symmetry. exact E.
Qed.

(* ================================================================= *)
(** ** The latency bonus *)

Lemma latencyBonusHours_tiers (m : Q) :
  (m <= 4 -> latencyBonusHours (Some m) = 6)
  /\ (4 < m -> m <= 12 -> latencyBonusHours (Some m) = 4)
  /\ (12 < m -> m <= 24 -> latencyBonusHours (Some m) = 2)
  /\ (24 < m -> m <= 48 -> latencyBonusHours (Some m) = 1)
  /\ (48 < m -> latencyBonusHours (Some m) = 0).
Proof.
  unfold latencyBonusHours.
  destruct (Qle_bool m 4) eqn:E4; [apply Qle_bool_iff in E4 | apply Qle_bool_false in E4];
  (destruct (Qle_bool m 12) eqn:E12; [apply Qle_bool_iff in E12 | apply Qle_bool_false in E12]);
  (destruct (Qle_bool m 24) eqn:E24; [apply Qle_bool_iff in E24 | apply Qle_bool_false in E24]);
  (destruct (Qle_bool m 48) eqn:E48; [apply Qle_bool_iff in E48 | apply Qle_bool_false in E48]);
  repeat split; intros; try reflexivity; exfalso; lra.
Qed.

Lemma latencyBonusHours_cases (m : Q) :
  (m <= 4 /\ latencyBonusHours (Some m) = 6)
  \/ (4 < m <= 12 /\ latencyBonusHours (Some m) = 4)
  \/ (12 < m <= 24 /\ latencyBonusHours (Some m) = 2)
  \/ (24 < m <= 48 /\ latencyBonusHours (Some m) = 1)
  \/ (48 < m /\ latencyBonusHours (Some m) = 0).
Proof.
  destruct (latencyBonusHours_tiers m) as (T1 & T2 & T3 & T4 & T5).
  destruct (Qlt_le_dec 4 m) as [H4 | H4]; [ | left; auto].
  destruct (Qlt_le_dec 12 m) as [H12 | H12]; [ | right; left; auto].
  destruct (Qlt_le_dec 24 m) as [H24 | H24]; [ | right; right; left; auto].
  destruct (Qlt_le_dec 48 m) as [H48 | H48]; [ | right; right; right; left; auto].
  right; right; right; right; auto.
Qed.

Lemma latencyBonusHours_nonneg (m : option Q) : 0 <= latencyBonusHours m.
Proof.
  destruct m as [m | ]; [ | simpl; lra].
  destruct (latencyBonusHours_cases m) as [[_ E] | [[_ E] | [[_ E] | [[_ E] | [_ E]]]]];
    rewrite E; lra.
Qed.

(** C5 (as the code has it): the bonus is a step function of the median
    hours that never grows with the median: 6 up to 4 hours, 4 up to 12,
    2 up to 24, 1 up to 48 and 0 above 48 hours; a slower median never
    earns a larger bonus, and one in a slower tier earns a strictly
    smaller one. *)
Theorem latencyBonusHours_step_antitone :
  forall m1 m2 : Q,
    m1 <= m2 ->
    latencyBonusHours (Some m2) <= latencyBonusHours (Some m1)
    /\ (m1 <= 4 -> latencyBonusHours (Some m1) = 6)
    /\ (4 < m1 -> m1 <= 12 -> latencyBonusHours (Some m1) = 4)
    /\ (12 < m1 -> m1 <= 24 -> latencyBonusHours (Some m1) = 2)
    /\ (24 < m1 -> m1 <= 48 -> latencyBonusHours (Some m1) = 1)
    /\ (48 < m1 -> latencyBonusHours (Some m1) = 0)
    /\ (forall t : Q, In t [4; 12; 24; 48] -> m1 <= t -> t < m2 ->
        latencyBonusHours (Some m2) < latencyBonusHours (Some m1)).
Proof.
  intros m1 m2 Hle.
  split; [ | split; [ | split; [ | split; [ | split; [ | split]]]]];
    try apply latencyBonusHours_tiers.
  - destruct (latencyBonusHours_cases m1) as [[B1 E1] | [[B1 E1] | [[B1 E1] | [[B1 E1] | [B1 E1]]]]];
    destruct (latencyBonusHours_cases m2) as [[B2 E2] | [[B2 E2] | [[B2 E2] | [[B2 E2] | [B2 E2]]]]];
    rewrite E1, E2; lra.
  - intros t Ht H1 H2.
    destruct (latencyBonusHours_cases m1) as [[B1 E1] | [[B1 E1] | [[B1 E1] | [[B1 E1] | [B1 E1]]]]];
    destruct (latencyBonusHours_cases m2) as [[B2 E2] | [[B2 E2] | [[B2 E2] | [[B2 E2] | [B2 E2]]]]];
    rewrite E1, E2;
    simpl in Ht;
    destruct Ht as [<- | [<- | [<- | [<- | []]]]]; lra.
Qed.

Lemma latencyBonusHours_step_antitone_witness :
  1 <= 5
  /\ latencyBonusHours (Some 5) <= latencyBonusHours (Some 1)
  /\ latencyBonusHours (Some 5) < latencyBonusHours (Some 1).
Proof.
  assert (H : 1 <= 5) by lra.
  destruct (latencyBonusHours_step_antitone 1 5 H) as (A & _ & _ & _ & _ & _ & B).
  split; [exact H | split; [exact A | ]].
  apply (B 4); [simpl; auto | lra | lra].
Defined.

(** C5 (as stated) fails: the medians 1 and 2 hours lie in the same tier
    and earn the same bonus, so the faster one is not strictly better. *)
Lemma latencyBonusHours_not_strict :
  1 < 2 /\ ~ latencyBonusHours (Some 2) < latencyBonusHours (Some 1).
Proof.
  split; [lra | ]. simpl. lra.
Qed.

(* ================================================================= *)
(** ** Maps in insertion order: lookup after update *)

Section JsMapFacts.
Context {V : Type}.
Implicit Types (m : list (string * V)) (k l : string).

Lemma mapGet_mapSet k l (v : V) m :
  mapGet l (mapSet k v m) = if String.eqb l k then Some v else mapGet l m.
Proof.
  induction m as [ | [k' v'] m IH]; simpl.
  - destruct (String.eqb l k); reflexivity.
  - destruct (String.eqb k k') eqn:Ek; simpl.
    + apply String.eqb_eq in Ek. subst k'.
      destruct (String.eqb l k); reflexivity.
    + destruct (String.eqb l k') eqn:El.
      * apply String.eqb_eq in El. subst k'.
        rewrite String.eqb_sym, Ek. reflexivity.
      * exact IH.
Qed.

Lemma mapGet_mapSet_same k (v : V) m : mapGet k (mapSet k v m) = Some v.
Proof. rewrite mapGet_mapSet, String.eqb_refl. reflexivity. Qed.

Lemma mapGet_mapSet_other k l (v : V) m :
  l <> k -> mapGet l (mapSet k v m) = mapGet l m.
Proof.
  intros H. rewrite mapGet_mapSet.
  apply String.eqb_neq in H. rewrite H. reflexivity.
Qed.

Lemma mapGet_In k (v : V) m : mapGet k m = Some v -> In (k, v) m.
Proof.
  induction m as [ | [k' v'] m IH]; simpl; [discriminate | ].
  destruct (String.eqb k k') eqn:E.
  - apply String.eqb_eq in E. subst k'. intros [= ->]. left. reflexivity.
  - intros H. right. apply IH. exact H.
Qed.

Lemma mapGet_None_keys k m : mapGet k m = None <-> ~ In k (map fst m).
Proof.
  induction m as [ | [k' v'] m IH]; simpl.
  - split; [intros _ [] | reflexivity].
  - destruct (String.eqb k k') eqn:E.
    + apply String.eqb_eq in E. subst k'.
      split; [discriminate | intros H; exfalso; apply H; left; reflexivity].
    + apply String.eqb_neq in E. rewrite IH.
      split; [intros H [H1 | H1]; [congruence | tauto] | tauto].
Qed.

Lemma In_mapGet_NoDup k (v : V) m :
  NoDup (map fst m) -> In (k, v) m -> mapGet k m = Some v.
Proof.
  induction m as [ | [k' v'] m IH]; simpl; [intros _ [] | ].
  intros Hnd [H | H]; inversion Hnd as [ | ? ? Hnot Hnd']; subst.
  - inversion H; subst. rewrite String.eqb_refl. reflexivity.
  - destruct (String.eqb k k') eqn:E.
    + apply String.eqb_eq in E. subst k'.
      exfalso. apply Hnot. apply (in_map fst) in H. exact H.
    + apply IH; assumption.
Qed.

Lemma keys_mapSet k (v : V) m l :
  In l (map fst (mapSet k v m)) <-> l = k \/ In l (map fst m).
Proof.
  induction m as [ | [k' v'] m IH]; simpl.
  - intuition.
  - destruct (String.eqb k k') eqn:E; simpl.
    + apply String.eqb_eq in E. subst k'. intuition.
    + rewrite IH. intuition.
Qed.

Lemma NoDup_keys_mapSet k (v : V) m :
  NoDup (map fst m) -> NoDup (map fst (mapSet k v m)).
Proof.
  induction m as [ | [k' v'] m IH]; simpl; intros Hnd.
  - constructor; [intros [] | constructor].
  - inversion Hnd as [ | ? ? Hnot Hnd']; subst.
    destruct (String.eqb k k') eqn:E; simpl.
    + constructor; assumption.
    + constructor; [ | apply IH; assumption].
      rewrite keys_mapSet. intros [H | H]; [ | tauto].
      subst k'. rewrite String.eqb_refl in E. discriminate.
Qed.
End JsMapFacts.

(* ================================================================= *)
(** ** The median and the latency profile *)

Lemma pushSamples_absent (l : string) (c : Z) (firsts : list (string * Z)) :
  forall per,
    (forall t, In (l, t) firsts -> latencyHours t c < 0) ->
    mapGet l per = None ->
    mapGet l (pushSamples c firsts per) = None.
Proof.
  unfold pushSamples.
  induction firsts as [ | [l' t] firsts IH]; intros per Hneg Hper; simpl;
    [exact Hper | ].
  apply IH; [intros t' Ht'; apply Hneg; right; exact Ht' | ].
  destruct (Qlt_bool (latencyHours t c) 0) eqn:E; [exact Hper | ].
  apply Qlt_bool_false in E.
  assert (Hl : l <> l').
  { intros ->. specialize (Hneg t (or_introl eq_refl)). lra. }
  assert (Hper' : mapGet l (if mapHas l' per then per else mapSet l' [] per)
                  = None).
  { destruct (mapHas l' per); [exact Hper | ].
    rewrite mapGet_mapSet_other; assumption. }
  destruct (mapGet l' _); [ | exact Hper'].
  rewrite mapGet_mapSet_other; assumption.
Qed.

Lemma perReviewerSamples_absent (since : Z) (l : string) (pulls : list pull) :
  ~ hasValidSample since pulls l ->
  mapGet l (perReviewerSamples since pulls) = None.
Proof.
  unfold perReviewerSamples.
  assert (G : forall per,
             ~ hasValidSample since pulls l -> mapGet l per = None ->
             mapGet l
               (fold_left
                  (fun per pr =>
                     if negb (isSome (merged_at pr))
                        && negb (isSome (closed_at pr)) then per
                     else if (created_at pr <? since)%Z then per
                     else match reviews pr with
                          | None => per
                          | Some rs =>
                              pushSamples (created_at pr) (firstByUser rs) per
                          end) pulls per) = None).
  { induction pulls as [ | pr pulls IH]; intros per Hno Hper; simpl;
      [exact Hper | ].
    apply IH.
    - intros (pr' & rs & t & Hin & H). apply Hno.
      exists pr', rs, t. split; [right; exact Hin | exact H].
    - destruct (negb (isSome (merged_at pr)) && negb (isSome (closed_at pr)))
        eqn:Eclosed; [exact Hper | ].
      destruct (created_at pr <? since)%Z eqn:Esince; [exact Hper | ].
      destruct (reviews pr) as [rs | ] eqn:Ers; [ | exact Hper].
      apply pushSamples_absent; [ | exact Hper].
      intros t Ht.
      destruct (Qlt_le_dec (latencyHours t (created_at pr)) 0) as [H | H];
        [exact H | ].
      exfalso. apply Hno. exists pr, rs, t.
      repeat split; try assumption.
      + left; reflexivity.
      + destruct (isSome (merged_at pr)), (isSome (closed_at pr));
          simpl in *; congruence.
      + apply Z.ltb_ge. exact Esince. }
  intros Hno. apply G; [exact Hno | reflexivity].
Qed.

Lemma latencyProfile_keys (per : list (string * list Q)) (l : string) :
  forall out,
    mapGet l per = None -> mapGet l out = None ->
    mapGet l
      (fold_left
         (fun out '(login, arr) =>
            match median arr with
            | Some m => mapSet login m out
            | None => out
            end) per out) = None.
Proof.
  induction per as [ | [l' arr] per IH]; intros out Hper Hout; simpl;
    [exact Hout | ].
  simpl in Hper. destruct (String.eqb l l') eqn:E; [discriminate | ].
  apply String.eqb_neq in E.
  apply IH; [exact Hper | ].
  destruct (median arr); [ | exact Hout].
  rewrite mapGet_mapSet_other; assumption.
Qed.

(** C8: the median of [2,4] is 3, that of [1,2,9] is 2, and the empty list
    has no median ([null], not zero); so a reviewer without a valid
    latency sample has no entry in the latency profile, rather than an
    entry 0. *)
Theorem median_examples_and_no_sample_no_entry :
  (exists q, median [2; 4] = Some q /\ q == 3)
  /\ median [1; 2; 9] = Some 2
  /\ median [] = None
  /\ (forall (since : Z) (pulls : list pull) (l : string),
         ~ hasValidSample since pulls l ->
         mapGet l (computeReviewerLatencyHours since pulls) = None).
Proof.
  split; [exists (6 # 2); split; reflexivity | ].
  split; [reflexivity | ].
  split; [reflexivity | ].
  intros since pulls l Hno. unfold computeReviewerLatencyHours.
  apply latencyProfile_keys; [ | reflexivity].
  apply perReviewerSamples_absent. exact Hno.
Qed.

Lemma median_examples_and_no_sample_no_entry_witness :
  ~ hasValidSample 0 samplePulls "bo"
  /\ mapGet "bo" (computeReviewerLatencyHours 0 samplePulls) = None.
Proof.
  assert (H : ~ hasValidSample 0 samplePulls "bo").
  { intros (pr & rs & t & Hin & _ & _ & Hrs & Ht & Hh).
    destruct Hin as [<- | []]. simpl in Hrs. injection Hrs as <-.
    vm_compute in Ht.
    destruct Ht as [Ht | [Ht | []]]; [discriminate | ].
    injection Ht as <-. revert Hh. vm_compute. intros Hh. apply Hh. reflexivity. }
  split; [exact H | ].
  destruct median_examples_and_no_sample_no_entry as (_ & _ & _ & G).
  apply G. exact H.
Defined.

(* ================================================================= *)
(** ** Ownership resolution *)

Section OwnersForFile.
Variable minimatch : string -> string -> bool.

Lemma ownersForFile_fold (rules : list rule) (filePath : string) :
  ownersForFile minimatch rules filePath
  = fold_left (ownersStep minimatch filePath) rules [].
Proof. destruct rules; reflexivity. Qed.

Lemma fold_no_match (filePath : string) (rules : list rule) :
  forall acc,
    (forall r, In r rules -> ruleMatches minimatch r filePath = false) ->
    fold_left (ownersStep minimatch filePath) rules acc = acc.
Proof.
  induction rules as [ | r rules IH]; intros acc H; simpl; [reflexivity | ].
  unfold ownersStep at 2. rewrite (H r (or_introl eq_refl)).
  apply IH. intros r' Hr'. apply H. right. exact Hr'.
Qed.

(** C1: resolution returns exactly the owners of the last rule, in file
    order, whose normalized pattern matches the path, replacing and never
    merging owner sets; a non-matching rule in front changes nothing, a
    matching rule at the end overrides, and without a matching rule the
    result is empty. *)
Theorem ownersForFile_last_match_wins :
  forall (rules : list rule) (filePath : string),
    (forall before r after,
        rules = before ++ r :: after ->
        ruleMatches minimatch r filePath = true ->
        (forall r', In r' after ->
                    ruleMatches minimatch r' filePath = false) ->
        ownersForFile minimatch rules filePath = owners r)
    /\ (forall r,
           ruleMatches minimatch r filePath = false ->
           ownersForFile minimatch (r :: rules) filePath
           = ownersForFile minimatch rules filePath)
    /\ (forall r,
           ruleMatches minimatch r filePath = true ->
           ownersForFile minimatch (rules ++ [r]) filePath = owners r)
    /\ ((forall r, In r rules -> ruleMatches minimatch r filePath = false) ->
        ownersForFile minimatch rules filePath = []).
Proof.
  intros rules filePath.
  assert (Last : forall rs before r after,
             rs = before ++ r :: after ->
             ruleMatches minimatch r filePath = true ->
             (forall r', In r' after ->
                         ruleMatches minimatch r' filePath = false) ->
             ownersForFile minimatch rs filePath = owners r).
  { intros rs before r after -> Hr Hafter.
    rewrite ownersForFile_fold, fold_left_app. simpl.
    rewrite fold_no_match by exact Hafter.
    unfold ownersStep. rewrite Hr. reflexivity. }
  split; [apply Last | ].
  split; [ | split].
  - intros r Hr. rewrite !ownersForFile_fold. simpl.
    unfold ownersStep at 2. rewrite Hr. reflexivity.
  - intros r Hr. apply (Last _ rules r []); [reflexivity | exact Hr | ].
    intros r' [].
  - intros H. rewrite ownersForFile_fold. apply fold_no_match. exact H.
Qed.
End OwnersForFile.

Lemma ownersForFile_last_match_wins_witness :
  ownersForFile Minimatch.minimatch
    [Rule "*" ["zoe"]; Rule "*.md" ["bob"; "dan"]; Rule "/src/**" ["alice"]]
    "docs/README.md"
  = ["bob"; "dan"].
Proof.
  destruct (ownersForFile_last_match_wins Minimatch.minimatch
              [Rule "*" ["zoe"]; Rule "*.md" ["bob"; "dan"];
               Rule "/src/**" ["alice"]] "docs/README.md") as (H & _).
  apply (H [Rule "*" ["zoe"]] (Rule "*.md" ["bob"; "dan"])
           [Rule "/src/**" ["alice"]]).
  - reflexivity.
  - vm_compute. reflexivity.
  - intros r' [<- | []]. vm_compute. reflexivity.
Defined.

(* ================================================================= *)
(** ** Pattern normalization and the root anchor *)

(** C3 (evaluated on the code): a rule [/Makefile] is normalized to
    [Makefile]; the pattern then has no slash, and under [matchBase: true]
    the matcher compares it with the basename of the path, so the rule
    matches [Makefile] and also [sub/Makefile]: the root anchor is lost. *)
Theorem root_anchor_lost_without_slash :
  normalizeCodeownersPattern "/Makefile" = "Makefile"
  /\ ruleMatches Minimatch.minimatch (Rule "/Makefile" ["alice"]) "Makefile"
     = true
  /\ ruleMatches Minimatch.minimatch (Rule "/Makefile" ["alice"])
       "sub/Makefile" = true
  /\ ownersForFile Minimatch.minimatch [Rule "/Makefile" ["alice"]]
       "sub/Makefile" = ["alice"].
Proof. repeat split; vm_compute; reflexivity. Qed.

(* ================================================================= *)
(** ** The end-to-end scenario *)

(** C4: the rule text with the lines [/src/** alice] and [*.md bob], the
    changed files [src/app.js] and [README.md], no contributor and no
    latency signal, the weights 1, 4, 1 and the author [carol] rank
    [alice] with score 4 before [bob] with score 4; the tie goes to the
    login seen first, so the changed files in the other order put [bob]
    first. *)
Theorem end_to_end_scenario :
  forall numberToString : Q -> string,
    let rules :=
      parseCodeowners (Some ("/src/** alice" ++ nl ++ "*.md bob")%string) in
    let ranked :=
      rankCandidates Minimatch.minimatch numberToString "carol"
        (Weights 1 4 1) [] rules ["src/app.js"; "README.md"] [] in
    rules = [Rule "/src/**" ["alice"]; Rule "*.md" ["bob"]]
    /\ ranked = [Candidate "alice" 4 ["CODEOWNERS"];
                 Candidate "bob" 4 ["CODEOWNERS"]]
    /\ map (fun c => (login c, score c)) ranked = [("alice", 4); ("bob", 4)]
    /\ map (fun c => (login c, score c))
           (rankCandidates Minimatch.minimatch numberToString "carol"
              (Weights 1 4 1) [] rules ["README.md"; "src/app.js"] [])
       = [("bob", 4); ("alice", 4)].
Proof. intros numberToString. repeat split; vm_compute; reflexivity. Qed.

(* ================================================================= *)
(** ** The confidence label *)

Lemma specConfidence_High (top second coverage : Q) :
  specConfidence top second coverage = "High"
  <-> 12 <= top /\ 1 # 2 <= coverage /\ 1 # 4 <= specSeparation top second.
Proof.
  unfold specConfidence.
  destruct (Qle_bool 12 top) eqn:E1, (Qle_bool (1 # 2) coverage) eqn:E2,
    (Qle_bool (1 # 4) (specSeparation top second)) eqn:E3; simpl;
    try apply Qle_bool_iff in E1; try apply Qle_bool_false in E1;
    try apply Qle_bool_iff in E2; try apply Qle_bool_false in E2;
    try apply Qle_bool_iff in E3; try apply Qle_bool_false in E3;
    (split; [intros H | intros (H1 & H2 & H3)]); auto;
    try (exfalso; lra);
    destruct (Qle_bool 6 top && Qle_bool (1 # 4) coverage); discriminate.
Qed.

Lemma specConfidence_Medium (top second coverage : Q) :
  specConfidence top second coverage = "Medium"
  <-> ~ (12 <= top /\ 1 # 2 <= coverage /\ 1 # 4 <= specSeparation top second)
      /\ 6 <= top /\ 1 # 4 <= coverage.
Proof.
  rewrite <- specConfidence_High. unfold specConfidence.
  destruct (Qle_bool 12 top && Qle_bool (1 # 2) coverage
            && Qle_bool (1 # 4) (specSeparation top second)).
  - split; [discriminate | intros (H & _); exfalso; apply H; reflexivity].
  - destruct (Qle_bool 6 top) eqn:E1, (Qle_bool (1 # 4) coverage) eqn:E2; simpl;
      try apply Qle_bool_iff in E1; try apply Qle_bool_false in E1;
      try apply Qle_bool_iff in E2; try apply Qle_bool_false in E2;
      (split; [intros H | intros (H0 & H1 & H2)]);
      try discriminate; try (exfalso; lra); auto.
    repeat split; auto. discriminate.
Qed.

Lemma specConfidence_Low (top second coverage : Q) :
  specConfidence top second coverage = "Low"
  <-> ~ (12 <= top /\ 1 # 2 <= coverage /\ 1 # 4 <= specSeparation top second)
      /\ ~ (6 <= top /\ 1 # 4 <= coverage).
Proof.
  rewrite <- specConfidence_High. unfold specConfidence.
  destruct (Qle_bool 12 top && Qle_bool (1 # 2) coverage
            && Qle_bool (1 # 4) (specSeparation top second)).
  - split; [discriminate | intros (H & _); exfalso; apply H; reflexivity].
  - destruct (Qle_bool 6 top) eqn:E1, (Qle_bool (1 # 4) coverage) eqn:E2; simpl;
      try apply Qle_bool_iff in E1; try apply Qle_bool_false in E1;
      try apply Qle_bool_iff in E2; try apply Qle_bool_false in E2;
      (split; [intros H | intros (H0 & H1)]);
      try discriminate; try reflexivity.
    + exfalso. apply H1. split; assumption.
    + split; [discriminate | intros (? & ?); lra].
    + split; [discriminate | intros (? & ?); lra].
    + split; [discriminate | intros (? & ?); lra].
Qed.

Lemma specSeparation_pos (top second : Q) :
  0 < top -> specSeparation top second == (top - second) / top.
Proof.
  intros H. unfold specSeparation.
  apply Qlt_bool_true in H. rewrite H. reflexivity.
Qed.

Lemma specSeparation_nonpos (top second : Q) :
  top <= 0 -> specSeparation top second == 0.
Proof.
  intros H. unfold specSeparation.
  apply Qlt_bool_false in H. rewrite H. reflexivity.
Qed.

(** C6: the label is a function of the top score, the second score and
    the coverage ratio, by ordered thresholds: High when top >= 12,
    coverage >= 0.5 and separation >= 0.25; otherwise Medium when top >= 6
    and coverage >= 0.25; otherwise Low; the separation is
    (top - second) / top for a positive top and 0 otherwise.  So
    (14, 9, 0.6) is High, (7, 6, 0.3) is Medium and a top of 3 is Low. *)
Theorem computeConfidence_thresholds :
  forall (minimatch : string -> string -> bool)
         (ranked : list candidate) (changedFiles : list string)
         (codeownersRules : list rule) (fileAuthors : list fileAuthorsEntry),
    let top := scoreAt ranked 0 in
    let second := scoreAt ranked 1 in
    let coverage :=
      coverageRatio minimatch changedFiles codeownersRules fileAuthors in
    let label :=
      computeConfidence minimatch ranked changedFiles codeownersRules
        fileAuthors in
    let separation := specSeparation top second in
    label = specConfidence top second coverage
    /\ (0 < top -> separation == (top - second) / top)
    /\ (top <= 0 -> separation == 0)
    /\ (label = "High"
        <-> 12 <= top /\ 1 # 2 <= coverage /\ 1 # 4 <= separation)
    /\ (label = "Medium"
        <-> ~ (12 <= top /\ 1 # 2 <= coverage /\ 1 # 4 <= separation)
            /\ 6 <= top /\ 1 # 4 <= coverage)
    /\ (label = "Low"
        <-> ~ (12 <= top /\ 1 # 2 <= coverage /\ 1 # 4 <= separation)
            /\ ~ (6 <= top /\ 1 # 4 <= coverage))
    /\ (top == 14 -> second == 9 -> coverage == 6 # 10 -> label = "High")
    /\ (top == 7 -> second == 6 -> coverage == 3 # 10 -> label = "Medium")
    /\ (top == 3 -> label = "Low").
Proof.
  intros minimatch ranked changedFiles codeownersRules fileAuthors
         top second coverage label separation.
  assert (E : label = specConfidence top second coverage) by reflexivity.
  split; [exact E | ].
  split; [apply specSeparation_pos | ].
  split; [apply specSeparation_nonpos | ].
  rewrite E.
  split; [apply specConfidence_High | ].
  split; [apply specConfidence_Medium | ].
  split; [apply specConfidence_Low | ].
  split; [ | split].
  - intros Ht Hs Hc. apply specConfidence_High.
    assert (Hsep : separation == (top - second) / top)
      by (apply specSeparation_pos; lra).
    fold separation. rewrite Hsep, Ht, Hs, Hc.
    repeat split; unfold Qle; simpl; lia.
  - intros Ht Hs Hc. apply specConfidence_Medium.
    assert (Hsep : separation == (top - second) / top)
      by (apply specSeparation_pos; lra).
    fold separation. rewrite Hsep, Ht, Hs, Hc.
    split; [intros (H & _); revert H | split]; unfold Qle; simpl; lia.
  - intros Ht. apply specConfidence_Low.
    split; intros (H & _); lra.
Qed.

(* ================================================================= *)
(** ** The signals as awards *)

Lemma add_ineligible (prAuthor l : string) (p : Q) (r : string)
      (st : rankState) :
  eligible prAuthor l = false -> add prAuthor l p r st = st.
Proof.
  unfold eligible, add.
  destruct (Js.isEmpty l || isBotLogin l); [reflexivity | ].
  destruct (String.eqb l prAuthor); [reflexivity | discriminate].
Qed.

Lemma scores_add (prAuthor l : string) (p : Q) (r : string) (st : rankState) :
  eligible prAuthor l = true ->
  scores (add prAuthor l p r st)
  = mapSet l (orZero (mapGet l (scores st)) + p) (scores st).
Proof.
  unfold eligible, add.
  destruct (Js.isEmpty l || isBotLogin l); [discriminate | ].
  destruct (String.eqb l prAuthor); [discriminate | reflexivity].
Qed.

Lemma applyAwards_app (prAuthor : string) (a b : list award)
      (st : rankState) :
  applyAwards prAuthor (a ++ b) st
  = applyAwards prAuthor b (applyAwards prAuthor a st).
Proof. unfold applyAwards. apply fold_left_app. Qed.

Lemma applyAwards_cons (prAuthor : string) (l : string) (p : Q) (r : string)
      (aws : list award) (st : rankState) :
  applyAwards prAuthor ((l, p, r) :: aws) st
  = applyAwards prAuthor aws (add prAuthor l p r st).
Proof. reflexivity. Qed.

Lemma commitHistorySignal_awards (prAuthor : string) (w : weightsT)
      (fileAuthors : list fileAuthorsEntry) :
  forall st,
    commitHistorySignal prAuthor w fileAuthors st
    = applyAwards prAuthor (commitAwards w fileAuthors) st.
Proof.
  unfold commitHistorySignal, commitAwards.
  induction fileAuthors as [ | fa fas IH]; intros st; simpl; [reflexivity | ].
  rewrite applyAwards_app, IH. f_equal.
  generalize (combine (seq 0 (Nat.min (List.length (authors fa)) 10))
                      (authors fa)).
  intros l. revert st.
  induction l as [ | [i a] l IHl]; intros st; simpl; [reflexivity | ].
  rewrite IHl. reflexivity.
Qed.

Lemma ownerHitsInFile_awards (prAuthor : string) (x : Q) (f : string)
      (os : list string) :
  forall seen st,
    fold_left
      (fun '(seen, st) o =>
         if Js.isEmpty o then (seen, st)
         else
           let key := seenKey o f in
           if setHas key seen then (seen, st)
           else (setAdd key seen, add prAuthor o x "CODEOWNERS" st))
      os (seen, st)
    = (fst (ownerHitsInFile f os seen),
       applyAwards prAuthor
         (map (fun o => (o, x, "CODEOWNERS")) (snd (ownerHitsInFile f os seen)))
         st).
Proof.
  induction os as [ | o os IH]; intros seen st; simpl; [reflexivity | ].
  destruct (Js.isEmpty o); [apply IH | ].
  destruct (setHas (seenKey o f) seen); [apply IH | ].
  rewrite IH.
  destruct (ownerHitsInFile f os (setAdd (seenKey o f) seen)) as [s' hs].
  reflexivity.
Qed.

Lemma codeownersSignal_awards (minimatch : string -> string -> bool)
      (prAuthor : string) (w : weightsT) (rules : list rule)
      (files : list string) (st : rankState) :
  codeownersSignal minimatch prAuthor w rules files st
  = applyAwards prAuthor (codeownersAwards minimatch w rules files) st.
Proof.
  unfold codeownersSignal, codeownersAwards.
  destruct (Qlt_bool 0 (codeowners w) && negb (isNil rules)); [ | reflexivity].
  generalize (@nil string) as seen. revert st.
  induction files as [ | f fs IH]; intros st seen; simpl; [reflexivity | ].
  rewrite ownerHitsInFile_awards.
  destruct (ownerHitsInFile f (ownersForFile minimatch rules f) seen)
    as [seen' hs]; simpl.
  rewrite map_app, applyAwards_app. apply IH.
Qed.

Lemma latencySignal_awards (numberToString : Q -> string)
      (prAuthor : string) (w : weightsT) (latencyMap : list (string * Q))
      (st : rankState) :
  latencySignal numberToString prAuthor w latencyMap st
  = applyAwards prAuthor (latencyAwards numberToString w latencyMap) st.
Proof.
  unfold latencySignal, latencyAwards.
  destruct (Qlt_bool 0 (latency w) && negb (isNil latencyMap));
    [ | reflexivity].
  revert st.
  induction latencyMap as [ | [l m] lm IH]; intros st;
    cbn [fold_left flat_map]; [reflexivity | ].
  rewrite applyAwards_app, IH. f_equal.
  unfold latencyAward; cbn [fst snd].
  destruct (Qlt_bool 0 (latencyBonusHours (Some m) * latency w)); reflexivity.
Qed.

Lemma signalsState_awards (minimatch : string -> string -> bool)
      (numberToString : Q -> string) (prAuthor : string) (w : weightsT)
      (fileAuthors : list fileAuthorsEntry) (rules : list rule)
      (files : list string) (latencyMap : list (string * Q)) :
  signalsState minimatch numberToString prAuthor w fileAuthors rules files
    latencyMap
  = applyAwards prAuthor
      (allAwards minimatch numberToString w fileAuthors rules files latencyMap)
      (RankState [] []).
Proof.
  unfold signalsState, allAwards.
  rewrite latencySignal_awards, codeownersSignal_awards,
    commitHistorySignal_awards, !applyAwards_app.
  reflexivity.
Qed.

Lemma rankCandidates_state (minimatch : string -> string -> bool)
      (numberToString : Q -> string) (prAuthor : string) (w : weightsT)
      (fileAuthors : list fileAuthorsEntry) (rules : list rule)
      (files : list string) (latencyMap : list (string * Q)) :
  rankCandidates minimatch numberToString prAuthor w fileAuthors rules files
    latencyMap
  = let st := signalsState minimatch numberToString prAuthor w fileAuthors
                rules files latencyMap in
    map (toCandidate st) (sortBy byScoreDesc (scores st)).
Proof.
  unfold rankCandidates, signalsState. simpl.
  apply map_ext. intros [l sc]. reflexivity.
Qed.

(* ================================================================= *)
(** ** Where awards come from *)

Lemma combine_seq_firstn {A : Type} (l : list A) :
  forall s n,
    map snd (combine (seq s (Nat.min (List.length l) n)) l) = firstn n l.
Proof.
  induction l as [ | a l IH]; intros s n; simpl.
  - destruct n; reflexivity.
  - destruct n as [ | n]; simpl; [reflexivity | ].
    rewrite IH. reflexivity.
Qed.

Lemma In_commitAwards (w : weightsT) (fileAuthors : list fileAuthorsEntry)
      (a : award) :
  In a (commitAwards w fileAuthors)
  <-> exists fa i,
      In fa fileAuthors
      /\ In (i, awardLogin a)
            (combine (seq 0 (Nat.min (List.length (authors fa)) 10))
                     (authors fa))
      /\ a = (awardLogin a, positionWeight i * commitHistory w,
              "recent commits").
Proof.
  unfold commitAwards. rewrite in_flat_map. split.
  - intros (fa & Hfa & Ha). apply in_map_iff in Ha.
    destruct Ha as ([i x] & <- & Hin). exists fa, i. simpl. auto.
  - intros (fa & i & Hfa & Hin & ->). exists fa. split; [exact Hfa | ].
    apply in_map_iff. exists (i, awardLogin a). simpl. auto.
Qed.

Lemma ownerHitsInFile_In (f : string) (os : list string) :
  forall seen o, In o (snd (ownerHitsInFile f os seen)) -> In o os.
Proof.
  induction os as [ | o' os IH]; intros seen o; simpl; [tauto | ].
  destruct (Js.isEmpty o'); [intros H; right; eapply IH; exact H | ].
  destruct (setHas (seenKey o' f) seen); [intros H; right; eapply IH; exact H | ].
  specialize (IH (setAdd (seenKey o' f) seen) o).
  destruct (ownerHitsInFile f os (setAdd (seenKey o' f) seen)) as [s' hs].
  simpl in *. intros [H | H]; [left; exact H | right; apply IH; exact H].
Qed.

Lemma ownerHits_In (minimatch : string -> string -> bool)
      (rules : list rule) (files : list string) :
  forall seen o,
    In o (ownerHits minimatch rules files seen) ->
    exists f, In f files /\ In o (ownersForFile minimatch rules f).
Proof.
  induction files as [ | f fs IH]; intros seen o; simpl; [tauto | ].
  pose proof (ownerHitsInFile_In f (ownersForFile minimatch rules f) seen o)
    as Hf.
  destruct (ownerHitsInFile f (ownersForFile minimatch rules f) seen)
    as [seen' hs].
  simpl in Hf. rewrite in_app_iff. intros [H | H].
  - exists f. split; [left; reflexivity | apply Hf; exact H].
  - destruct (IH seen' o H) as (f' & Hf' & Ho).
    exists f'. split; [right; exact Hf' | exact Ho].
Qed.

Lemma In_latencyAwards (numberToString : Q -> string) (w : weightsT)
      (latencyMap : list (string * Q)) (a : award) :
  In a (latencyAwards numberToString w latencyMap) ->
  exists m,
    In (awardLogin a, m) latencyMap
    /\ 0 < latency w
    /\ 0 < latencyBonusHours (Some m) * latency w
    /\ a = (awardLogin a, latencyBonusHours (Some m) * latency w,
            ("fast reviewer (~" ++ numberToString (round m) ++ "h median)")
              %string).
Proof.
  unfold latencyAwards.
  destruct (Qlt_bool 0 (latency w)) eqn:Ew; simpl; [ | tauto].
  apply Qlt_bool_true in Ew.
  destruct (isNil latencyMap); simpl; [tauto | ].
  rewrite in_flat_map. intros ([l m] & Hin & Ha).
  unfold latencyAward in Ha. cbn [fst snd] in Ha.
  destruct (Qlt_bool 0 (latencyBonusHours (Some m) * latency w)) eqn:Eb;
    [ | destruct Ha].
  apply Qlt_bool_true in Eb.
  destruct Ha as [<- | []]. exists m. simpl. auto.
Qed.

Lemma positive_bonus (m w : Q) :
  0 < latencyBonusHours (Some m) * w -> 0 < w ->
  0 < latencyBonusHours (Some m).
Proof.
  intros H Hw.
  destruct (latencyBonusHours_cases m)
    as [[_ E] | [[_ E] | [[_ E] | [[_ E] | [_ E]]]]];
    rewrite E in *; lra.
Qed.

Lemma commitAwards_draws (minimatch : string -> string -> bool)
      (w : weightsT) (fileAuthors : list fileAuthorsEntry)
      (rules : list rule) (files : list string)
      (latencyMap : list (string * Q)) (a : award) :
  In a (commitAwards w fileAuthors) ->
  drawsFrom minimatch CommitHistory fileAuthors rules files latencyMap
    (awardLogin a).
Proof.
  intros H. apply In_commitAwards in H.
  destruct H as (fa & i & Hfa & Hin & _).
  exists fa. split; [exact Hfa | ].
  rewrite <- (combine_seq_firstn (authors fa) 0 10).
  apply in_map_iff. exists (i, awardLogin a). auto.
Qed.

Lemma codeownersAwards_draws (minimatch : string -> string -> bool)
      (w : weightsT) (fileAuthors : list fileAuthorsEntry)
      (rules : list rule) (files : list string)
      (latencyMap : list (string * Q)) (a : award) :
  In a (codeownersAwards minimatch w rules files) ->
  drawsFrom minimatch Codeowners fileAuthors rules files latencyMap
    (awardLogin a).
Proof.
  unfold codeownersAwards. intros H.
  destruct (Qlt_bool 0 (codeowners w) && negb (isNil rules)); [ | destruct H].
  apply in_map_iff in H. destruct H as (o & <- & Ho).
  apply ownerHits_In in Ho. exact Ho.
Qed.

Lemma latencyAwards_draws (minimatch : string -> string -> bool)
      (numberToString : Q -> string)
      (w : weightsT) (fileAuthors : list fileAuthorsEntry)
      (rules : list rule) (files : list string)
      (latencyMap : list (string * Q)) (a : award) :
  In a (latencyAwards numberToString w latencyMap) ->
  drawsFrom minimatch Latency fileAuthors rules files latencyMap
    (awardLogin a).
Proof.
  intros H. apply In_latencyAwards in H.
  destruct H as (m & Hin & Hw & Hb & _).
  exists m. split; [exact Hin | ].
  apply positive_bonus with (w := latency w); assumption.
Qed.

Lemma awards_drawsFrom (minimatch : string -> string -> bool)
      (numberToString : Q -> string) (w : weightsT)
      (fileAuthors : list fileAuthorsEntry) (rules : list rule)
      (files : list string) (latencyMap : list (string * Q)) (a : award) :
  In a (allAwards minimatch numberToString w fileAuthors rules files
          latencyMap) ->
  exists s,
    drawsFrom minimatch s fileAuthors rules files latencyMap (awardLogin a).
Proof.
  unfold allAwards. rewrite !in_app_iff. intros [H | [H | H]].
  - exists CommitHistory. eapply commitAwards_draws. exact H.
  - exists Codeowners. eapply codeownersAwards_draws. exact H.
  - exists Latency. eapply latencyAwards_draws. exact H.
Qed.

(* ================================================================= *)
(** ** The stable sort *)

Section StableSortFacts.
Context {A : Type} (before : A -> A -> bool).

Lemma In_insertSorted (x y : A) (l : list A) :
  In y (insertSorted before x l) <-> y = x \/ In y l.
Proof.
  induction l as [ | z l IH]; simpl.
  - intuition.
  - destruct (before z x); simpl; [rewrite IH | ]; intuition.
Qed.

Lemma In_sortBy (y : A) (l : list A) : In y (sortBy before l) <-> In y l.
Proof.
  induction l as [ | x l IH]; simpl; [tauto | ].
  rewrite In_insertSorted, IH. intuition.
Qed.
End StableSortFacts.

(* ================================================================= *)
(** ** Who can be ranked *)

Lemma keys_add (prAuthor l : string) (p : Q) (r : string) (st : rankState)
      (k : string) :
  In k (map fst (scores (add prAuthor l p r st))) ->
  In k (map fst (scores st)) \/ (k = l /\ eligible prAuthor l = true).
Proof.
  destruct (eligible prAuthor l) eqn:E.
  - rewrite scores_add by exact E. rewrite keys_mapSet. intuition.
  - rewrite add_ineligible by exact E. auto.
Qed.

Lemma keys_applyAwards (prAuthor : string) (aws : list award) :
  forall st k,
    In k (map fst (scores (applyAwards prAuthor aws st))) ->
    In k (map fst (scores st))
    \/ (eligible prAuthor k = true /\ exists a, In a aws /\ awardLogin a = k).
Proof.
  induction aws as [ | [[l p] r] aws IH]; intros st k; simpl; [auto | ].
  intros H. apply IH in H. destruct H as [H | (He & a & Ha & Hk)].
  - apply keys_add in H. destruct H as [H | [-> He]]; [left; exact H | ].
    right. split; [exact He | ]. exists (l, p, r). auto.
  - right. split; [exact He | ]. exists a. auto.
Qed.

Lemma In_rankCandidates (minimatch : string -> string -> bool)
      (numberToString : Q -> string) (prAuthor : string) (w : weightsT)
      (fileAuthors : list fileAuthorsEntry) (rules : list rule)
      (files : list string) (latencyMap : list (string * Q)) (c : candidate) :
  let st := signalsState minimatch numberToString prAuthor w fileAuthors
              rules files latencyMap in
  In c (rankCandidates minimatch numberToString prAuthor w fileAuthors rules
          files latencyMap)
  <-> exists e, In e (scores st) /\ c = toCandidate st e.
Proof.
  rewrite rankCandidates_state. cbv zeta. rewrite in_map_iff.
  split; intros (e & H1 & H2).
  - exists e. split; [apply In_sortBy in H2; exact H2 | symmetry; exact H1].
  - exists e. split; [symmetry; exact H2 | apply In_sortBy; exact H1].
Qed.

Lemma eligible_true (prAuthor l : string) :
  eligible prAuthor l = true <-> isBotLogin l = false /\ l <> prAuthor.
Proof.
  unfold eligible. rewrite andb_true_iff, !negb_true_iff, orb_false_iff.
  rewrite String.eqb_neq. split; [tauto | intros (H1 & H2)].
  repeat split; try assumption.
  destruct l; [discriminate H1 | reflexivity].
Qed.

Lemma eligible_false (prAuthor l : string) :
  eligible prAuthor l = false <-> isBotLogin l = true \/ l = prAuthor.
Proof.
  destruct (eligible prAuthor l) eqn:E.
  - apply eligible_true in E. destruct E as (E1 & E2).
    split; [discriminate | intros [H | H]; congruence].
  - split; [intros _ | reflexivity].
    destruct (isBotLogin l) eqn:Eb; [left; reflexivity | right].
    destruct (String.eqb l prAuthor) eqn:Ea;
      [apply String.eqb_eq; exact Ea | ].
    exfalso. apply String.eqb_neq in Ea.
    assert (eligible prAuthor l = true) by (apply eligible_true; auto).
    congruence.
Qed.

(** C2: whatever the signals and the weights, no candidate of the ranking
    is the author of the pull request or a bot-like login. *)
Theorem rankCandidates_excludes_author_and_bots :
  forall (minimatch : string -> string -> bool)
         (numberToString : Q -> string) (prAuthor : string)
         (weights : weightsT) (fileAuthors : list fileAuthorsEntry)
         (codeownersRules : list rule) (changedFiles : list string)
         (latencyMap : list (string * Q)) (c : candidate),
    In c (rankCandidates minimatch numberToString prAuthor weights
            fileAuthors codeownersRules changedFiles latencyMap) ->
    login c <> prAuthor /\ isBotLogin (login c) = false.
Proof.
  intros mm ns pa w fas rules files lm c Hc.
  apply In_rankCandidates in Hc. destruct Hc as ([l sc] & He & ->).
  simpl. rewrite signalsState_awards in He.
  apply (in_map fst) in He. simpl in He.
  apply keys_applyAwards in He. destruct He as [[] | (He & _)].
  apply eligible_true in He. tauto.
Qed.

Lemma rankCandidates_excludes_author_and_bots_witness :
  In (Candidate "zed" 7 ["recent commits"; "fast reviewer (~3h median)"])
     (rankCandidates Minimatch.minimatch showInteger "carol" (Weights 1 4 1)
        sampleAuthors sampleRules sampleFiles sampleLatency)
  /\ "zed" <> "carol" /\ isBotLogin "zed" = false.
Proof.
  assert (H : In (Candidate "zed" 7
                    ["recent commits"; "fast reviewer (~3h median)"])
                 (rankCandidates Minimatch.minimatch showInteger "carol"
                    (Weights 1 4 1) sampleAuthors sampleRules sampleFiles
                    sampleLatency)).
  { vm_compute. right; left. reflexivity. }
  split; [exact H | ].
  exact (rankCandidates_excludes_author_and_bots _ _ _ _ _ _ _ _ _ H).
Defined.

(* ================================================================= *)
(** ** No candidate survives *)

Lemma applyAwards_ineligible (prAuthor : string) (aws : list award) :
  forall st,
    (forall a, In a aws -> eligible prAuthor (awardLogin a) = false) ->
    applyAwards prAuthor aws st = st.
Proof.
  induction aws as [ | [[l p] r] aws IH]; intros st H; simpl; [reflexivity | ].
  rewrite add_ineligible by (apply (H (l, p, r)); left; reflexivity).
  apply IH. intros a Ha. apply H. right. exact Ha.
Qed.

Lemma append_assoc (a b c : string) :
  ((a ++ b) ++ c = a ++ (b ++ c))%string.
Proof. induction a as [ | x a IH]; simpl; [reflexivity | rewrite IH; reflexivity]. Qed.

Lemma containsText_app_r (a b p : string) :
  containsText b p -> containsText (a ++ b) p.
Proof.
  intros (q & r & ->). exists (a ++ q)%string, r.
  rewrite append_assoc. reflexivity.
Qed.

Lemma formatComment_empty (numberToString : Q -> string)
      (lookbackDays maxFiles fileCount : Q) (confidence : string) :
  containsText
    (formatComment numberToString [] lookbackDays maxFiles fileCount
       confidence)
    "No strong candidates".
Proof.
  unfold formatComment. cbn [isNil].
  apply containsText_app_r. apply containsText_app_r.
  exists EmptyString. eexists. unfold noCandidates. simpl. reflexivity.
Qed.

(** C9: when every login that one of the three signals names is the author
    of the pull request or bot-like, the ranking is empty, and the comment
    for an empty list of suggestions contains the text
    "No strong candidates". *)
Theorem no_candidate_survives :
  forall (minimatch : string -> string -> bool)
         (numberToString : Q -> string) (prAuthor : string)
         (weights : weightsT) (fileAuthors : list fileAuthorsEntry)
         (codeownersRules : list rule) (changedFiles : list string)
         (latencyMap : list (string * Q)),
    (forall s l,
        drawsFrom minimatch s fileAuthors codeownersRules changedFiles
          latencyMap l ->
        isBotLogin l = true \/ l = prAuthor) ->
    rankCandidates minimatch numberToString prAuthor weights fileAuthors
      codeownersRules changedFiles latencyMap = []
    /\ forall (lookbackDays maxFiles fileCount : Q) (confidence : string),
        containsText
          (formatComment numberToString
             (rankCandidates minimatch numberToString prAuthor weights
                fileAuthors codeownersRules changedFiles latencyMap)
             lookbackDays maxFiles fileCount confidence)
          "No strong candidates".
Proof.
  intros mm ns pa w fas rules files lm H.
  assert (E : rankCandidates mm ns pa w fas rules files lm = []).
  { rewrite rankCandidates_state. cbv zeta.
    rewrite signalsState_awards, applyAwards_ineligible; [reflexivity | ].
    intros a Ha. apply eligible_false.
    apply awards_drawsFrom in Ha.
    destruct Ha as (s & Ha). eapply H. exact Ha. }
  split; [exact E | ].
  intros d mf fc conf. rewrite E. apply formatComment_empty.
Qed.

Lemma no_candidate_survives_witness :
  rankCandidates Minimatch.minimatch showInteger "carol" (Weights 1 4 1)
    onlyAuthorAndBots onlyAuthorRules ["a.txt"] onlyBotLatency = [].
Proof.
  apply (no_candidate_survives Minimatch.minimatch showInteger "carol"
           (Weights 1 4 1) onlyAuthorAndBots onlyAuthorRules ["a.txt"]
           onlyBotLatency).
  intros s l. destruct s; simpl.
  - intros (fa & [<- | []] & Hl). simpl in Hl.
    destruct Hl as [<- | [<- | []]]; [right | left]; reflexivity.
  - intros (f & [<- | []] & Hl). vm_compute in Hl.
    destruct Hl as [<- | []]. right; reflexivity.
  - intros (m & [[= <- <-] | []] & _). left; reflexivity.
Defined.

(* ================================================================= *)
(** ** Invariants of the replay *)

Lemma applyAwards_invariant (prAuthor : string) (Inv : rankState -> Prop)
      (Ok : award -> Prop) :
  (forall l p r st, Ok (l, p, r) -> Inv st -> Inv (add prAuthor l p r st)) ->
  forall aws st,
    Forall Ok aws -> Inv st -> Inv (applyAwards prAuthor aws st).
Proof.
  intros Hstep aws.
  induction aws as [ | [[l p] r] aws IH]; intros st Hok Hinv; simpl;
    [exact Hinv | ].
  inversion Hok as [ | ? ? H1 H2]; subst.
  apply IH; [exact H2 | ]. apply Hstep; assumption.
Qed.

Lemma reasonSets_add (prAuthor l : string) (p : Q) (r : string)
      (st : rankState) (k : string) :
  eligible prAuthor l = true -> Js.isEmpty r = false ->
  mapGet k (reasonSets (add prAuthor l p r st))
  = if String.eqb k l then
      Some (setAdd r (match mapGet l (reasonSets st) with
                      | Some set => set
                      | None => []
                      end))
    else mapGet k (reasonSets st).
Proof.
  unfold eligible, add. intros He Hr.
  destruct (Js.isEmpty l || isBotLogin l); [discriminate | ].
  destruct (String.eqb l prAuthor); [discriminate | ].
  cbn [reasonSets]. rewrite Hr. unfold mapHas.
  destruct (mapGet l (reasonSets st)) as [set | ] eqn:E.
  - rewrite E, mapGet_mapSet. reflexivity.
  - rewrite mapGet_mapSet_same, !mapGet_mapSet.
    destruct (String.eqb k l); reflexivity.
Qed.

Lemma scores_get_add (prAuthor l : string) (p : Q) (r : string)
      (st : rankState) (k : string) :
  eligible prAuthor l = true ->
  mapGet k (scores (add prAuthor l p r st))
  = if String.eqb k l then Some (orZero (mapGet l (scores st)) + p)
    else mapGet k (scores st).
Proof. intros He. rewrite scores_add by exact He. apply mapGet_mapSet. Qed.

Lemma present_add (prAuthor l : string) (p : Q) (r : string)
      (st : rankState) (k : string) :
  mapGet k (scores st) <> None ->
  mapGet k (scores (add prAuthor l p r st)) <> None.
Proof.
  intros H. destruct (eligible prAuthor l) eqn:E.
  - rewrite scores_get_add by exact E.
    destruct (String.eqb k l); [discriminate | exact H].
  - rewrite add_ineligible by exact E. exact H.
Qed.

Lemma present_applyAwards (prAuthor : string) (aws : list award) (k : string) :
  forall st,
    mapGet k (scores st) <> None ->
    mapGet k (scores (applyAwards prAuthor aws st)) <> None.
Proof.
  induction aws as [ | [[l p] r] aws IH]; intros st H; simpl; [exact H | ].
  apply IH. apply present_add. exact H.
Qed.

Lemma awarded_present (prAuthor : string) (aws : list award) (a : award) :
  forall st,
    In a aws -> eligible prAuthor (awardLogin a) = true ->
    mapGet (awardLogin a) (scores (applyAwards prAuthor aws st)) <> None.
Proof.
  induction aws as [ | [[l p] r] aws IH]; intros st Hin He; [destruct Hin | ].
  simpl. destruct Hin as [<- | Hin].
  - apply present_applyAwards. simpl in *.
    rewrite scores_get_add by exact He.
    rewrite String.eqb_refl. discriminate.
  - apply IH; assumption.
Qed.

Lemma NoDup_scores_applyAwards (prAuthor : string) (aws : list award)
      (st : rankState) :
  NoDup (map fst (scores st)) ->
  NoDup (map fst (scores (applyAwards prAuthor aws st))).
Proof.
  intros Hst.
  apply (applyAwards_invariant prAuthor
           (fun st => NoDup (map fst (scores st))) (fun _ => True));
    [ | | exact Hst].
  - intros l p r st' _ H. destruct (eligible prAuthor l) eqn:E.
    + rewrite scores_add by exact E. apply NoDup_keys_mapSet. exact H.
    + rewrite add_ineligible by exact E. exact H.
  - apply Forall_forall. intros; exact I.
Qed.

(* ================================================================= *)
(** ** Contributors under zero weights *)

Lemma zeroCommitState_add (prAuthor l : string) (p : Q) (st : rankState) :
  p == 0 -> zeroCommitState st ->
  zeroCommitState (add prAuthor l p "recent commits" st).
Proof.
  intros Hp (H1 & H2 & H3).
  destruct (eligible prAuthor l) eqn:E;
    [ | rewrite add_ineligible by exact E; repeat split; assumption].
  repeat split.
  - intros k v. rewrite scores_get_add by exact E.
    destruct (String.eqb k l); [ | apply H1].
    intros [= <-]. rewrite Hp.
    destruct (mapGet l (scores st)) as [v0 | ] eqn:Ev.
    + rewrite orZero_Some, (H1 l v0 Ev). reflexivity.
    + reflexivity.
  - intros k set. rewrite reasonSets_add by (exact E || reflexivity).
    destruct (String.eqb k l); [ | apply H2].
    intros [= <-].
    destruct (mapGet l (reasonSets st)) as [s0 | ] eqn:Es.
    + rewrite (H2 l s0 Es). reflexivity.
    + reflexivity.
  - intros k. rewrite scores_get_add by exact E.
    rewrite reasonSets_add by (exact E || reflexivity).
    destruct (String.eqb k l); [discriminate | apply H3].
Qed.

Lemma allAwards_zero_weights (minimatch : string -> string -> bool)
      (numberToString : Q -> string) (fileAuthors : list fileAuthorsEntry)
      (rules : list rule) (files : list string)
      (latencyMap : list (string * Q)) :
  allAwards minimatch numberToString (Weights 0 0 0) fileAuthors rules files
    latencyMap
  = commitAwards (Weights 0 0 0) fileAuthors.
Proof.
  unfold allAwards, codeownersAwards, latencyAwards. simpl.
  rewrite app_nil_r. reflexivity.
Qed.

(** C10: the contributor-history signal has no guard on its weight.  With
    the weights 0, 0, 0 every login among the first ten contributors of a
    file that is neither the author nor bot-like is in the ranking, with
    score 0 and the single reason "recent commits". *)
Theorem zero_weights_keep_contributors :
  forall (minimatch : string -> string -> bool)
         (numberToString : Q -> string) (prAuthor : string)
         (fileAuthors : list fileAuthorsEntry)
         (codeownersRules : list rule) (changedFiles : list string)
         (latencyMap : list (string * Q))
         (fa : fileAuthorsEntry) (l : string),
    In fa fileAuthors ->
    In l (firstn 10 (authors fa)) ->
    l <> prAuthor ->
    isBotLogin l = false ->
    exists c,
      In c (rankCandidates minimatch numberToString prAuthor (Weights 0 0 0)
              fileAuthors codeownersRules changedFiles latencyMap)
      /\ login c = l /\ score c == 0 /\ reasons c = ["recent commits"].
Proof.
  intros mm ns pa fas rules files lm fa l Hfa Hl Hpa Hbot.
  assert (He : eligible pa l = true) by (apply eligible_true; auto).
  set (st := signalsState mm ns pa (Weights 0 0 0) fas rules files lm).
  assert (Est : st = applyAwards pa (commitAwards (Weights 0 0 0) fas)
                       (RankState [] [])).
  { unfold st. rewrite signalsState_awards, allAwards_zero_weights.
    reflexivity. }
  assert (Hinv : zeroCommitState st).
  { rewrite Est.
    apply applyAwards_invariant
      with (Ok := fun a => exists x q, a = (x, q, "recent commits") /\ q == 0).
    - intros x q r st' (x' & q' & [= -> -> ->] & Hq) Hst.
      apply zeroCommitState_add; assumption.
    - apply Forall_forall. intros a Ha. apply In_commitAwards in Ha.
      destruct Ha as (fa' & i & _ & _ & ->).
      eexists _, _. split; [reflexivity | ]. simpl. ring.
    - repeat split; simpl; intros; try discriminate; congruence. }
  assert (Hpres : mapGet l (scores st) <> None).
  { rewrite Est.
    rewrite <- (combine_seq_firstn (authors fa) 0 10) in Hl.
    apply in_map_iff in Hl. destruct Hl as ([i x] & Hx & Hin).
    simpl in Hx. subst x.
    apply (awarded_present pa _
             (l, positionWeight i * commitHistory (Weights 0 0 0),
              "recent commits")); [ | exact He].
    apply In_commitAwards. exists fa, i. simpl. auto. }
  destruct (mapGet l (scores st)) as [v | ] eqn:Ev; [ | congruence].
  destruct Hinv as (H1 & H2 & H3).
  exists (toCandidate st (l, v)). split; [ | split; [ | split]].
  - apply In_rankCandidates. exists (l, v). fold st.
    split; [apply mapGet_In; exact Ev | reflexivity].
  - reflexivity.
  - simpl. apply (H1 l v Ev).
  - simpl. destruct (mapGet l (reasonSets st)) as [set | ] eqn:Es.
    + apply (H2 l set Es).
    + exfalso. apply (H3 l); congruence.
Qed.

Lemma zero_weights_keep_contributors_witness :
  exists c,
    In c (rankCandidates Minimatch.minimatch showInteger "carol"
            (Weights 0 0 0) sampleAuthors sampleRules sampleFiles
            sampleLatency)
    /\ login c = "zed" /\ score c == 0 /\ reasons c = ["recent commits"].
Proof.
  apply (zero_weights_keep_contributors Minimatch.minimatch showInteger
           "carol" sampleAuthors sampleRules sampleFiles sampleLatency
           (FileAuthors "src/app.js"
              ["bob"; "alice"; "carol"; "zed"; "dependabot[bot]"; "bob"])
           "zed").
  - left. reflexivity.
  - simpl. auto.
  - discriminate.
  - reflexivity.
Defined.

(* ================================================================= *)
(** ** Scores grow with the weights *)

Lemma orZero_le (a b : option Q) :
  match a, b with
  | Some v, Some v' => v <= v'
  | None, Some v' => 0 <= v'
  | Some _, None => False
  | None, None => True
  end ->
  orZero a <= orZero b.
Proof.
  destruct a as [v | ], b as [v' | ]; intros H;
    rewrite ?orZero_Some; simpl; try lra; tauto.
Qed.

Lemma scoresLe_add_both (prAuthor l : string) (p p' : Q) (r r' : string)
      (st st' : rankState) :
  p <= p' -> scoresLe st st' ->
  scoresLe (add prAuthor l p r st) (add prAuthor l p' r' st').
Proof.
  intros Hp H k.
  destruct (eligible prAuthor l) eqn:E;
    [ | rewrite !add_ineligible by exact E; apply H].
  rewrite !scores_get_add by exact E.
  destruct (String.eqb k l); [ | apply H].
  pose proof (orZero_le _ _ (H l)). lra.
Qed.

Lemma scoresLe_add_right (prAuthor l : string) (p' : Q) (r' : string)
      (st st' : rankState) :
  0 <= p' -> scoresLe st st' -> scoresLe st (add prAuthor l p' r' st').
Proof.
  intros Hp H k.
  destruct (eligible prAuthor l) eqn:E;
    [ | rewrite !add_ineligible by exact E; apply H].
  rewrite scores_get_add by exact E.
  destruct (String.eqb k l) eqn:Ek; [ | apply H].
  apply String.eqb_eq in Ek. subst k.
  pose proof (H l) as Hl.
  destruct (mapGet l (scores st)) as [v | ],
    (mapGet l (scores st')) as [v' | ];
    rewrite ?orZero_Some; simpl; try lra; tauto.
Qed.

Lemma scoresLe_applyAwards (prAuthor : string) (aws aws' : list award) :
  awardsLe aws aws' ->
  forall st st',
    scoresLe st st' ->
    scoresLe (applyAwards prAuthor aws st) (applyAwards prAuthor aws' st').
Proof.
  induction 1 as [ | l p p' r aws aws' Hp _ IH | l p' r aws aws' Hp _ IH];
    intros st st' H.
  - exact H.
  - rewrite !applyAwards_cons. apply IH. apply scoresLe_add_both; assumption.
  - rewrite applyAwards_cons. apply IH. apply scoresLe_add_right; assumption.
Qed.

Lemma awardsLe_app (a a' b b' : list award) :
  awardsLe a a' -> awardsLe b b' -> awardsLe (a ++ b) (a' ++ b').
Proof.
  induction 1; intros Hb; simpl; [exact Hb | | ]; constructor; auto.
Qed.

Lemma awardsLe_refl (a : list award) : awardsLe a a.
Proof.
  induction a as [ | [[l p] r] a IH]; constructor; [lra | exact IH].
Qed.

Lemma awardsLe_nil_l (a : list award) :
  (forall x, In x a -> 0 <= snd (fst x)) -> awardsLe [] a.
Proof.
  induction a as [ | [[l p] r] a IH]; intros H; constructor.
  - apply (H (l, p, r)). left. reflexivity.
  - apply IH. intros x Hx. apply H. right. exact Hx.
Qed.

Lemma positionWeight_pos (i : nat) : 0 < positionWeight i.
Proof.
  unfold positionWeight.
  apply Qlt_le_trans with (y := 1); [lra | apply Q.le_max_l].
Qed.

Lemma commitAwards_le (w : weightsT) (x : Q)
      (fileAuthors : list fileAuthorsEntry) :
  commitHistory w <= x ->
  awardsLe (commitAwards w fileAuthors)
           (commitAwards (withWeight CommitHistory x w) fileAuthors).
Proof.
  intros Hx. unfold commitAwards.
  induction fileAuthors as [ | fa fas IH]; simpl; [constructor | ].
  apply awardsLe_app; [ | exact IH].
  generalize (combine (seq 0 (Nat.min (List.length (authors fa)) 10))
                      (authors fa)).
  intros l. induction l as [ | [i a] l IHl]; simpl; constructor;
    [ | exact IHl].
  pose proof (positionWeight_pos i). nra.
Qed.

Lemma codeownersAwards_le (minimatch : string -> string -> bool)
      (w : weightsT) (x : Q) (rules : list rule) (files : list string) :
  codeowners w <= x ->
  awardsLe (codeownersAwards minimatch w rules files)
           (codeownersAwards minimatch (withWeight Codeowners x w) rules
              files).
Proof.
  intros Hx. unfold codeownersAwards. simpl.
  destruct (Qlt_bool 0 (codeowners w)) eqn:Ew;
    destruct (Qlt_bool 0 x) eqn:Ex; simpl;
    try apply Qlt_bool_true in Ew; try apply Qlt_bool_false in Ew;
    try apply Qlt_bool_true in Ex; try apply Qlt_bool_false in Ex;
    destruct (isNil rules); simpl; try constructor; try (exfalso; lra).
  - induction (ownerHits minimatch rules files []) as [ | o hs IH]; simpl;
      constructor; assumption.
  - apply awardsLe_nil_l. intros a Ha. apply in_map_iff in Ha.
    destruct Ha as (o & <- & _). simpl. lra.
Qed.

Lemma latencyAwards_le (numberToString : Q -> string) (w : weightsT) (x : Q)
      (latencyMap : list (string * Q)) :
  latency w <= x ->
  awardsLe (latencyAwards numberToString w latencyMap)
           (latencyAwards numberToString (withWeight Latency x w) latencyMap).
Proof.
  intros Hx.
  destruct (Qlt_bool 0 (latency w) && negb (isNil latencyMap)) eqn:G.
  - unfold latencyAwards. rewrite G. simpl.
    apply andb_true_iff in G. destruct G as (Gw & Gn).
    apply Qlt_bool_true in Gw.
    assert (Gx : Qlt_bool 0 x = true) by (apply Qlt_bool_true; lra).
    rewrite Gx, Gn. simpl. clear Gn.
    induction latencyMap as [ | [l m] lm IH]; simpl; [constructor | ].
    apply awardsLe_app; [ | exact IH].
    unfold latencyAward. cbn [fst snd latency withWeight].
    pose proof (latencyBonusHours_nonneg (Some m)) as Hb.
    destruct (Qlt_bool 0 (latencyBonusHours (Some m) * latency w)) eqn:E1;
      destruct (Qlt_bool 0 (latencyBonusHours (Some m) * x)) eqn:E2;
      try apply Qlt_bool_true in E1; try apply Qlt_bool_false in E1;
      try apply Qlt_bool_true in E2; try apply Qlt_bool_false in E2.
    + constructor; [nra | constructor].
    + exfalso. nra.
    + constructor; [lra | constructor].
    + constructor.
  - unfold latencyAwards at 1. rewrite G.
    apply awardsLe_nil_l. intros a Ha.
    apply In_latencyAwards in Ha. destruct Ha as (m & _ & _ & Hb & ->).
    simpl in *. lra.
Qed.

Lemma allAwards_le (minimatch : string -> string -> bool)
      (numberToString : Q -> string) (w : weightsT) (s : signal) (x : Q)
      (fileAuthors : list fileAuthorsEntry) (rules : list rule)
      (files : list string) (latencyMap : list (string * Q)) :
  weightOf s w <= x ->
  awardsLe
    (allAwards minimatch numberToString w fileAuthors rules files latencyMap)
    (allAwards minimatch numberToString (withWeight s x w) fileAuthors rules
       files latencyMap).
Proof.
  intros Hx. unfold allAwards.
  destruct s; simpl in Hx;
    repeat apply awardsLe_app;
    try apply awardsLe_refl.
  - apply commitAwards_le. exact Hx.
  - apply codeownersAwards_le. exact Hx.
  - apply latencyAwards_le. exact Hx.
Qed.

(* ================================================================= *)
(** ** The stable sort and filtering *)

Section StableSortFilter.
Context {A : Type} (before : A -> A -> bool).
Hypothesis before_asym :
  forall a b, before a b = true -> before b a = false.
Hypothesis before_trans :
  forall a b c, before b a = false -> before c b = false ->
                before c a = false.

Lemma insertSorted_sorted (x : A) (l : list A) :
  sortedBy before l -> sortedBy before (insertSorted before x l).
Proof.
  unfold sortedBy.
  induction l as [ | y l IH]; intros Hs; simpl.
  - constructor; constructor.
  - inversion Hs as [ | ? ? Hl Hy]; subst.
    destruct (before y x) eqn:E.
    + constructor; [apply IH; exact Hl | ].
      apply Forall_forall. intros z Hz.
      apply In_insertSorted in Hz. destruct Hz as [-> | Hz].
      * apply before_asym. exact E.
      * rewrite Forall_forall in Hy. apply Hy. exact Hz.
    + constructor; [exact Hs | ].
      constructor; [exact E | ].
      rewrite Forall_forall in Hy |- *. intros z Hz.
      apply before_trans with (b := y); [exact E | apply Hy; exact Hz].
Qed.

Lemma sortBy_sorted (l : list A) : sortedBy before (sortBy before l).
Proof.
  induction l as [ | x l IH]; simpl.
  - constructor.
  - apply insertSorted_sorted. exact IH.
Qed.

Lemma insertSorted_head (x : A) (l : list A) :
  Forall (fun z => before z x = false) l -> insertSorted before x l = x :: l.
Proof.
  destruct l as [ | y l]; intros H; simpl; [reflexivity | ].
  inversion H as [ | ? ? Hy _]; subst. rewrite Hy. reflexivity.
Qed.

Lemma filter_insertSorted_drop (keep : A -> bool) (x : A) (l : list A) :
  keep x = false ->
  filter keep (insertSorted before x l) = filter keep l.
Proof.
  intros Hx. induction l as [ | y l IH]; simpl.
  - rewrite Hx. reflexivity.
  - destruct (before y x); simpl.
    + rewrite IH. reflexivity.
    + rewrite Hx. reflexivity.
Qed.

Lemma filter_insertSorted_keep (keep : A -> bool) (x : A) (l : list A) :
  keep x = true -> sortedBy before l ->
  filter keep (insertSorted before x l)
  = insertSorted before x (filter keep l).
Proof.
  intros Hx. unfold sortedBy.
  induction l as [ | y l IH]; intros Hs; simpl.
  - rewrite Hx. reflexivity.
  - inversion Hs as [ | ? ? Hl Hy]; subst.
    destruct (before y x) eqn:E; simpl.
    + rewrite IH by exact Hl.
      destruct (keep y); simpl; [rewrite E | ]; reflexivity.
    + rewrite Hx. symmetry. apply insertSorted_head.
      apply Forall_forall. intros z Hz.
      assert (Hin : In z (y :: l)).
      { change (In z (filter keep (y :: l))) in Hz.
        apply filter_In in Hz. tauto. }
      destruct Hin as [<- | Hin]; [exact E | ].
      rewrite Forall_forall in Hy.
      apply before_trans with (b := y); [exact E | apply Hy; exact Hin].
Qed.

Lemma filter_sortBy (keep : A -> bool) (l : list A) :
  filter keep (sortBy before l) = sortBy before (filter keep l).
Proof.
  induction l as [ | x l IH]; simpl; [reflexivity | ].
  destruct (keep x) eqn:Hx; simpl.
  - rewrite filter_insertSorted_keep by (exact Hx || apply sortBy_sorted).
    rewrite IH. reflexivity.
  - rewrite filter_insertSorted_drop by exact Hx. exact IH.
Qed.
End StableSortFilter.

Lemma byScoreDesc_asym (a b : string * Q) :
  byScoreDesc a b = true -> byScoreDesc b a = false.
Proof.
  unfold byScoreDesc. rewrite Qlt_bool_true, Qlt_bool_false. lra.
Qed.

Lemma byScoreDesc_trans (a b c : string * Q) :
  byScoreDesc b a = false -> byScoreDesc c b = false ->
  byScoreDesc c a = false.
Proof.
  unfold byScoreDesc. rewrite !Qlt_bool_false. lra.
Qed.

(* ================================================================= *)
(** ** The part of a replay that concerns some logins *)

Section Restrict.
Variable keep : string -> bool.

Lemma mapGet_restrictMap {V : Type} (k : string) (m : list (string * V)) :
  keep k = true -> mapGet k (restrictMap keep m) = mapGet k m.
Proof.
  intros Hk. induction m as [ | [k' v] m IH]; simpl; [reflexivity | ].
  destruct (keep k') eqn:Ek'; simpl.
  - destruct (String.eqb k k'); [reflexivity | exact IH].
  - destruct (String.eqb k k') eqn:E; [ | exact IH].
    apply String.eqb_eq in E. congruence.
Qed.

Lemma restrictMap_mapSet_keep {V : Type} (k : string) (v : V)
      (m : list (string * V)) :
  keep k = true ->
  restrictMap keep (mapSet k v m) = mapSet k v (restrictMap keep m).
Proof.
  intros Hk. induction m as [ | [k' v'] m IH]; simpl.
  - rewrite Hk. reflexivity.
  - destruct (String.eqb k k') eqn:E; simpl.
    + apply String.eqb_eq in E. subst k'. rewrite Hk. simpl.
      rewrite String.eqb_refl. reflexivity.
    + destruct (keep k'); simpl; [rewrite E, IH; reflexivity | exact IH].
Qed.

Lemma restrictMap_mapSet_drop {V : Type} (k : string) (v : V)
      (m : list (string * V)) :
  keep k = false -> restrictMap keep (mapSet k v m) = restrictMap keep m.
Proof.
  intros Hk. induction m as [ | [k' v'] m IH]; simpl.
  - rewrite Hk. reflexivity.
  - destruct (String.eqb k k') eqn:E; simpl.
    + apply String.eqb_eq in E. subst k'. rewrite Hk. reflexivity.
    + destruct (keep k'); simpl; [rewrite IH; reflexivity | exact IH].
Qed.

Lemma restrict_add (prAuthor l : string) (p : Q) (r : string)
      (st : rankState) :
  restrict keep (add prAuthor l p r st)
  = if keep l then add prAuthor l p r (restrict keep st)
    else restrict keep st.
Proof.
  destruct (eligible prAuthor l) eqn:E;
    [ | rewrite !add_ineligible by exact E; destruct (keep l); reflexivity].
  unfold eligible in E. unfold add.
  destruct (Js.isEmpty l || isBotLogin l); [discriminate | ].
  destruct (String.eqb l prAuthor); [discriminate | ].
  unfold restrict. cbn [scores reasonSets]. unfold mapHas.
  destruct (keep l) eqn:Hk.
  - rewrite !mapGet_restrictMap by exact Hk.
    rewrite restrictMap_mapSet_keep by exact Hk. f_equal.
    destruct (mapGet l (reasonSets st)) as [set | ] eqn:Es.
    + destruct (Js.isEmpty r); [reflexivity | ].
      rewrite mapGet_restrictMap, Es by exact Hk.
      apply restrictMap_mapSet_keep. exact Hk.
    + rewrite <- restrictMap_mapSet_keep by exact Hk.
      destruct (Js.isEmpty r); [reflexivity | ].
      rewrite mapGet_restrictMap by exact Hk.
      rewrite mapGet_mapSet_same.
      apply restrictMap_mapSet_keep. exact Hk.
  - rewrite restrictMap_mapSet_drop by exact Hk. f_equal.
    destruct (mapGet l (reasonSets st)) as [set | ] eqn:Es.
    + destruct (Js.isEmpty r); [reflexivity | ].
      rewrite Es. apply restrictMap_mapSet_drop. exact Hk.
    + destruct (Js.isEmpty r);
        [apply restrictMap_mapSet_drop; exact Hk | ].
      rewrite mapGet_mapSet_same.
      rewrite !restrictMap_mapSet_drop by exact Hk. reflexivity.
Qed.

Lemma restrict_applyAwards (prAuthor : string) (aws : list award) :
  forall st,
    restrict keep (applyAwards prAuthor aws st)
    = applyAwards prAuthor (filter (fun a => keep (awardLogin a)) aws)
        (restrict keep st).
Proof.
  induction aws as [ | [[l p] r] aws IH]; intros st; [reflexivity | ].
  rewrite applyAwards_cons, IH, restrict_add.
  cbn [filter awardLogin fst].
  destruct (keep l); reflexivity.
Qed.

Lemma filter_awards_nil (aws : list award) :
  (forall a, In a aws -> keep (awardLogin a) = false) ->
  filter (fun a => keep (awardLogin a)) aws = [].
Proof.
  induction aws as [ | a aws IH]; intros H; simpl; [reflexivity | ].
  rewrite (H a (or_introl eq_refl)). apply IH.
  intros a' Ha'. apply H. right. exact Ha'.
Qed.

Lemma toCandidate_restrict (st : rankState) (e : string * Q) :
  keep (fst e) = true -> toCandidate (restrict keep st) e = toCandidate st e.
Proof.
  intros Hk. unfold toCandidate, restrict. cbn [reasonSets].
  rewrite mapGet_restrictMap by exact Hk. reflexivity.
Qed.
End Restrict.

(* ================================================================= *)
(** ** Monotonicity in the weights *)

Lemma filter_map_comm {A B : Type} (f : B -> bool) (g : A -> B)
      (l : list A) :
  filter f (map g l) = map g (filter (fun x => f (g x)) l).
Proof.
  induction l as [ | x l IH]; simpl; [reflexivity | ].
  destruct (f (g x)); simpl; rewrite IH; reflexivity.
Qed.

Lemma onlyLogins_rankCandidates (minimatch : string -> string -> bool)
      (numberToString : Q -> string) (prAuthor : string) (w : weightsT)
      (fileAuthors : list fileAuthorsEntry) (rules : list rule)
      (files : list string) (latencyMap : list (string * Q))
      (a b : string) :
  onlyLogins a b
    (rankCandidates minimatch numberToString prAuthor w fileAuthors rules
       files latencyMap)
  = let st :=
      restrict (fun l => String.eqb l a || String.eqb l b)
        (signalsState minimatch numberToString prAuthor w fileAuthors rules
           files latencyMap) in
    map (toCandidate st) (sortBy byScoreDesc (scores st)).
Proof.
  rewrite rankCandidates_state. cbv zeta. unfold onlyLogins.
  rewrite filter_map_comm.
  set (st := signalsState minimatch numberToString prAuthor w fileAuthors
               rules files latencyMap).
  set (keep := fun l => String.eqb l a || String.eqb l b).
  change (filter (fun x => String.eqb (login (toCandidate st x)) a
                           || String.eqb (login (toCandidate st x)) b)
                 (sortBy byScoreDesc (scores st)))
    with (filter (fun e => keep (fst e)) (sortBy byScoreDesc (scores st))).
  rewrite (filter_sortBy byScoreDesc byScoreDesc_asym byScoreDesc_trans).
  change (filter (fun e => keep (fst e)) (scores st))
    with (scores (restrict keep st)).
  apply map_ext_in. intros e He.
  symmetry. apply toCandidate_restrict.
  apply In_sortBy in He. unfold restrict, restrictMap in He.
  cbn [scores] in He. apply filter_In in He. tauto.
Qed.

Lemma restricted_awards_unchanged (minimatch : string -> string -> bool)
      (numberToString : Q -> string) (w : weightsT) (s : signal) (x : Q)
      (fileAuthors : list fileAuthorsEntry) (rules : list rule)
      (files : list string) (latencyMap : list (string * Q))
      (keep : string -> bool) :
  (forall l, drawsFrom minimatch s fileAuthors rules files latencyMap l ->
             keep l = false) ->
  filter (fun a => keep (awardLogin a))
    (allAwards minimatch numberToString (withWeight s x w) fileAuthors rules
       files latencyMap)
  = filter (fun a => keep (awardLogin a))
      (allAwards minimatch numberToString w fileAuthors rules files
         latencyMap).
Proof.
  intros H. unfold allAwards. rewrite !filter_app. destruct s.
  - rewrite (filter_awards_nil keep (commitAwards w fileAuthors)),
      (filter_awards_nil keep
         (commitAwards (withWeight CommitHistory x w) fileAuthors));
      [reflexivity | | ];
      intros a Ha; apply H; eapply commitAwards_draws; exact Ha.
  - rewrite (filter_awards_nil keep
               (codeownersAwards minimatch w rules files)),
      (filter_awards_nil keep
         (codeownersAwards minimatch (withWeight Codeowners x w) rules
            files));
      [reflexivity | | ];
      intros a Ha; apply H; eapply codeownersAwards_draws; exact Ha.
  - rewrite (filter_awards_nil keep
               (latencyAwards numberToString w latencyMap)),
      (filter_awards_nil keep
         (latencyAwards numberToString (withWeight Latency x w) latencyMap));
      [reflexivity | | ];
      intros a Ha; apply H; eapply latencyAwards_draws; exact Ha.
Qed.

Lemma restrict_signalsState_unchanged
      (minimatch : string -> string -> bool)
      (numberToString : Q -> string) (prAuthor : string) (w : weightsT)
      (s : signal) (x : Q)
      (fileAuthors : list fileAuthorsEntry) (rules : list rule)
      (files : list string) (latencyMap : list (string * Q))
      (keep : string -> bool) :
  (forall l, drawsFrom minimatch s fileAuthors rules files latencyMap l ->
             keep l = false) ->
  restrict keep
    (signalsState minimatch numberToString prAuthor (withWeight s x w)
       fileAuthors rules files latencyMap)
  = restrict keep
      (signalsState minimatch numberToString prAuthor w fileAuthors rules
         files latencyMap).
Proof.
  intros H. rewrite !signalsState_awards, !restrict_applyAwards.
  rewrite restricted_awards_unchanged by exact H. reflexivity.
Qed.

(** C7: raising one weight and keeping the two others never lowers the
    score of a candidate (every candidate stays in the ranking with a score
    at least as large, and a new candidate has a score that is not
    negative), and it leaves the relative order of two candidates alone
    when neither of them draws points from the signal of that weight. *)
Theorem scores_monotone_in_weights :
  forall (minimatch : string -> string -> bool)
         (numberToString : Q -> string) (prAuthor : string)
         (weights : weightsT) (s : signal) (x : Q)
         (fileAuthors : list fileAuthorsEntry)
         (codeownersRules : list rule) (changedFiles : list string)
         (latencyMap : list (string * Q)),
    weightOf s weights <= x ->
    let ranked :=
      rankCandidates minimatch numberToString prAuthor weights fileAuthors
        codeownersRules changedFiles latencyMap in
    let ranked' :=
      rankCandidates minimatch numberToString prAuthor
        (withWeight s x weights) fileAuthors codeownersRules changedFiles
        latencyMap in
    (forall c, In c ranked ->
               exists c', In c' ranked' /\ login c' = login c
                          /\ score c <= score c')
    /\ (forall c', In c' ranked' ->
                   (exists c, In c ranked /\ login c = login c'
                              /\ score c <= score c')
                   \/ ((forall c, In c ranked -> login c <> login c')
                       /\ 0 <= score c'))
    /\ (forall a b,
           ~ drawsFrom minimatch s fileAuthors codeownersRules changedFiles
               latencyMap a ->
           ~ drawsFrom minimatch s fileAuthors codeownersRules changedFiles
               latencyMap b ->
           onlyLogins a b ranked' = onlyLogins a b ranked
           /\ rankedBefore a b ranked' = rankedBefore a b ranked).
Proof.
  intros mm ns pa w s x fas rules files lm Hx ranked ranked'.
  set (st := signalsState mm ns pa w fas rules files lm).
  set (st' := signalsState mm ns pa (withWeight s x w) fas rules files lm).
  assert (Hle : scoresLe st st').
  { unfold st, st'. rewrite !signalsState_awards.
    apply scoresLe_applyAwards; [apply allAwards_le; exact Hx | ].
    intros k. exact I. }
  assert (Hnd : NoDup (map fst (scores st))).
  { unfold st. rewrite signalsState_awards.
    apply NoDup_scores_applyAwards. constructor. }
  assert (Hnd' : NoDup (map fst (scores st'))).
  { unfold st'. rewrite signalsState_awards.
    apply NoDup_scores_applyAwards. constructor. }
  split; [ | split].
  - intros c Hc. apply In_rankCandidates in Hc.
    destruct Hc as ([l v] & He & ->). fold st in He |- *.
    apply In_mapGet_NoDup in He; [ | exact Hnd].
    specialize (Hle l). rewrite He in Hle.
    destruct (mapGet l (scores st')) as [v' | ] eqn:Ev'; [ | destruct Hle].
    exists (toCandidate st' (l, v')). split; [ | split].
    + apply In_rankCandidates. exists (l, v').
      split; [apply mapGet_In; exact Ev' | reflexivity].
    + reflexivity.
    + exact Hle.
  - intros c' Hc'. apply In_rankCandidates in Hc'.
    destruct Hc' as ([l v'] & He' & ->). fold st' in He' |- *.
    apply In_mapGet_NoDup in He'; [ | exact Hnd'].
    specialize (Hle l). rewrite He' in Hle.
    destruct (mapGet l (scores st)) as [v | ] eqn:Ev.
    + left. exists (toCandidate st (l, v)). split; [ | split].
      * apply In_rankCandidates. exists (l, v).
        split; [apply mapGet_In; exact Ev | reflexivity].
      * reflexivity.
      * exact Hle.
    + right. split; [ | exact Hle].
      intros c Hc Hl. apply In_rankCandidates in Hc.
      destruct Hc as ([l0 v0] & He0 & ->). simpl in Hl. subst l0.
      fold st in He0. apply mapGet_None_keys in Ev. apply Ev.
      apply (in_map fst) in He0. exact He0.
  - intros a b Ha Hb.
    assert (E : onlyLogins a b ranked' = onlyLogins a b ranked).
    { unfold ranked, ranked'. rewrite !onlyLogins_rankCandidates.
      cbv zeta.
      rewrite (restrict_signalsState_unchanged mm ns pa w s x fas rules
                 files lm (fun l => String.eqb l a || String.eqb l b));
        [reflexivity | ].
      intros l Hl.
      apply orb_false_iff. split; apply String.eqb_neq; intros ->; tauto. }
    split; [exact E | ].
    unfold rankedBefore. rewrite E. reflexivity.
Qed.

Lemma scores_monotone_in_weights_witness :
  exists c',
    In c' (rankCandidates Minimatch.minimatch showInteger "carol"
             (withWeight Latency 2 (Weights 1 4 1)) sampleAuthors
             sampleRules sampleFiles sampleLatency)
    /\ login c' = "zed" /\ 7 <= score c'.
Proof.
  assert (Hx : weightOf Latency (Weights 1 4 1) <= 2) by (simpl; lra).
  destruct (scores_monotone_in_weights Minimatch.minimatch showInteger
              "carol" (Weights 1 4 1) Latency 2 sampleAuthors sampleRules
              sampleFiles sampleLatency Hx) as (H & _).
  apply (H (Candidate "zed" 7
              ["recent commits"; "fast reviewer (~3h median)"])).
  vm_compute. right; left. reflexivity.
Defined.

(* ================================================================= *)
(** ** Anchored and floating patterns *)

Lemma startsWith_empty (s : string) : Js.startsWith s "" = true.
Proof. destruct s; reflexivity. Qed.

Lemma splitRunsAux_noSlash (s : string) :
  Minimatch.noSlash s = true ->
  Js.splitRunsAux Minimatch.isSlash s = (s, []).
Proof.
  induction s as [ | c s IH]; simpl; [reflexivity | ].
  intros H. apply andb_true_iff in H. destruct H as (Hc & Hs).
  apply negb_true_iff in Hc. rewrite (IH Hs), Hc. reflexivity.
Qed.

Lemma splitRuns_dir (d f : string) :
  Minimatch.noSlash d = true ->
  Js.startsWith f "/" = false ->
  Js.splitRuns Minimatch.isSlash (d ++ "/" ++ f)
  = d :: Js.splitRuns Minimatch.isSlash f.
Proof.
  intros Hd Hf. unfold Js.splitRuns.
  assert (G : Js.splitRunsAux Minimatch.isSlash ("/" ++ f)
              = (EmptyString,
                 fst (Js.splitRunsAux Minimatch.isSlash f)
                 :: snd (Js.splitRunsAux Minimatch.isSlash f))).
  { simpl. destruct (Js.splitRunsAux Minimatch.isSlash f) as [p ps] eqn:E.
    destruct f as [ | c f']; [reflexivity | ].
    cbn [Js.startsWith] in Hf.
    rewrite startsWith_empty, andb_true_r in Hf.
    unfold Minimatch.isSlash. rewrite Ascii.eqb_sym, Hf. reflexivity. }
  induction d as [ | c d IH]; simpl in *.
  - rewrite G. destruct (Js.splitRunsAux Minimatch.isSlash f). reflexivity.
  - apply andb_true_iff in Hd. destruct Hd as (Hc & Hd).
    apply negb_true_iff in Hc. rewrite Hc.
    specialize (IH Hd).
    destruct (Js.splitRunsAux Minimatch.isSlash (d ++ String "/" f))
      as [p ps].
    destruct (Js.splitRunsAux Minimatch.isSlash f) as [p' ps'].
    injection IH as -> ->. reflexivity.
Qed.

Lemma splitRuns_nonempty (isSep : ascii -> bool) (s : string) :
  Js.splitRuns isSep s <> [].
Proof.
  unfold Js.splitRuns. destruct (Js.splitRunsAux isSep s). discriminate.
Qed.

Lemma matchOne_globstar_dir (rest : list Minimatch.part) (d : string)
      (file : list string) :
  rest <> [] ->
  Minimatch.isDots d = false ->
  Minimatch.matchOne (Minimatch.Globstar :: rest) file = true ->
  Minimatch.matchOne (Minimatch.Globstar :: rest) (d :: file) = true.
Proof.
  intros Hrest Hd.
  destruct rest as [ | q rest]; [congruence | ].
  destruct file as [ | f file]; [discriminate | ].
  cbn [Minimatch.matchOne]. intros H.
  rewrite Hd. cbn [negb andb].
  apply orb_true_iff. right. exact H.
Qed.

(** X24: a rule that does not begin with [/] and matches a path also
    matches the path below any directory, however deep: floating patterns
    match at any depth. *)
Lemma floating_pattern_any_depth (pat : string) (os : list string)
      (d f : string) :
  Minimatch.plainGlob pat = true ->
  Js.startsWith pat "/" = false ->
  Minimatch.noSlash d = true ->
  Minimatch.isDots d = false ->
  Js.startsWith f "/" = false ->
  ruleMatches Minimatch.minimatch (Rule pat os) f = true ->
  ruleMatches Minimatch.minimatch (Rule pat os) (d ++ "/" ++ f) = true.
Proof.
  intros _ Hpat Hd Hdots Hf.
  unfold ruleMatches, normalizeCodeownersPattern. cbn [pattern].
  rewrite Hpat. unfold Minimatch.minimatch.
  change (Js.startsWith ("**/" ++ pat) "#") with false.
  change (Js.isEmpty ("**/" ++ pat)) with false. cbv iota.
  change ("**/" ++ pat)%string with ("**" ++ "/" ++ pat)%string.
  rewrite (splitRuns_dir "**" pat eq_refl Hpat).
  rewrite (splitRuns_dir d f Hd Hf).
  cbn [map]. change (Minimatch.parse "**") with Minimatch.Globstar.
  pose proof (splitRuns_nonempty Minimatch.isSlash pat) as Hne.
  destruct (Js.splitRuns Minimatch.isSlash pat) as [ | q qs] eqn:E;
    [congruence | ].
  cbn [map List.length Nat.eqb].
  apply matchOne_globstar_dir; [discriminate | exact Hdots].
Qed.

Lemma floating_pattern_any_depth_witness :
  ruleMatches Minimatch.minimatch (Rule "*.md" ["bob"])
    ("docs" ++ "/" ++ "guide/README.md") = true.
Proof.
  apply floating_pattern_any_depth; reflexivity.
Defined.

(** Under [matchBase: true] a pattern without a slash is compared with the
    basename of the path alone, wherever the file lies. *)
Lemma slash_free_pattern_sees_basename (pat f : string) :
  Minimatch.noSlash pat = true ->
  Js.isEmpty pat = false ->
  Js.startsWith pat "#" = false ->
  Minimatch.minimatch f pat
  = Minimatch.matchOne [Minimatch.parse pat]
      [Minimatch.basename (Js.splitRuns Minimatch.isSlash f)].
Proof.
  intros Hs He Hc. unfold Minimatch.minimatch. rewrite Hc, He.
  unfold Js.splitRuns at 1 2.
  rewrite (splitRunsAux_noSlash pat Hs). reflexivity.
Qed.

Lemma slash_free_pattern_sees_basename_witness :
  Minimatch.minimatch "a/b/Makefile" "Makefile"
  = Minimatch.matchOne [Minimatch.parse "Makefile"]
      [Minimatch.basename (Js.splitRuns Minimatch.isSlash "a/b/Makefile")].
Proof.
  apply slash_free_pattern_sees_basename; reflexivity.
Defined.

(** Floating patterns reach dotfiles and directories that begin with a
    dot, and compare letters as they are; a pattern with [/] after its
    leading [/] stays anchored to the root. *)
Lemma pattern_examples :
  ruleMatches Minimatch.minimatch (Rule "*.yml" ["ops"]) ".travis.yml" = true
  /\ ruleMatches Minimatch.minimatch (Rule "*.yml" ["ops"])
       ".github/workflows/ci.yml" = true
  /\ ruleMatches Minimatch.minimatch (Rule "README.md" ["bob"]) "readme.md"
     = false
  /\ ruleMatches Minimatch.minimatch (Rule "/src/*.js" ["alice"]) "src/a.js"
     = true
  /\ ruleMatches Minimatch.minimatch (Rule "/src/*.js" ["alice"])
       "lib/src/a.js" = false.
Proof. repeat split; vm_compute; reflexivity. Qed.

Lemma computeConfidence_thresholds_witness :
  computeConfidence Minimatch.minimatch confRanked confFiles [] confAuthors
  = "High".
Proof.
  destruct (computeConfidence_thresholds Minimatch.minimatch confRanked
              confFiles [] confAuthors)
    as (_ & _ & _ & _ & _ & _ & H & _).
  apply H; vm_compute; reflexivity.
Defined.

(** The reviewer [al] of the sample answered after one and after two
    hours; the first answer counts, and the profile holds a median of one
    hour for [al]. *)
Lemma latency_profile_example :
  exists m,
    mapGet "al" (computeReviewerLatencyHours 0 samplePulls) = Some m
    /\ m == 1.
Proof. eexists. split; [vm_compute; reflexivity | reflexivity]. Qed.

(* ================================================================= *)
(** ** A valid sample gives an entry *)

Lemma median_nonempty (arr : list Q) :
  arr <> [] -> exists m, median arr = Some m.
Proof.
  intros H. unfold median.
  destruct arr as [ | a arr]; [congruence | ].
  cbn [List.length Nat.eqb].
  destruct (negb _); eexists; reflexivity.
Qed.

Lemma pushSamples_cons (c : Z) (e : string * Z) (firsts : list (string * Z))
      (per : list (string * list Q)) :
  pushSamples c (e :: firsts) per = pushSamples c firsts (pushSamples c [e] per).
Proof. reflexivity. Qed.

Lemma pushSamples_one (c : Z) (l' : string) (t : Z)
      (per : list (string * list Q)) (k : string) :
  ((exists arr, mapGet k per = Some arr /\ arr <> []) ->
   exists arr, mapGet k (pushSamples c [(l', t)] per) = Some arr /\ arr <> [])
  /\ (k = l' -> 0 <= latencyHours t c ->
      exists arr,
        mapGet k (pushSamples c [(l', t)] per) = Some arr /\ arr <> []).
Proof.
  unfold pushSamples. cbn [fold_left].
  destruct (Qlt_bool (latencyHours t c) 0) eqn:E.
  - apply Qlt_bool_true in E. split; [tauto | intros _ H; exfalso; lra].
  - unfold mapHas.
    destruct (mapGet l' per) as [a0 | ] eqn:E0.
    + rewrite E0. split.
      * intros (arr & Hk & Hne). rewrite mapGet_mapSet.
        destruct (String.eqb k l'); [ | eauto].
        eexists. split; [reflexivity | ]. destruct a0; discriminate.
      * intros -> _. rewrite mapGet_mapSet_same.
        eexists. split; [reflexivity | ]. destruct a0; discriminate.
    + rewrite mapGet_mapSet_same. split.
      * intros (arr & Hk & Hne). rewrite !mapGet_mapSet.
        destruct (String.eqb k l'); [ | eauto].
        eexists. split; [reflexivity | discriminate].
      * intros -> _. rewrite mapGet_mapSet_same.
        eexists. split; [reflexivity | discriminate].
Qed.

Lemma pushSamples_keeps (c : Z) (firsts : list (string * Z)) (k : string) :
  forall per,
    (exists arr, mapGet k per = Some arr /\ arr <> []) ->
    exists arr, mapGet k (pushSamples c firsts per) = Some arr /\ arr <> [].
Proof.
  induction firsts as [ | [l' t] firsts IH]; intros per H; [exact H | ].
  rewrite pushSamples_cons. apply IH.
  destruct (pushSamples_one c l' t per k) as (K & _). apply K. exact H.
Qed.

Lemma pushSamples_adds (c : Z) (firsts : list (string * Z)) (k : string)
      (t : Z) :
  forall per,
    In (k, t) firsts -> 0 <= latencyHours t c ->
    exists arr, mapGet k (pushSamples c firsts per) = Some arr /\ arr <> [].
Proof.
  induction firsts as [ | [l' t'] firsts IH]; intros per Hin Hh;
    [destruct Hin | ].
  rewrite pushSamples_cons. destruct Hin as [[= -> ->] | Hin].
  - apply pushSamples_keeps.
    destruct (pushSamples_one c k t per k) as (_ & K).
    apply K; [reflexivity | exact Hh].
  - apply IH; assumption.
Qed.

Lemma perReviewerSamples_has (since : Z) (pulls : list pull) (l : string) :
  hasValidSample since pulls l ->
  exists arr,
    mapGet l (perReviewerSamples since pulls) = Some arr /\ arr <> [].
Proof.
  unfold perReviewerSamples.
  assert (G : forall per,
             hasValidSample since pulls l
             \/ (exists arr, mapGet l per = Some arr /\ arr <> []) ->
             exists arr,
               mapGet l
                 (fold_left
                    (fun per pr =>
                       if negb (isSome (merged_at pr))
                          && negb (isSome (closed_at pr)) then per
                       else if (created_at pr <? since)%Z then per
                       else match reviews pr with
                            | None => per
                            | Some rs =>
                                pushSamples (created_at pr) (firstByUser rs)
                                  per
                            end) pulls per) = Some arr
               /\ arr <> []).
  { induction pulls as [ | pr pulls IH]; intros per H.
    - destruct H as [(pr & rs & t & [] & _) | H]. exact H.
    - cbn [fold_left]. apply IH.
      destruct H as [(pr' & rs & t & [<- | Hin] & Hc & Hs & Hrs & Ht & Hh)
                    | H].
      + right.
        assert (Hc' : negb (isSome (merged_at pr))
                      && negb (isSome (closed_at pr)) = false).
        { destruct (isSome (merged_at pr)), (isSome (closed_at pr));
            simpl in *; congruence. }
        rewrite Hc'.
        assert (Hs' : (created_at pr <? since)%Z = false)
          by (apply Z.ltb_ge; exact Hs).
        rewrite Hs', Hrs.
        apply pushSamples_adds with (t := t); assumption.
      + left. exists pr', rs, t. repeat split; assumption.
      + right.
        destruct (negb (isSome (merged_at pr))
                  && negb (isSome (closed_at pr))); [exact H | ].
        destruct (created_at pr <? since)%Z; [exact H | ].
        destruct (reviews pr); [ | exact H].
        apply pushSamples_keeps. exact H. }
  intros H. apply G. left. exact H.
Qed.

Lemma latencyProfile_has (per : list (string * list Q)) (l : string) :
  forall out,
    (exists arr, In (l, arr) per /\ arr <> []) \/ mapGet l out <> None ->
    mapGet l
      (fold_left
         (fun out '(login, arr) =>
            match median arr with
            | Some m => mapSet login m out
            | None => out
            end) per out) <> None.
Proof.
  induction per as [ | [l' arr'] per IH]; intros out H; cbn [fold_left].
  - destruct H as [(arr & [] & _) | H]. exact H.
  - apply IH. destruct H as [(arr & [[= -> ->] | Hin] & Hne) | H].
    + right. destruct (median_nonempty arr Hne) as (m & ->).
      rewrite mapGet_mapSet_same. discriminate.
    + left. exists arr. auto.
    + right. destruct (median arr'); [ | exact H].
      rewrite mapGet_mapSet. destruct (String.eqb l l'); [discriminate | exact H].
Qed.

(** X23: the converse of the last part of C8: a reviewer with a valid
    sample has an entry in the latency profile. *)
Lemma valid_sample_has_entry (since : Z) (pulls : list pull) (l : string) :
  hasValidSample since pulls l ->
  mapGet l (computeReviewerLatencyHours since pulls) <> None.
Proof.
  intros H. unfold computeReviewerLatencyHours.
  apply latencyProfile_has. left.
  destruct (perReviewerSamples_has since pulls l H) as (arr & Hget & Hne).
  exists arr. split; [apply mapGet_In; exact Hget | exact Hne].
Qed.

Lemma valid_sample_has_entry_witness :
  mapGet "al" (computeReviewerLatencyHours 0 samplePulls) <> None.
Proof.
  apply valid_sample_has_entry.
  exists (Pull (Some 5%Z) None 1000
            (Some [Review (Some "al") (Some 7201000%Z);
                   Review (Some "al") (Some 3601000%Z);
                   Review (Some "bo") (Some 0%Z)])),
    [Review (Some "al") (Some 7201000%Z);
     Review (Some "al") (Some 3601000%Z);
     Review (Some "bo") (Some 0%Z)], 3601000%Z.
  repeat split; try reflexivity.
  - left. reflexivity.
  - discriminate.
  - vm_compute. left. reflexivity.
  - vm_compute. discriminate.
Defined.

(* ================================================================= *)
(** ** The parser on sample texts *)

(** Comment lines, blank lines, inline comments, a leading [@], lines
    without an owner and rules whose owners are all bot-like. *)
Lemma parseCodeowners_examples :
  parseCodeowners None = []
  /\ parseCodeowners (Some "") = []
  /\ parseCodeowners
       (Some ("# owners" ++ nl ++ nl
              ++ "  docs/  @alice @dependabot[bot]  # the docs" ++ nl
              ++ "lonely" ++ nl
              ++ "*.js @robot" ++ nl
              ++ "/Makefile @bob" ++ String (ascii_of_nat 13) nl)%string)
     = [Rule "docs/" ["alice"]; Rule "/Makefile" ["bob"]].
Proof. repeat split; vm_compute; reflexivity. Qed.

(* ================================================================= *)
(** ** The matcher on the examples of its documentation *)

(** The example the package gives for [matchBase] ([a?b] matches
    [/xyz/123/acb] and not [/xyz/acb/123]), a globstar between two
    portions, a trailing globstar, and [*] under [dot: true]. *)
Lemma minimatch_documented_examples :
  Minimatch.minimatch "/xyz/123/acb" "a?b" = true
  /\ Minimatch.minimatch "/xyz/acb/123" "a?b" = false
  /\ Minimatch.minimatch "a/b" "a/**/b" = true
  /\ Minimatch.minimatch "a/x/y/b" "a/**/b" = true
  /\ Minimatch.minimatch "a/x/y/c" "a/**/b" = false
  /\ Minimatch.minimatch "src/deep/app.js" "src/**" = true
  /\ Minimatch.minimatch "src" "src/**" = false
  /\ Minimatch.minimatch "a/.hidden" "a/*" = true
  /\ Minimatch.minimatch "a/b/c" "a/*" = false
  /\ Minimatch.minimatch "anything" "#comment" = false.
Proof. repeat split; vm_compute; reflexivity. Qed.

(* ================================================================= *)
(** ** Clamping *)



(* ================================================================= *)
(** ** Bot-like logins *)

Lemma includes_app_r (a b p : string) :
  Js.includes b p = true -> Js.includes (a ++ b) p = true.
Proof.
  intros H. induction a as [ | c a IH]; simpl; [exact H | ].
  rewrite IH. apply orb_true_r.
Qed.

Lemma startsWith_app (p r : string) : Js.startsWith (p ++ r) p = true.
Proof.
  induction p as [ | c p IH]; simpl; [destruct r; reflexivity | ].
  rewrite Ascii.eqb_refl. exact IH.
Qed.

Lemma includes_startsWith (s p : string) :
  Js.startsWith s p = true -> Js.includes s p = true.
Proof. intros H. destruct s; simpl in *; rewrite H; reflexivity. Qed.

Lemma includes_middle (a p b : string) :
  Js.includes (a ++ p ++ b) p = true.
Proof.
  apply includes_app_r, includes_startsWith, startsWith_app.
Qed.

Lemma endsWith_app (s p : string) :
  Js.endsWith s p = true -> exists a, s = (a ++ p)%string.
Proof.
  induction s as [ | c s IH]; cbn [Js.endsWith].
  - rewrite orb_false_r. intros H. apply String.eqb_eq in H.
    exists EmptyString. exact H.
  - intros H. apply orb_true_iff in H. destruct H as [H | H].
    + apply String.eqb_eq in H. exists EmptyString. exact H.
    + destruct (IH H) as (a & ->). exists (String c a). reflexivity.
Qed.

Lemma toLowerCase_app (a b : string) :
  Js.toLowerCase (a ++ b) = (Js.toLowerCase a ++ Js.toLowerCase b)%string.
Proof.
  induction a as [ | c a IH]; simpl; [reflexivity | rewrite IH; reflexivity].
Qed.

Lemma isEmpty_true (s : string) : Js.isEmpty s = true <-> s = EmptyString.
Proof. destruct s; simpl; split; congruence. Qed.

(** X2: a login is bot-like exactly when it is empty, or contains [bot]
    once its letters are lowered, or is [github-actions] in any letter
    case; the test for the suffix [[bot]] adds nothing.  So every login
    with [bot], [Bot] or [BOT] somewhere inside is taken for a bot. *)
Theorem isBotLogin_characterized :
  forall login : string,
    (isBotLogin login = true
     <-> login = EmptyString
         \/ Js.includes (Js.toLowerCase login) "bot" = true
         \/ Js.toLowerCase login = "github-actions")
    /\ (forall a x b,
           login = (a ++ x ++ b)%string -> Js.toLowerCase x = "bot" ->
           isBotLogin login = true).
Proof.
  intros login.
  assert (Char : isBotLogin login = true
                 <-> login = EmptyString
                     \/ Js.includes (Js.toLowerCase login) "bot" = true
                     \/ Js.toLowerCase login = "github-actions").
  { unfold isBotLogin.
    destruct (Js.isEmpty login) eqn:E.
    - apply isEmpty_true in E. tauto.
    - assert (Hne : login <> EmptyString)
        by (intros ->; discriminate).
      rewrite !orb_true_iff, String.eqb_eq. split.
      + intros [[H | H] | H]; auto.
        right; left. apply endsWith_app in H. destruct H as (a & ->).
        rewrite toLowerCase_app. apply includes_app_r. reflexivity.
      + intros [H | [H | H]]; [congruence | auto | auto]. }
  split; [exact Char | ].
  intros a x b -> Hx. apply Char. right; left.
  rewrite !toLowerCase_app, Hx. apply includes_middle.
Qed.

Lemma isBotLogin_characterized_witness :
  isBotLogin "AbBott" = true.
Proof.
  destruct (isBotLogin_characterized "AbBott") as (_ & H).
  apply (H "Ab" "Bot" "t"); reflexivity.
Defined.

(* ================================================================= *)
(** ** Contributors of a path *)

Lemma topCommitAuthors_fold (data : list (option string)) :
  forall acc,
    fold_left
      (fun authors c =>
         match c with
         | Some login =>
             if negb (Js.isEmpty login) && negb (isBotLogin login)
             then authors ++ [login]
             else authors
         | None => authors
         end)
      data acc
    = acc ++ filter (fun l => negb (isBotLogin l))
                    (flat_map (fun c => match c with
                                        | Some l => [l]
                                        | None => []
                                        end) data).
Proof.
  induction data as [ | c data IH]; intros acc; simpl.
  - rewrite app_nil_r. reflexivity.
  - rewrite IH. destruct c as [l | ]; [ | reflexivity]. simpl.
    destruct (isBotLogin l) eqn:Eb; simpl.
    + rewrite andb_false_r. reflexivity.
    + assert (Js.isEmpty l = false) by (destruct l; [discriminate | reflexivity]).
      rewrite H. simpl. rewrite <- app_assoc. reflexivity.
Qed.

Lemma topCommitAuthors_filter (data : list (option string)) :
  topCommitAuthorsForPath data
  = filter (fun l => negb (isBotLogin l))
           (flat_map (fun c => match c with
                               | Some l => [l]
                               | None => []
                               end) data).
Proof.
  unfold topCommitAuthorsForPath. rewrite topCommitAuthors_fold.
  reflexivity.
Qed.

Lemma topCommitAuthors_In (data : list (option string)) (a : string) :
  In a (topCommitAuthorsForPath data)
  <-> In (Some a) data /\ isBotLogin a = false.
Proof.
  rewrite topCommitAuthors_filter, filter_In, in_flat_map, negb_true_iff.
  split.
  - intros ((c & Hc & Ha) & Hb). split; [ | exact Hb].
    destruct c as [l | ]; [ | destruct Ha].
    destruct Ha as [<- | []]. exact Hc.
  - intros (Hc & Hb). split; [ | exact Hb].
    exists (Some a). split; [exact Hc | left; reflexivity].
Qed.

(** X3: the contributors of a path are the logins of its commits that are
    not bot-like, in the order of the commits and with their repetitions;
    commits without an author login are skipped. *)
Theorem topCommitAuthorsForPath_filters :
  forall data : list (option string),
    topCommitAuthorsForPath data
    = filter (fun l => negb (isBotLogin l))
             (flat_map (fun c => match c with
                                 | Some l => [l]
                                 | None => []
                                 end) data)
    /\ (forall a, In a (topCommitAuthorsForPath data)
                  <-> In (Some a) data /\ isBotLogin a = false).
Proof.
  intros data. split;
    [apply topCommitAuthors_filter | intros a; apply topCommitAuthors_In].
Qed.

Lemma collectFileAuthors_fold
      (lookup : string -> option (list (option string)))
      (files : list string) :
  forall acc,
    fold_left
      (fun fileAuthors path =>
         match lookup path with
         | None => fileAuthors
         | Some data =>
             let authors := topCommitAuthorsForPath data in
             if isNil authors then fileAuthors
             else fileAuthors ++ [FileAuthors path authors]
         end)
      files acc
    = acc ++ flat_map
               (fun path =>
                  match lookup path with
                  | None => []
                  | Some data =>
                      if isNil (topCommitAuthorsForPath data) then []
                      else [FileAuthors path (topCommitAuthorsForPath data)]
                  end) files.
Proof.
  induction files as [ | p files IH]; intros acc; simpl.
  - rewrite app_nil_r. reflexivity.
  - rewrite IH. destruct (lookup p) as [data | ]; [ | reflexivity].
    cbv zeta. destruct (isNil (topCommitAuthorsForPath data)); simpl;
      [reflexivity | rewrite <- app_assoc; reflexivity].
Qed.

(** X4: the contributor signal [run] collects has an entry exactly for the
    changed files whose commit lookup succeeded and found a login that is
    not bot-like; the entry holds these logins, so it is never empty and
    never names a bot; a failed lookup only leaves its own file out. *)
Theorem collectFileAuthors_entries :
  forall (lookup : string -> option (list (option string)))
         (files : list string),
    (forall e, In e (collectFileAuthors lookup files)
               <-> In (path e) files
                   /\ exists data,
                       lookup (path e) = Some data
                       /\ authors e = topCommitAuthorsForPath data
                       /\ authors e <> [])
    /\ (forall e a, In e (collectFileAuthors lookup files) ->
                    In a (authors e) -> isBotLogin a = false)
    /\ (forall before p after,
           files = before ++ p :: after -> lookup p = None ->
           collectFileAuthors lookup files
           = collectFileAuthors lookup (before ++ after)).
Proof.
  intros lookup files.
  assert (E : forall fs,
             collectFileAuthors lookup fs
             = flat_map
                 (fun path =>
                    match lookup path with
                    | None => []
                    | Some data =>
                        if isNil (topCommitAuthorsForPath data) then []
                        else [FileAuthors path (topCommitAuthorsForPath data)]
                    end) fs).
  { intros fs. unfold collectFileAuthors.
    rewrite collectFileAuthors_fold. reflexivity. }
  assert (Char : forall e, In e (collectFileAuthors lookup files)
                           <-> In (path e) files
                               /\ exists data,
                                   lookup (path e) = Some data
                                   /\ authors e = topCommitAuthorsForPath data
                                   /\ authors e <> []).
  { intros e. rewrite E, in_flat_map. split.
    - intros (p & Hp & He).
      destruct (lookup p) as [data | ] eqn:El; [ | destruct He].
      destruct (topCommitAuthorsForPath data) as [ | a as'] eqn:Et;
        simpl in He; [destruct He | ].
      destruct He as [<- | []]. simpl.
      split; [exact Hp | ]. exists data.
      rewrite Et. repeat split; [exact El | discriminate].
    - intros (Hp & data & El & Ha & Hne).
      exists (path e). split; [exact Hp | ]. rewrite El.
      destruct e as [p as']. simpl in *. subst as'.
      destruct (topCommitAuthorsForPath data); [congruence | ].
      left. reflexivity. }
  split; [exact Char | split].
  - intros e a He Ha. apply Char in He.
    destruct He as (_ & data & _ & Hauth & _).
    rewrite Hauth in Ha. apply topCommitAuthors_In in Ha. tauto.
  - intros before p after -> Hp.
    rewrite !E, !flat_map_app. simpl. rewrite Hp. reflexivity.
Qed.

Lemma collectFileAuthors_entries_witness :
  collectFileAuthors
    (fun p => if String.eqb p "b.js" then None
              else Some [Some "alice"; None; Some "renovate-bot"])
    (["a.js"] ++ "b.js" :: ["c.js"])
  = collectFileAuthors
      (fun p => if String.eqb p "b.js" then None
                else Some [Some "alice"; None; Some "renovate-bot"])
      (["a.js"] ++ ["c.js"]).
Proof.
  destruct (collectFileAuthors_entries
              (fun p => if String.eqb p "b.js" then None
                        else Some [Some "alice"; None; Some "renovate-bot"])
              (["a.js"] ++ "b.js" :: ["c.js"])) as (_ & _ & H).
  apply (H ["a.js"] "b.js" ["c.js"]); reflexivity.
Defined.

(* ================================================================= *)
(** ** The changed files of the pull request *)

Lemma pushFiles_firstn (maxFiles : Z) (data : list string) :
  forall files,
    (List.length files < Z.to_nat maxFiles)%nat ->
    pushFiles maxFiles files data
    = files ++ firstn (Z.to_nat maxFiles - List.length files) data.
Proof.
  induction data as [ | f data IH]; intros files Hlt; simpl.
  - rewrite firstn_nil, app_nil_r. reflexivity.
  - rewrite length_app. simpl.
    destruct (maxFiles <=? Z.of_nat (List.length files + 1))%Z eqn:E.
    + apply Z.leb_le in E.
      replace (Z.to_nat maxFiles - List.length files)%nat with 1%nat by lia.
      reflexivity.
    + apply Z.leb_gt in E.
      rewrite IH by (rewrite length_app; simpl; lia).
      rewrite length_app. simpl.
      replace (Z.to_nat maxFiles - List.length files)%nat
        with (S (Z.to_nat maxFiles - (List.length files + 1)))%nat by lia.
      simpl. rewrite <- app_assoc. reflexivity.
Qed.

Lemma listAllPRFilesLoop_result (listFiles : nat -> list string)
      (maxFiles : Z) :
  forall fuel page files,
    (Z.to_nat maxFiles - List.length files < fuel)%nat ->
    exists n,
      listAllPRFilesLoop fuel listFiles maxFiles page files
      = Some (files
              ++ firstn (Z.to_nat maxFiles - List.length files)
                        (List.concat (map listFiles (seq page n))))
      /\ (forall i, (page <= i < page + n)%nat -> listFiles i <> [])
      /\ ((List.length files
           + List.length (List.concat (map listFiles (seq page n)))
           < Z.to_nat maxFiles)%nat ->
          listFiles (page + n)%nat = []).
Proof.
  induction fuel as [ | fuel IH]; intros page files Hfuel; [lia | ].
  cbn [listAllPRFilesLoop].
  destruct (Z.of_nat (List.length files) <? maxFiles)%Z eqn:E.
  - apply Z.ltb_lt in E.
    destruct (listFiles page) as [ | f data] eqn:Ep.
    + exists 0%nat. simpl. rewrite firstn_nil, app_nil_r.
      split; [reflexivity | split; [intros i Hi; lia | ]].
      intros _. rewrite Nat.add_0_r. exact Ep.
    + cbn [isNil]. rewrite <- Ep.
      assert (Hlt : (List.length files < Z.to_nat maxFiles)%nat) by lia.
      rewrite (pushFiles_firstn maxFiles (listFiles page) files Hlt).
      set (k := (Z.to_nat maxFiles - List.length files)%nat).
      assert (Hdata : (0 < List.length (listFiles page))%nat)
        by (rewrite Ep; simpl; lia).
      destruct (IH (S page) (files ++ firstn k (listFiles page)))
        as (n & Hres & Hne & Hstop).
      { rewrite length_app, length_firstn. unfold k. lia. }
      exists (S n). rewrite Hres. split; [ | split].
      * f_equal. cbn [seq map List.concat].
        rewrite <- app_assoc. f_equal.
        rewrite firstn_app. f_equal.
        rewrite length_app, length_firstn. f_equal. unfold k. 
        destruct (Nat.le_gt_cases k (List.length (listFiles page)))
          as [Hle | Hgt].
        -- rewrite Nat.min_l by exact Hle. lia.
        -- rewrite Nat.min_r by lia. lia.
      * intros i Hi. destruct (Nat.eq_dec i page) as [-> | Hn].
        -- rewrite Ep. discriminate.
        -- apply Hne. lia.
      * cbn [seq map List.concat]. rewrite length_app. intros Hsmall.
        replace (page + S n)%nat with (S page + n)%nat by lia.
        apply Hstop. rewrite length_app, length_firstn. unfold k. lia.
  - apply Z.ltb_ge in E. exists 0%nat. simpl.
    replace (Z.to_nat maxFiles - List.length files)%nat with 0%nat by lia.
    simpl. rewrite app_nil_r.
    split; [reflexivity | split; [intros i Hi | intros Hi]; lia].
Qed.

(** X5: with enough fuel (more pages than [maxFiles]) [listAllPRFiles]
    returns: it reads the pages from the first one up to the first empty
    page or until [maxFiles] names are held, and gives the names of these
    pages in order, cut after [maxFiles]; so it never gives more than
    [maxFiles] names, and none for a [maxFiles] that is not positive. *)
Theorem listAllPRFiles_result :
  forall (listFiles : nat -> list string) (maxFiles : Z) (fuel : nat),
    (Z.to_nat maxFiles < fuel)%nat ->
    exists n files,
      listAllPRFiles fuel listFiles maxFiles = Some files
      /\ files = firstn (Z.to_nat maxFiles)
                        (List.concat (map listFiles (seq 1 n)))
      /\ (forall i, (1 <= i <= n)%nat -> listFiles i <> [])
      /\ ((Z.of_nat (List.length files) < maxFiles)%Z ->
          listFiles (S n) = []
          /\ files = List.concat (map listFiles (seq 1 n)))
      /\ (Z.of_nat (List.length files) <= Z.max 0 maxFiles)%Z.
Proof.
  intros listFiles maxFiles fuel Hfuel.
  destruct (listAllPRFilesLoop_result listFiles maxFiles fuel 1 [])
    as (n & Hres & Hne & Hstop); [simpl; lia | ].
  simpl in Hres. rewrite Nat.sub_0_r in Hres.
  exists n, (firstn (Z.to_nat maxFiles) (List.concat (map listFiles (seq 1 n)))).
  split; [exact Hres | split; [reflexivity | split; [ | split]]].
  - intros i Hi. apply Hne. lia.
  - rewrite length_firstn. intros Hlt.
    assert (Hall : (List.length (List.concat (map listFiles (seq 1 n)))
                    < Z.to_nat maxFiles)%nat) by lia.
    split.
    + apply (Hstop Hall).
    + apply firstn_all2. lia.
  - rewrite length_firstn. lia.
Qed.

Lemma listAllPRFiles_result_witness :
  exists files,
    listAllPRFiles 4
      (fun page => match page with
                   | 1%nat => ["a"; "b"]
                   | 2%nat => ["c"; "d"]
                   | _ => []
                   end) 3
    = Some files
    /\ (Z.of_nat (List.length files) <= Z.max 0 3)%Z.
Proof.
  destruct (listAllPRFiles_result
              (fun page => match page with
                           | 1%nat => ["a"; "b"]
                           | 2%nat => ["c"; "d"]
                           | _ => []
                           end) 3 4) as (n & files & H1 & _ & _ & _ & H5);
    [simpl; lia | ].
  exists files. split; assumption.
Defined.

(* ================================================================= *)
(** ** The comment of the pull request *)

Lemma formatComment_has_marker (numberToString : Q -> string)
      (suggestions : list candidate) (lookbackDays maxFiles fileCount : Q)
      (confidence : string) :
  Js.includes
    (formatComment numberToString suggestions lookbackDays maxFiles fileCount
       confidence) MARKER = true.
Proof.
  unfold formatComment.
  destruct (isNil suggestions); vm_compute; reflexivity.
Qed.

(** X6: [upsertComment] updates the first listed comment whose body holds
    the marker and creates a comment only when no listed body holds it; a
    comment without a body counts as not holding it.  The body that
    [formatComment] renders always holds the marker, so a comment of an
    earlier run that is among the listed ones is updated, not doubled. *)
Theorem upsertComment_updates_marked :
  forall (listed : list issueComment) (createdUrl newBody : string),
    (forall before c after b,
        listed = before ++ c :: after ->
        body c = Some b -> Js.includes b MARKER = true ->
        (forall c' b', In c' before -> body c' = Some b' ->
                       Js.includes b' MARKER = false) ->
        upsertComment listed createdUrl newBody
        = (UpdateComment (comment_id c) newBody,
           UpsertResult true (html_url c)))
    /\ ((forall c b, In c listed -> body c = Some b ->
                     Js.includes b MARKER = false) ->
        upsertComment listed createdUrl newBody
        = (CreateComment newBody, UpsertResult false createdUrl))
    /\ (forall c numberToString suggestions lookbackDays maxFiles fileCount
               confidence,
           In c listed ->
           body c = Some (formatComment numberToString suggestions
                            lookbackDays maxFiles fileCount confidence) ->
           exists c',
             In c' listed
             /\ upsertComment listed createdUrl newBody
                = (UpdateComment (comment_id c') newBody,
                   UpsertResult true (html_url c'))).
Proof.
  intros listed createdUrl newBody.
  set (marked := fun c : issueComment =>
                   Js.includes (match body c with
                                | Some b => b
                                | None => ""
                                end) MARKER).
  assert (Hnone : forall l,
             (forall c b, In c l -> body c = Some b ->
                          Js.includes b MARKER = false) ->
             find marked l = None).
  { induction l as [ | c l IH]; intros H; simpl; [reflexivity | ].
    assert (Hc : marked c = false).
    { unfold marked. destruct (body c) as [b | ] eqn:Eb; [ | reflexivity].
      apply (H c b); [left; reflexivity | exact Eb]. }
    rewrite Hc. apply IH. intros c' b' Hin. apply H. right. exact Hin. }
  split; [ | split].
  - intros before c after b -> Hb Hm Hbefore. unfold upsertComment.
    fold marked.
    assert (Hfind : find marked (before ++ c :: after) = Some c).
    { clear Hnone. induction before as [ | c0 before IH]; simpl.
      - unfold marked at 1. rewrite Hb, Hm. reflexivity.
      - assert (Hc0 : marked c0 = false).
        { unfold marked. destruct (body c0) as [b0 | ] eqn:E0;
            [ | reflexivity].
          apply (Hbefore c0 b0); [left; reflexivity | exact E0]. }
        rewrite Hc0. apply IH. intros c' b' Hin. apply Hbefore.
        right. exact Hin. }
    rewrite Hfind. reflexivity.
  - intros H. unfold upsertComment. fold marked.
    rewrite (Hnone listed H). reflexivity.
  - intros c ns sugg d mf fc conf Hin Hb. unfold upsertComment. fold marked.
    destruct (find marked listed) as [c' | ] eqn:Ef.
    + exists c'. split; [ | reflexivity].
      apply find_some in Ef. tauto.
    + exfalso. pose proof (find_none _ _ Ef c Hin) as Hc.
      unfold marked in Hc. rewrite Hb, formatComment_has_marker in Hc.
      discriminate.
Qed.

Lemma upsertComment_updates_marked_witness :
  upsertComment
    [IssueComment 7 (Some "LGTM") "u7"; IssueComment 8 None "u8";
     IssueComment 9 (Some (formatComment showInteger [] 90 50 2 "Low")) "u9"]
    "new" "fresh body"
  = (UpdateComment 9 "fresh body", UpsertResult true "u9").
Proof.
  destruct (upsertComment_updates_marked
              [IssueComment 7 (Some "LGTM") "u7"; IssueComment 8 None "u8";
               IssueComment 9
                 (Some (formatComment showInteger [] 90 50 2 "Low")) "u9"]
              "new" "fresh body") as (H & _).
  apply (H [IssueComment 7 (Some "LGTM") "u7"; IssueComment 8 None "u8"]
           (IssueComment 9
              (Some (formatComment showInteger [] 90 50 2 "Low")) "u9")
           []
           (formatComment showInteger [] 90 50 2 "Low")).
  - reflexivity.
  - reflexivity.
  - vm_compute. reflexivity.
  - intros c' b' [<- | [<- | []]] Hb; simpl in Hb.
    + injection Hb as <-. vm_compute. reflexivity.
    + discriminate.
Defined.

(* ================================================================= *)
(** ** The ownership file that is loaded *)

(** X7: the rules [run] loads are those of the first of
    [.github/CODEOWNERS], [CODEOWNERS] and [docs/CODEOWNERS] whose text is
    there and not empty; a missing or empty file is passed over, and when
    all three are missing or empty there is no rule. *)
Theorem loadCodeownersRules_first_text :
  forall tryFetchFileText : string -> option string,
    let hasText p :=
      match tryFetchFileText p with
      | Some t => negb (Js.isEmpty t)
      | None => false
      end in
    loadCodeownersRules tryFetchFileText
    = match find hasText CODEOWNERS_CANDIDATE_PATHS with
      | Some p => parseCodeowners (tryFetchFileText p)
      | None => []
      end.
Proof.
  intros fetch hasText. unfold loadCodeownersRules, hasText.
  cbn [CODEOWNERS_CANDIDATE_PATHS firstCodeownersText find].
  destruct (fetch ".github/CODEOWNERS") as [t1 | ] eqn:F1;
    destruct (fetch "CODEOWNERS") as [t2 | ] eqn:F2;
    destruct (fetch "docs/CODEOWNERS") as [t3 | ] eqn:F3;
    repeat match goal with
           | |- context [Js.isEmpty ?t] =>
               let E := fresh "E" in destruct (Js.isEmpty t) eqn:E
           end;
    cbn [negb]; rewrite ?F1, ?F2, ?F3; try reflexivity;
    unfold parseCodeowners;
    repeat match goal with
           | H : Js.isEmpty _ = true |- _ => rewrite H; clear H
           end;
    reflexivity.
Qed.

(* ================================================================= *)
(** ** The order of the ranking *)

Lemma StronglySorted_map {A B : Type} (R : A -> A -> Prop)
      (R' : B -> B -> Prop) (f : A -> B) (l : list A) :
  (forall x y, R x y -> R' (f x) (f y)) ->
  StronglySorted R l -> StronglySorted R' (map f l).
Proof.
  intros H. induction 1 as [ | x l Hs IH Hx]; simpl; constructor.
  - exact IH.
  - rewrite Forall_forall in *. intros y Hy. apply in_map_iff in Hy.
    destruct Hy as (z & <- & Hz). apply H, Hx, Hz.
Qed.

Lemma rankCandidates_sorted (minimatch : string -> string -> bool)
      (numberToString : Q -> string) (prAuthor : string) (w : weightsT)
      (fileAuthors : list fileAuthorsEntry) (rules : list rule)
      (files : list string) (latencyMap : list (string * Q)) :
  StronglySorted (fun a b => score b <= score a)
    (rankCandidates minimatch numberToString prAuthor w fileAuthors rules
       files latencyMap).
Proof.
  rewrite rankCandidates_state. cbv zeta.
  apply StronglySorted_map
    with (R := fun a b : string * Q => byScoreDesc b a = false).
  - intros x y H. unfold byScoreDesc in H. apply Qlt_bool_false in H.
    simpl. lra.
  - apply (sortBy_sorted byScoreDesc byScoreDesc_asym byScoreDesc_trans).
Qed.

(** X8: the ranking is in descending order of score: no candidate has a
    smaller score than one ranked after it. *)
Theorem rankCandidates_descending :
  forall (minimatch : string -> string -> bool)
         (numberToString : Q -> string) (prAuthor : string)
         (weights : weightsT) (fileAuthors : list fileAuthorsEntry)
         (codeownersRules : list rule) (changedFiles : list string)
         (latencyMap : list (string * Q))
         (before : list candidate) (a : candidate) (after : list candidate)
         (b : candidate),
    rankCandidates minimatch numberToString prAuthor weights fileAuthors
      codeownersRules changedFiles latencyMap = before ++ a :: after ->
    In b after ->
    score b <= score a.
Proof.
  intros mm ns pa w fas rules files lm before a after b E Hb.
  pose proof (rankCandidates_sorted mm ns pa w fas rules files lm) as Hs.
  rewrite E in Hs. clear E.
  induction before as [ | x before IH]; simpl in Hs.
  - inversion Hs as [ | ? ? _ Hall]; subst.
    rewrite Forall_forall in Hall. apply Hall. exact Hb.
  - inversion Hs; subst. apply IH. assumption.
Qed.

Lemma rankCandidates_descending_witness :
  score (Candidate "alice" 6 ["recent commits"; "CODEOWNERS"])
  <= score (Candidate "bob" 8 ["recent commits"; "CODEOWNERS"]).
Proof.
  apply (rankCandidates_descending Minimatch.minimatch showInteger "carol"
           (Weights 1 4 1) sampleAuthors sampleRules sampleFiles
           sampleLatency []
           (Candidate "bob" 8 ["recent commits"; "CODEOWNERS"])
           [Candidate "zed" 7 ["recent commits"; "fast reviewer (~3h median)"];
            Candidate "alice" 6 ["recent commits"; "CODEOWNERS"]]).
  - vm_compute. reflexivity.
  - right; left. reflexivity.
Defined.

Section StableSortPermutation.
Context {A : Type} (before : A -> A -> bool).

Lemma insertSorted_perm (x : A) (l : list A) :
  Permutation (insertSorted before x l) (x :: l).
Proof.
  induction l as [ | y l IH]; simpl; [apply Permutation_refl | ].
  destruct (before y x); [ | apply Permutation_refl].
  apply perm_trans with (y :: x :: l);
    [apply perm_skip; exact IH | apply perm_swap].
Qed.

Lemma sortBy_perm (l : list A) : Permutation (sortBy before l) l.
Proof.
  induction l as [ | x l IH]; simpl; [apply perm_nil | ].
  apply perm_trans with (x :: sortBy before l);
    [apply insertSorted_perm | apply perm_skip; exact IH].
Qed.
End StableSortPermutation.

Lemma signalsState_NoDup (minimatch : string -> string -> bool)
      (numberToString : Q -> string) (prAuthor : string) (w : weightsT)
      (fileAuthors : list fileAuthorsEntry) (rules : list rule)
      (files : list string) (latencyMap : list (string * Q)) :
  NoDup (map fst
           (scores (signalsState minimatch numberToString prAuthor w
                      fileAuthors rules files latencyMap))).
Proof.
  rewrite signalsState_awards.
  apply NoDup_scores_applyAwards. constructor.
Qed.

(** X9: no login occurs twice in the ranking. *)
Theorem rankCandidates_logins_unique :
  forall (minimatch : string -> string -> bool)
         (numberToString : Q -> string) (prAuthor : string)
         (weights : weightsT) (fileAuthors : list fileAuthorsEntry)
         (codeownersRules : list rule) (changedFiles : list string)
         (latencyMap : list (string * Q)),
    NoDup (map login
             (rankCandidates minimatch numberToString prAuthor weights
                fileAuthors codeownersRules changedFiles latencyMap)).
Proof.
  intros mm ns pa w fas rules files lm.
  rewrite rankCandidates_state. cbv zeta. rewrite map_map.
  change (fun x => login (toCandidate _ x)) with (@fst string Q).
  apply Permutation_NoDup
    with (l := map fst (scores (signalsState mm ns pa w fas rules files lm))).
  - apply Permutation_map, Permutation_sym, sortBy_perm.
  - apply signalsState_NoDup.
Qed.

(* ================================================================= *)
(** ** The suggestions that are shown *)

Lemma slice0_prefix {A : Type} (l : list A) (e : Z) :
  exists rest, l = slice0 l e ++ rest.
Proof.
  unfold slice0. eexists. symmetry. apply firstn_skipn.
Qed.

(** X10: the suggestions [run] shows, [ranked.slice(0, maxReviewers)], are
    the head of the ranking: at most [maxReviewers] of them for a bound
    that is not negative, and no candidate left out has a larger score
    than one that is shown. *)
Theorem suggestions_are_top_ranked :
  forall (minimatch : string -> string -> bool)
         (numberToString : Q -> string) (prAuthor : string)
         (weights : weightsT) (fileAuthors : list fileAuthorsEntry)
         (codeownersRules : list rule) (changedFiles : list string)
         (latencyMap : list (string * Q)) (maxReviewers : Z),
    let ranked :=
      rankCandidates minimatch numberToString prAuthor weights fileAuthors
        codeownersRules changedFiles latencyMap in
    let suggestions := slice0 ranked maxReviewers in
    exists rest,
      ranked = suggestions ++ rest
      /\ (forall s c, In s suggestions -> In c rest -> score c <= score s)
      /\ ((0 <= maxReviewers)%Z ->
          List.length suggestions
          = Nat.min (Z.to_nat maxReviewers) (List.length ranked)).
Proof.
  intros mm ns pa w fas rules files lm maxReviewers ranked suggestions.
  destruct (slice0_prefix ranked maxReviewers) as (rest & E).
  fold suggestions in E. exists rest. split; [exact E | split].
  - intros s c Hs Hc.
    pose proof (rankCandidates_sorted mm ns pa w fas rules files lm) as Hsort.
    fold ranked in Hsort. rewrite E in Hsort. clear E.
    induction suggestions as [ | x sugg IH]; [destruct Hs | ].
    simpl in Hsort. inversion Hsort as [ | ? ? Hs' Hall]; subst.
    destruct Hs as [-> | Hs].
    + rewrite Forall_forall in Hall. apply Hall.
      apply in_or_app. right. exact Hc.
    + apply IH; assumption.
  - intros Hpos. unfold suggestions, slice0.
    assert (Hf : (maxReviewers <? 0)%Z = false) by (apply Z.ltb_ge; lia).
    rewrite Hf, length_firstn. lia.
Qed.

Lemma suggestions_are_top_ranked_witness :
  List.length
    (slice0 (rankCandidates Minimatch.minimatch showInteger "carol"
               (Weights 1 4 1) sampleAuthors sampleRules sampleFiles
               sampleLatency) 2)
  = Nat.min (Z.to_nat 2)
      (List.length
         (rankCandidates Minimatch.minimatch showInteger "carol"
            (Weights 1 4 1) sampleAuthors sampleRules sampleFiles
            sampleLatency)).
Proof.
  destruct (suggestions_are_top_ranked Minimatch.minimatch showInteger
              "carol" (Weights 1 4 1) sampleAuthors sampleRules sampleFiles
              sampleLatency 2) as (rest & _ & _ & H).
  apply H. lia.
Defined.

(* ================================================================= *)
(** ** The reasons of a candidate *)

Lemma setAdd_NoDup (x : string) (s : list string) :
  NoDup s -> NoDup (setAdd x s).
Proof.
  intros H. unfold setAdd, setHas.
  destruct (existsb (String.eqb x) s) eqn:E; [exact H | ].
  apply NoDup_app; [exact H | constructor; [intros [] | constructor] | ].
  intros y Hy [-> | []].
  assert (existsb (String.eqb y) s = true).
  { apply existsb_exists. exists y. split; [exact Hy | apply String.eqb_refl]. }
  congruence.
Qed.

Lemma In_setAdd (x y : string) (s : list string) :
  In y (setAdd x s) <-> y = x \/ In y s.
Proof.
  unfold setAdd, setHas.
  destruct (existsb (String.eqb x) s) eqn:E.
  - apply existsb_exists in E. destruct E as (z & Hz & Ez).
    apply String.eqb_eq in Ez. subst z.
    split; [auto | intros [-> | H]; assumption].
  - rewrite in_app_iff. simpl. intuition.
Qed.

Lemma isReason_nonempty (numberToString : Q -> string) (r : string) :
  isReason numberToString r -> Js.isEmpty r = false.
Proof. intros [-> | [-> | (m & ->)]]; reflexivity. Qed.

Lemma allAwards_reasons (minimatch : string -> string -> bool)
      (numberToString : Q -> string) (w : weightsT)
      (fileAuthors : list fileAuthorsEntry) (rules : list rule)
      (files : list string) (latencyMap : list (string * Q)) :
  Forall (fun a : award => isReason numberToString (snd a))
    (allAwards minimatch numberToString w fileAuthors rules files latencyMap).
Proof.
  apply Forall_forall. intros a Ha. unfold allAwards in Ha.
  rewrite !in_app_iff in Ha. destruct Ha as [H | [H | H]].
  - apply In_commitAwards in H. destruct H as (fa & i & _ & _ & ->).
    left. reflexivity.
  - unfold codeownersAwards in H.
    destruct (Qlt_bool 0 (codeowners w) && negb (isNil rules));
      [ | destruct H].
    apply in_map_iff in H. destruct H as (o & <- & _).
    right; left. reflexivity.
  - apply In_latencyAwards in H. destruct H as (m & _ & _ & _ & ->).
    right; right. exists m. reflexivity.
Qed.

(** What [add] keeps true of the reasons: a login with a score has a set
    of reasons that is not empty, and every set is free of repetitions and
    made of reasons of the three kinds. *)
Lemma reasons_invariant (numberToString : Q -> string) (prAuthor : string)
      (aws : list award) :
  Forall (fun a : award => isReason numberToString (snd a)) aws ->
  let st := applyAwards prAuthor aws (RankState [] []) in
  (forall k, mapGet k (scores st) <> None ->
             exists set, mapGet k (reasonSets st) = Some set /\ set <> [])
  /\ (forall k set, mapGet k (reasonSets st) = Some set ->
                    NoDup set /\ forall r, In r set ->
                                           isReason numberToString r).
Proof.
  intros Hok.
  apply (applyAwards_invariant prAuthor
           (fun st =>
              (forall k, mapGet k (scores st) <> None ->
                         exists set, mapGet k (reasonSets st) = Some set
                                     /\ set <> [])
              /\ (forall k set, mapGet k (reasonSets st) = Some set ->
                                NoDup set
                                /\ forall r, In r set ->
                                             isReason numberToString r))
           (fun a => isReason numberToString (snd a)));
    [ | exact Hok | split; simpl; intros; congruence].
  intros l p r st Hr (H1 & H2). simpl in Hr.
  destruct (eligible prAuthor l) eqn:E;
    [ | rewrite add_ineligible by exact E; split; assumption].
  pose proof (isReason_nonempty numberToString r Hr) as Hne.
  split.
  - intros k. rewrite scores_get_add by exact E.
    rewrite reasonSets_add by assumption.
    destruct (String.eqb k l); [intros _ | apply H1].
    eexists. split; [reflexivity | ].
    intros Habs.
    assert (Hin : In r (setAdd r (match mapGet l (reasonSets st) with
                                  | Some set => set
                                  | None => []
                                  end)))
      by (apply In_setAdd; left; reflexivity).
    rewrite Habs in Hin. destruct Hin.
  - intros k set. rewrite reasonSets_add by assumption.
    destruct (String.eqb k l); [ | apply H2].
    intros [= <-].
    destruct (mapGet l (reasonSets st)) as [set0 | ] eqn:E0.
    + destruct (H2 l set0 E0) as (Hnd & Hall).
      split; [apply setAdd_NoDup; exact Hnd | ].
      intros r' Hr'. apply In_setAdd in Hr'.
      destruct Hr' as [-> | Hr']; [exact Hr | apply Hall; exact Hr'].
    + split; [apply setAdd_NoDup; constructor | ].
      intros r' Hr'. apply In_setAdd in Hr'.
      destruct Hr' as [-> | []]. exact Hr.
Qed.

(** X11: every candidate of the ranking carries at least one reason, no
    reason twice, and each reason is "recent commits", "CODEOWNERS" or a
    "fast reviewer" note with a rounded median. *)
Theorem rankCandidates_reasons :
  forall (minimatch : string -> string -> bool)
         (numberToString : Q -> string) (prAuthor : string)
         (weights : weightsT) (fileAuthors : list fileAuthorsEntry)
         (codeownersRules : list rule) (changedFiles : list string)
         (latencyMap : list (string * Q)) (c : candidate),
    In c (rankCandidates minimatch numberToString prAuthor weights
            fileAuthors codeownersRules changedFiles latencyMap) ->
    reasons c <> []
    /\ NoDup (reasons c)
    /\ forall r, In r (reasons c) -> isReason numberToString r.
Proof.
  intros mm ns pa w fas rules files lm c Hc.
  apply In_rankCandidates in Hc. destruct Hc as ([l v] & He & ->).
  rewrite signalsState_awards in *.
  destruct (reasons_invariant ns pa _
              (allAwards_reasons mm ns w fas rules files lm)) as (H1 & H2).
  assert (Hget : mapGet l (scores (applyAwards pa
                   (allAwards mm ns w fas rules files lm) (RankState [] [])))
                 <> None).
  { intros Hn. apply mapGet_None_keys in Hn. apply Hn.
    apply (in_map fst) in He. exact He. }
  destruct (H1 l Hget) as (set & Hset & Hne).
  unfold toCandidate. cbn [fst snd reasons]. rewrite Hset.
  destruct (H2 l set Hset) as (Hnd & Hall). auto.
Qed.

Lemma rankCandidates_reasons_witness :
  reasons (Candidate "zed" 7 ["recent commits"; "fast reviewer (~3h median)"])
  <> [].
Proof.
  apply (rankCandidates_reasons Minimatch.minimatch showInteger "carol"
           (Weights 1 4 1) sampleAuthors sampleRules sampleFiles
           sampleLatency).
  vm_compute. right; left. reflexivity.
Defined.

(* ================================================================= *)
(** ** The size of a score *)









Lemma setHas_setAdd (k k' : string) (seen : list string) :
  setHas k (setAdd k' seen) = setHas k seen || String.eqb k k'.
Proof.
  unfold setAdd. destruct (setHas k' seen) eqn:E.
  - destruct (String.eqb k k') eqn:Ek; [ | rewrite orb_false_r; reflexivity].
    apply String.eqb_eq in Ek. subst k'. rewrite E. reflexivity.
  - unfold setHas. rewrite existsb_app. simpl. rewrite orb_false_r.
    reflexivity.
Qed.








(* ================================================================= *)
(** ** Who is ranked *)

Lemma seenKey_inj (o o' f f' : string) :
  noColon o = true -> noColon o' = true ->
  seenKey o f = seenKey o' f' -> o = o'.
Proof.
  unfold seenKey. revert o'.
  induction o as [ | c o IH]; intros [ | c' o'] Ho Ho' E; simpl in *.
  - reflexivity.
  - injection E as <- _. simpl in Ho'. discriminate.
  - injection E as -> _. simpl in Ho. discriminate.
  - injection E as <- E.
    apply andb_true_iff in Ho. apply andb_true_iff in Ho'.
    f_equal. apply IH; tauto.
Qed.

Lemma hitsInFile_seen (f : string) (os : list string) :
  forall seen k,
    setHas k (fst (ownerHitsInFile f os seen)) = true ->
    setHas k seen = true
    \/ exists o', In o' (snd (ownerHitsInFile f os seen)) /\ k = seenKey o' f.
Proof.
  induction os as [ | o os IH]; intros seen k; cbn [ownerHitsInFile].
  - simpl. auto.
  - destruct (Js.isEmpty o); [apply IH | ].
    destruct (setHas (seenKey o f) seen) eqn:Es; [apply IH | ].
    specialize (IH (setAdd (seenKey o f) seen) k).
    destruct (ownerHitsInFile f os (setAdd (seenKey o f) seen)) as [s' hs].
    cbn [fst snd] in *. intros H. destruct (IH H) as [H1 | (o' & Ho' & Hk)].
    + rewrite setHas_setAdd in H1. apply orb_true_iff in H1.
      destruct H1 as [H1 | H1]; [left; exact H1 | right].
      apply String.eqb_eq in H1. exists o. split; [left; reflexivity | exact H1].
    + right. exists o'. split; [right; exact Ho' | exact Hk].
Qed.

Lemma hitsInFile_complete (f : string) (os : list string) :
  (forall o', In o' os -> noColon o' = true) ->
  forall seen o,
    In o os -> Js.isEmpty o = false ->
    setHas (seenKey o f) seen = true
    \/ In o (snd (ownerHitsInFile f os seen)).
Proof.
  induction os as [ | o' os IH]; intros Hcol seen o Hin Hne;
    [destruct Hin | ].
  assert (Hcol' : forall x, In x os -> noColon x = true)
    by (intros x Hx; apply Hcol; right; exact Hx).
  cbn [ownerHitsInFile]. destruct Hin as [-> | Hin].
  - rewrite Hne. destruct (setHas (seenKey o f) seen) eqn:Es; [left; reflexivity | ].
    right. destruct (ownerHitsInFile f os (setAdd (seenKey o f) seen)).
    left. reflexivity.
  - destruct (Js.isEmpty o'); [apply IH; assumption | ].
    destruct (setHas (seenKey o' f) seen) eqn:Es; [apply IH; assumption | ].
    specialize (IH Hcol' (setAdd (seenKey o' f) seen) o Hin Hne).
    destruct (ownerHitsInFile f os (setAdd (seenKey o' f) seen)) as [s' hs].
    cbn [snd] in *. destruct IH as [H | H]; [ | right; right; exact H].
    rewrite setHas_setAdd in H. apply orb_true_iff in H.
    destruct H as [H | H]; [left; exact H | right; left].
    apply String.eqb_eq in H. symmetry.
    apply (seenKey_inj o o' f f);
      [apply Hcol; right; exact Hin | apply Hcol; left; reflexivity | exact H].
Qed.

Lemma ownerHits_complete (minimatch : string -> string -> bool)
      (rules : list rule) (files : list string) :
  (forall f' o', In f' files -> In o' (ownersForFile minimatch rules f') ->
                 noColon o' = true) ->
  forall seen o f,
    In f files -> In o (ownersForFile minimatch rules f) ->
    Js.isEmpty o = false ->
    setHas (seenKey o f) seen = true
    \/ In o (ownerHits minimatch rules files seen).
Proof.
  induction files as [ | f0 fs IH]; intros Hcol seen o f Hf Ho Hne;
    [destruct Hf | ].
  cbn [ownerHits].
  assert (Hcol0 : forall x, In x (ownersForFile minimatch rules f0) ->
                            noColon x = true)
    by (intros x Hx; apply (Hcol f0); [left; reflexivity | exact Hx]).
  pose proof (hitsInFile_complete f0 (ownersForFile minimatch rules f0)
                Hcol0 seen) as Hhere.
  pose proof (hitsInFile_seen f0 (ownersForFile minimatch rules f0) seen)
    as Hseen.
  pose proof (ownerHitsInFile_In f0 (ownersForFile minimatch rules f0) seen)
    as Hsub.
  destruct (ownerHitsInFile f0 (ownersForFile minimatch rules f0) seen)
    as [seen' hs].
  cbn [fst snd] in *.
  destruct Hf as [-> | Hf].
  - destruct (Hhere o Ho Hne) as [H | H]; [left; exact H | right].
    apply in_or_app. left. exact H.
  - assert (Hcol' : forall f' o', In f' fs ->
                                  In o' (ownersForFile minimatch rules f') ->
                                  noColon o' = true)
      by (intros f' o' Hf'; apply Hcol; right; exact Hf').
    destruct (IH Hcol' seen' o f Hf Ho Hne) as [H | H].
    + destruct (Hseen _ H) as [H1 | (o' & Ho' & Hk)]; [left; exact H1 | ].
      right. apply in_or_app. left.
      assert (o = o').
      { apply (seenKey_inj o o' f f0);
          [apply (Hcol f); [right; exact Hf | exact Ho]
          | apply Hcol0, Hsub, Ho' | exact Hk]. }
      subst o'. exact Ho'.
    + right. apply in_or_app. right. exact H.
Qed.

Lemma ownersForFile_nil (minimatch : string -> string -> bool) (f : string) :
  ownersForFile minimatch [] f = [].
Proof. reflexivity. Qed.

(** X13: a login that is neither bot-like nor the author is in the ranking
    as soon as a signal names it: when it is among the first ten
    contributors of a file, whatever the weights; when the ownership
    weight is positive and it owns a changed file (the owners of the
    changed files being free of [:]); when the latency weight is positive
    and its median is at most 48 hours. *)
Theorem named_logins_are_ranked :
  forall (minimatch : string -> string -> bool)
         (numberToString : Q -> string) (prAuthor : string)
         (weights : weightsT) (fileAuthors : list fileAuthorsEntry)
         (codeownersRules : list rule) (changedFiles : list string)
         (latencyMap : list (string * Q)) (l : string),
    isBotLogin l = false ->
    l <> prAuthor ->
    (exists fa, In fa fileAuthors /\ In l (firstn 10 (authors fa)))
    \/ (0 < codeowners weights
        /\ (forall f o, In f changedFiles ->
                        In o (ownersForFile minimatch codeownersRules f) ->
                        noColon o = true)
        /\ exists f, In f changedFiles
                     /\ In l (ownersForFile minimatch codeownersRules f))
    \/ (0 < latency weights /\ exists m, In (l, m) latencyMap /\ m <= 48) ->
    exists c,
      In c (rankCandidates minimatch numberToString prAuthor weights
              fileAuthors codeownersRules changedFiles latencyMap)
      /\ login c = l.
Proof.
  intros mm ns pa w fas rules files lm l Hbot Hpa Hnamed.
  assert (He : eligible pa l = true) by (apply eligible_true; auto).
  assert (Hne : Js.isEmpty l = false)
    by (destruct l; [discriminate Hbot | reflexivity]).
  assert (Haward : exists a,
             In a (allAwards mm ns w fas rules files lm)
             /\ awardLogin a = l).
  { unfold allAwards. destruct Hnamed as [H | [H | H]].
    - destruct H as (fa & Hfa & Hl).
      rewrite <- (combine_seq_firstn (authors fa) 0 10) in Hl.
      apply in_map_iff in Hl. destruct Hl as ([i x] & Hx & Hin).
      simpl in Hx. subst x.
      exists (l, positionWeight i * commitHistory w, "recent commits").
      split; [ | reflexivity].
      apply in_or_app. left. apply In_commitAwards.
      exists fa, i. simpl. auto.
    - destruct H as (Hw & Hcol & f & Hf & Hl).
      exists (l, codeowners w, "CODEOWNERS"). split; [ | reflexivity].
      apply in_or_app. right. apply in_or_app. left.
      unfold codeownersAwards.
      apply Qlt_bool_true in Hw. rewrite Hw.
      destruct rules as [ | r rules]; [destruct Hl | ].
      cbn [isNil negb andb].
      apply in_map_iff. exists l. split; [reflexivity | ].
      destruct (ownerHits_complete mm (r :: rules) files Hcol [] l f Hf Hl Hne)
        as [H | H]; [discriminate H | exact H].
    - destruct H as (Hw & m & Hin & Hm).
      exists (l, latencyBonusHours (Some m) * latency w,
              ("fast reviewer (~" ++ ns (round m) ++ "h median)")%string).
      split; [ | reflexivity].
      apply in_or_app. right. apply in_or_app. right.
      unfold latencyAwards.
      pose proof Hw as Hw'. apply Qlt_bool_true in Hw'. rewrite Hw'.
      destruct lm as [ | e lm]; [destruct Hin | ].
      cbn [isNil negb andb].
      apply in_flat_map. exists (l, m). split; [exact Hin | ].
      unfold latencyAward. cbn [fst snd].
      assert (Hb : 0 < latencyBonusHours (Some m) * latency w).
      { destruct (latencyBonusHours_cases m)
          as [[_ B] | [[_ B] | [[_ B] | [[_ B] | [B _]]]]];
          try (rewrite B; nra). lra. }
      apply Qlt_bool_true in Hb. rewrite Hb. left. reflexivity. }
  destruct Haward as (a & Ha & <-).
  pose proof (awarded_present pa _ a (RankState [] []) Ha He) as Hpres.
  rewrite <- signalsState_awards in Hpres.
  destruct (mapGet (awardLogin a)
              (scores (signalsState mm ns pa w fas rules files lm)))
    as [v | ] eqn:Ev; [ | congruence].
  exists (toCandidate (signalsState mm ns pa w fas rules files lm)
            (awardLogin a, v)).
  split; [ | reflexivity].
  apply In_rankCandidates. exists (awardLogin a, v).
  split; [apply mapGet_In; exact Ev | reflexivity].
Qed.

Lemma named_logins_are_ranked_witness :
  exists c,
    In c (rankCandidates Minimatch.minimatch showInteger "carol"
            (Weights 0 4 0) [] sampleRules sampleFiles [])
    /\ login c = "alice".
Proof.
  apply (named_logins_are_ranked Minimatch.minimatch showInteger "carol"
           (Weights 0 4 0) [] sampleRules sampleFiles [] "alice").
  - reflexivity.
  - discriminate.
  - right; left. split; [simpl; lra | split].
    + intros f o [<- | [<- | []]] Ho; vm_compute in Ho;
        destruct Ho as [<- | []]; reflexivity.
    + exists "src/app.js". split; [left; reflexivity | ].
      vm_compute. left. reflexivity.
Defined.

(* ================================================================= *)
(** ** Signals that are switched off *)

(** X14: a signal whose weight is not positive is inert: with such an
    ownership weight the ranking does not depend on the rules or on the
    changed files, with such a latency weight it does not depend on the
    latency profile, and without rules it does not depend on the changed
    files. *)
Theorem switched_off_signals_are_inert :
  forall (minimatch : string -> string -> bool)
         (numberToString : Q -> string) (prAuthor : string)
         (weights : weightsT) (fileAuthors : list fileAuthorsEntry)
         (codeownersRules : list rule) (changedFiles : list string)
         (latencyMap : list (string * Q)),
    (codeowners weights <= 0 ->
     forall rules' files',
       rankCandidates minimatch numberToString prAuthor weights fileAuthors
         codeownersRules changedFiles latencyMap
       = rankCandidates minimatch numberToString prAuthor weights fileAuthors
           rules' files' latencyMap)
    /\ (latency weights <= 0 ->
        forall latencyMap',
          rankCandidates minimatch numberToString prAuthor weights
            fileAuthors codeownersRules changedFiles latencyMap
          = rankCandidates minimatch numberToString prAuthor weights
              fileAuthors codeownersRules changedFiles latencyMap')
    /\ (forall files',
           rankCandidates minimatch numberToString prAuthor weights
             fileAuthors [] changedFiles latencyMap
           = rankCandidates minimatch numberToString prAuthor weights
               fileAuthors [] files' latencyMap).
Proof.
  intros mm ns pa w fas rules files lm. split; [ | split].
  - intros Hw rules' files'. apply Qlt_bool_false in Hw.
    rewrite !rankCandidates_state. cbv zeta.
    unfold signalsState, codeownersSignal. rewrite Hw. reflexivity.
  - intros Hw lm'. apply Qlt_bool_false in Hw.
    rewrite !rankCandidates_state. cbv zeta.
    unfold signalsState, latencySignal. rewrite Hw. reflexivity.
  - intros files'. rewrite !rankCandidates_state. cbv zeta.
    unfold signalsState, codeownersSignal. cbn [isNil negb].
    rewrite andb_false_r. reflexivity.
Qed.

Lemma switched_off_signals_are_inert_witness :
  rankCandidates Minimatch.minimatch showInteger "carol"
    (runWeights false true) sampleAuthors sampleRules sampleFiles
    sampleLatency
  = rankCandidates Minimatch.minimatch showInteger "carol"
      (runWeights false true) sampleAuthors [] [] sampleLatency.
Proof.
  destruct (switched_off_signals_are_inert Minimatch.minimatch showInteger
              "carol" (runWeights false true) sampleAuthors sampleRules
              sampleFiles sampleLatency) as (H & _).
  apply H. simpl. lra.
Defined.

(** Without the hypothesis on [:] two owners can share a key of [seen]:
    [a] on the file [b::c] and [a::b] on the file [c]; the second one is
    then never awarded. *)
Lemma seen_key_collision_example :
  map login
    (rankCandidates Minimatch.minimatch showInteger "carol" (Weights 1 4 1)
       [] [Rule "/c" ["a::b"]; Rule "b::c" ["a"]] ["b::c"; "c"] [])
  = ["a"].
Proof. vm_compute. reflexivity. Qed.

(* ================================================================= *)
(** ** The parsed rules *)

Lemma parseCodeowners_fold (lines : list string) :
  forall acc,
    fold_left
      (fun rules raw =>
         match parseLine raw with
         | Some r => rules ++ [r]
         | None => rules
         end) lines acc
    = acc ++ flat_map (fun raw => match parseLine raw with
                                  | Some r => [r]
                                  | None => []
                                  end) lines.
Proof.
  induction lines as [ | raw lines IH]; intros acc; simpl.
  - rewrite app_nil_r. reflexivity.
  - rewrite IH. destruct (parseLine raw); [ | reflexivity].
    rewrite <- app_assoc. reflexivity.
Qed.

Lemma parseCodeowners_lines (t : string) :
  parseCodeowners (Some t)
  = flat_map (fun raw => match parseLine raw with
                         | Some r => [r]
                         | None => []
                         end) (Js.splitLines t).
Proof.
  unfold parseCodeowners. destruct t as [ | c t]; [reflexivity | ].
  cbn [Js.isEmpty]. rewrite parseCodeowners_fold. reflexivity.
Qed.

Lemma parseLine_rule (raw : string) (r : rule) :
  parseLine raw = Some r ->
  pattern r <> EmptyString
  /\ owners r <> []
  /\ forall o, In o (owners r) -> isBotLogin o = false.
Proof.
  unfold parseLine.
  destruct (Js.isEmpty (Js.trim raw) || Js.startsWith (Js.trim raw) "#");
    [discriminate | ].
  destruct (Js.isEmpty (Js.trim (Js.beforeSpaceHash (Js.trim raw))));
    [discriminate | ].
  destruct (Js.words (Js.trim (Js.beforeSpaceHash (Js.trim raw))))
    as [ | pat [ | o1 rest]] eqn:Ew; try discriminate.
  set (os := filter _ _).
  destruct os as [ | o os'] eqn:Eos; [discriminate | ].
  intros [= <-]. cbn [pattern owners]. split; [ | split].
  - assert (Hin : In pat (Js.words
                            (Js.trim (Js.beforeSpaceHash (Js.trim raw)))))
      by (rewrite Ew; left; reflexivity).
    unfold Js.words in Hin. apply filter_In in Hin.
    destruct Hin as (_ & Hne). intros ->. discriminate.
  - discriminate.
  - intros x Hx. rewrite <- Eos in Hx. unfold os in Hx.
    apply filter_In in Hx. destruct Hx as (_ & Hx).
    apply andb_true_iff in Hx. destruct Hx as (_ & Hx).
    apply negb_true_iff in Hx. exact Hx.
Qed.

Lemma In_parseCodeowners (text : option string) (r : rule) :
  In r (parseCodeowners text) -> exists raw, parseLine raw = Some r.
Proof.
  destruct text as [t | ]; [ | intros []].
  rewrite parseCodeowners_lines, in_flat_map.
  intros (raw & _ & H). exists raw.
  destruct (parseLine raw) as [r' | ]; [ | destruct H].
  destruct H as [<- | []]. reflexivity.
Qed.

Lemma ownersForFile_from_rule (minimatch : string -> string -> bool)
      (rules : list rule) (f : string) :
  ownersForFile minimatch rules f = []
  \/ exists r, In r rules /\ ruleMatches minimatch r f = true
               /\ ownersForFile minimatch rules f = owners r.
Proof.
  rewrite ownersForFile_fold.
  assert (G : forall acc,
             fold_left (ownersStep minimatch f) rules acc = acc
             \/ exists r, In r rules /\ ruleMatches minimatch r f = true
                          /\ fold_left (ownersStep minimatch f) rules acc
                             = owners r).
  { induction rules as [ | r rules IH]; intros acc; simpl; [left; reflexivity | ].
    destruct (IH (ownersStep minimatch f acc r)) as [H | (r' & Hin & Hm & H)].
    - rewrite H. unfold ownersStep.
      destruct (ruleMatches minimatch r f) eqn:E; [ | left; reflexivity].
      right. exists r. auto.
    - right. exists r'. auto. }
  apply G.
Qed.

(** X15: every rule [parseCodeowners] returns has a pattern that is not
    empty and at least one owner, and none of its owners is empty or
    bot-like; so the owners resolved for a file with parsed rules are
    never bots, and a file that a parsed rule matches has an owner. *)
Theorem parseCodeowners_rules_wellformed :
  forall (text : option string),
    (forall r, In r (parseCodeowners text) ->
               pattern r <> EmptyString
               /\ owners r <> []
               /\ forall o, In o (owners r) ->
                            o <> EmptyString /\ isBotLogin o = false)
    /\ (forall minimatch f o,
           In o (ownersForFile minimatch (parseCodeowners text) f) ->
           isBotLogin o = false)
    /\ (forall minimatch f r,
           In r (parseCodeowners text) ->
           ruleMatches minimatch r f = true ->
           ownersForFile minimatch (parseCodeowners text) f <> []).
Proof.
  intros text.
  assert (W : forall r, In r (parseCodeowners text) ->
                        pattern r <> EmptyString
                        /\ owners r <> []
                        /\ forall o, In o (owners r) -> isBotLogin o = false).
  { intros r Hr. apply In_parseCodeowners in Hr. destruct Hr as (raw & Hr).
    apply (parseLine_rule raw r Hr). }
  split; [ | split].
  - intros r Hr. destruct (W r Hr) as (H1 & H2 & H3).
    repeat split; try assumption; [ | apply H3; assumption].
    intros ->. specialize (H3 EmptyString H). discriminate.
  - intros mm f o Ho.
    destruct (ownersForFile_from_rule mm (parseCodeowners text) f)
      as [E | (r & Hr & _ & E)]; rewrite E in Ho; [destruct Ho | ].
    destruct (W r Hr) as (_ & _ & H3). apply H3. exact Ho.
  - intros mm f r Hr Hm.
    destruct (ownersForFile_from_rule mm (parseCodeowners text) f)
      as [E | (r' & Hr' & _ & E)].
    + exfalso. rewrite ownersForFile_fold in E.
      apply in_split in Hr. destruct Hr as (l1 & l2 & Hsplit).
      rewrite Hsplit, fold_left_app in E. simpl in E.
      unfold ownersStep at 2 in E. rewrite Hm in E.
      destruct (W r) as (_ & Hne & _);
        [rewrite Hsplit; apply in_or_app; right; left; reflexivity | ].
      assert (G : forall rs acc, acc <> [] ->
                    (forall x, In x rs -> owners x <> []) ->
                    fold_left (ownersStep mm f) rs acc <> []).
      { induction rs as [ | x rs IH]; intros acc Hacc Hall; simpl;
          [exact Hacc | ].
        apply IH; [ | intros y Hy; apply Hall; right; exact Hy].
        unfold ownersStep. destruct (ruleMatches mm x f); [ | exact Hacc].
        apply Hall. left. reflexivity. }
      apply (G l2 (owners r) Hne); [ | exact E].
      intros x Hx. apply W. rewrite Hsplit.
      apply in_or_app. right. right. exact Hx.
    + rewrite E. apply (W r' Hr').
Qed.

Lemma parseCodeowners_rules_wellformed_witness :
  isBotLogin "alice" = false.
Proof.
  destruct (parseCodeowners_rules_wellformed
              (Some ("/src/** alice" ++ nl ++ "*.md bob")%string))
    as (_ & H & _).
  apply (H Minimatch.minimatch "src/app.js" "alice").
  vm_compute. left. reflexivity.
Defined.

Lemma splitLinesAux_app (a b : string) :
  Js.endsWith a (String (ascii_of_nat 13) EmptyString) = false ->
  Js.splitLinesAux (a ++ nl ++ b)
  = (fst (Js.splitLinesAux a),
     snd (Js.splitLinesAux a) ++ Js.splitLines b).
Proof.
  unfold Js.splitLines.
  induction a as [ | c a IH]; intros Ha.
  - simpl. destruct (Js.splitLinesAux b). reflexivity.
  - cbn [Js.endsWith] in Ha. apply orb_false_iff in Ha.
    destruct Ha as (Hc & Ha).
    change ((String c a ++ nl ++ b)%string)
      with (String c (a ++ nl ++ b)%string).
    cbn [Js.splitLinesAux]. rewrite (IH Ha).
    destruct (Js.splitLinesAux a) as [p ps]. cbn [fst snd].
    destruct (Js.splitLinesAux b) as [q qs].
    destruct (Js.isLF c); [reflexivity | ].
    destruct a as [ | c' a'].
    + simpl. destruct (Js.isCR c) eqn:Ecr; [ | reflexivity].
      exfalso. unfold Js.isCR in Ecr. apply Nat.eqb_eq in Ecr.
      assert (c = ascii_of_nat 13)
        by (rewrite <- Ecr, ascii_nat_embedding; reflexivity).
      subst c. simpl in Hc. discriminate.
    + change ((String c' a' ++ nl ++ b)%string)
        with (String c' (a' ++ nl ++ b)%string).
      cbv iota. destruct (Js.isCR c && Js.isLF c'); reflexivity.
Qed.

(** X16: parsing goes line by line and keeps the order of the lines: the
    rules of two texts joined by a line feed are the rules of the first
    followed by the rules of the second (for a first text that does not
    end in a carriage return, which would join the line feed). *)
Theorem parseCodeowners_linewise :
  forall a b : string,
    Js.endsWith a (String (ascii_of_nat 13) EmptyString) = false ->
    parseCodeowners (Some (a ++ nl ++ b)%string)
    = parseCodeowners (Some a) ++ parseCodeowners (Some b).
Proof.
  intros a b Ha. rewrite !parseCodeowners_lines.
  unfold Js.splitLines at 1. rewrite (splitLinesAux_app a b Ha).
  unfold Js.splitLines at 2.
  destruct (Js.splitLinesAux a) as [p ps]. cbn [fst snd].
  rewrite <- flat_map_app. reflexivity.
Qed.

Lemma parseCodeowners_linewise_witness :
  parseCodeowners (Some ("/src/** alice" ++ nl ++ "*.md bob")%string)
  = parseCodeowners (Some "/src/** alice")
    ++ parseCodeowners (Some "*.md bob").
Proof.
  apply parseCodeowners_linewise. reflexivity.
Defined.

(* ================================================================= *)
(** ** The median *)

Lemma sortBy_length {A : Type} (before : A -> A -> bool) (l : list A) :
  List.length (sortBy before l) = List.length l.
Proof. apply Permutation_length, sortBy_perm. Qed.

Lemma median_cases (arr : list Q) (m : Q) :
  median arr = Some m ->
  (exists x, In x arr /\ m = x)
  \/ (exists x y, In x arr /\ In y arr /\ m = (x + y) / 2).
Proof.
  unfold median. destruct arr as [ | a arr]; [discriminate | ].
  cbn [List.length Nat.eqb].
  set (s := sortBy Qlt_bool (a :: arr)).
  assert (Hlen : List.length s = S (List.length arr))
    by (unfold s; rewrite sortBy_length; reflexivity).
  assert (Hin : forall i, (i < List.length s)%nat -> In (nth i s 0) (a :: arr)).
  { intros i Hi. apply (In_sortBy Qlt_bool). apply nth_In. exact Hi. }
  assert (Hmid : (List.length s / 2 < List.length s)%nat)
    by (apply Nat.div_lt; lia).
  destruct (negb (List.length s mod 2 =? 0)%nat); intros [= <-].
  - left. eexists. split; [apply Hin; exact Hmid | reflexivity].
  - right. eexists _, _.
    split; [ | split; [apply Hin; exact Hmid | reflexivity]].
    apply Hin.
    apply Nat.le_lt_trans with (List.length s / 2)%nat;
      [apply Nat.le_sub_l | exact Hmid].
Qed.




Lemma sameNumbers_refl (l : list Q) : sameNumbers l l.
Proof. induction l; constructor; [reflexivity | assumption]. Qed.

Lemma sameNumbers_trans (a b c : list Q) :
  sameNumbers a b -> sameNumbers b c -> sameNumbers a c.
Proof.
  unfold sameNumbers. intros H. revert c.
  induction H as [ | x y a b Hxy _ IH]; intros c Hc; inversion Hc; subst;
    constructor; [lra | apply IH; assumption].
Qed.

Lemma Qlt_bool_compat (a a' b b' : Q) :
  a == a' -> b == b' -> Qlt_bool a b = Qlt_bool a' b'.
Proof.
  intros Ha Hb.
  destruct (Qlt_bool a b) eqn:E, (Qlt_bool a' b') eqn:E'; try reflexivity;
    try apply Qlt_bool_true in E; try apply Qlt_bool_false in E;
    try apply Qlt_bool_true in E'; try apply Qlt_bool_false in E';
    exfalso; lra.
Qed.

Lemma insertSorted_sameNumbers (x x' : Q) (s s' : list Q) :
  x == x' -> sameNumbers s s' ->
  sameNumbers (insertSorted Qlt_bool x s) (insertSorted Qlt_bool x' s').
Proof.
  intros Hx H. induction H as [ | y y' s s' Hy Hs IH]; simpl.
  - constructor; [exact Hx | constructor].
  - rewrite (Qlt_bool_compat y y' x x' Hy Hx).
    destruct (Qlt_bool y' x').
    + constructor; [exact Hy | exact IH].
    + constructor; [exact Hx | constructor; assumption].
Qed.

Lemma insertSorted_swap (x y : Q) (s : list Q) :
  sameNumbers (insertSorted Qlt_bool x (insertSorted Qlt_bool y s))
              (insertSorted Qlt_bool y (insertSorted Qlt_bool x s)).
Proof.
  induction s as [ | z s IH]; cbn [insertSorted].
  - destruct (Qlt_bool y x) eqn:Eyx, (Qlt_bool x y) eqn:Exy;
      try apply sameNumbers_refl.
    + apply Qlt_bool_true in Eyx. apply Qlt_bool_true in Exy.
      exfalso; lra.
    + apply Qlt_bool_false in Eyx. apply Qlt_bool_false in Exy.
      repeat constructor; lra.
  - destruct (Qlt_bool z y) eqn:Ezy, (Qlt_bool z x) eqn:Ezx;
      cbn [insertSorted]; rewrite ?Ezy, ?Ezx.
    + constructor; [reflexivity | exact IH].
    + assert (Exy : Qlt_bool x y = true).
      { apply Qlt_bool_true in Ezy. apply Qlt_bool_false in Ezx.
        apply Qlt_bool_true. lra. }
      rewrite Exy. cbn [insertSorted]. rewrite ?Ezy.
      apply sameNumbers_refl.
    + assert (Eyx : Qlt_bool y x = true).
      { apply Qlt_bool_false in Ezy. apply Qlt_bool_true in Ezx.
        apply Qlt_bool_true. lra. }
      rewrite Eyx. cbn [insertSorted]. rewrite ?Ezx.
      apply sameNumbers_refl.
    + destruct (Qlt_bool y x) eqn:Eyx, (Qlt_bool x y) eqn:Exy;
        cbn [insertSorted]; rewrite ?Ezy, ?Ezx;
        try apply sameNumbers_refl.
      * apply Qlt_bool_true in Eyx. apply Qlt_bool_true in Exy.
        exfalso; lra.
      * apply Qlt_bool_false in Eyx. apply Qlt_bool_false in Exy.
        constructor; [lra | constructor; [lra | apply sameNumbers_refl]].
Qed.

Lemma sortBy_sameNumbers (a b : list Q) :
  Permutation a b ->
  sameNumbers (sortBy Qlt_bool a) (sortBy Qlt_bool b).
Proof.
  induction 1 as [ | x l l' _ IH | x y l | l l' l'' _ IH1 _ IH2]; simpl.
  - constructor.
  - apply insertSorted_sameNumbers; [reflexivity | exact IH].
  - apply insertSorted_swap.
  - eapply sameNumbers_trans; eassumption.
Qed.

Lemma sameNumbers_nth (a b : list Q) (i : nat) :
  sameNumbers a b -> nth i a 0 == nth i b 0.
Proof.
  intros H. revert i.
  induction H as [ | x y a b Hxy _ IH]; intros [ | i]; simpl;
    try reflexivity; [exact Hxy | apply IH].
Qed.

Lemma sameNumbers_length (a b : list Q) :
  sameNumbers a b -> List.length a = List.length b.
Proof. induction 1; simpl; congruence. Qed.

(** X18: the median does not depend on the order of the samples: two
    lists with the same elements in another order have the same median,
    as numbers. *)
Theorem median_order_independent :
  forall a b : list Q,
    Permutation a b ->
    match median a, median b with
    | Some m, Some m' => m == m'
    | None, None => True
    | _, _ => False
    end.
Proof.
  intros a b Hp.
  pose proof (sortBy_sameNumbers a b Hp) as Hs.
  pose proof (Permutation_length Hp) as Hl.
  pose proof (sameNumbers_length _ _ Hs) as Hsl.
  unfold median. rewrite <- Hl, <- Hsl.
  destruct (List.length a =? 0)%nat; [exact I | ].
  destruct (negb (List.length (sortBy Qlt_bool a) mod 2 =? 0)%nat).
  - apply sameNumbers_nth. exact Hs.
  - rewrite (sameNumbers_nth _ _ (List.length (sortBy Qlt_bool a) / 2 - 1) Hs),
      (sameNumbers_nth _ _ (List.length (sortBy Qlt_bool a) / 2) Hs).
    reflexivity.
Qed.

Lemma median_order_independent_witness :
  match median [9; 1; 2], median [1; 2; 9] with
  | Some m, Some m' => m == m'
  | None, None => True
  | _, _ => False
  end.
Proof.
  apply median_order_independent.
  apply Permutation_cons_append with (l := [1; 2]) (x := 9).
Defined.

(* ================================================================= *)
(** ** The first review of each reviewer *)

Lemma isEmpty_or_bot (l : string) :
  Js.isEmpty l || isBotLogin l = isBotLogin l.
Proof. destruct l; reflexivity. Qed.

Lemma firstByUser_snoc (rs : list review) (r : review) :
  firstByUser (rs ++ [r])
  = match user r with
    | None => firstByUser rs
    | Some login =>
        if isBotLogin login then firstByUser rs
        else
          match submitted_at r with
          | None => firstByUser rs
          | Some t =>
              match mapGet login (firstByUser rs) with
              | Some existing =>
                  if (t <? existing)%Z then mapSet login t (firstByUser rs)
                  else firstByUser rs
              | None => mapSet login t (firstByUser rs)
              end
          end
    end.
Proof.
  unfold firstByUser. rewrite fold_left_app. cbn [fold_left].
  destruct (user r) as [login | ]; [ | reflexivity].
  rewrite isEmpty_or_bot. reflexivity.
Qed.

Lemma firstByUser_invariant (rs : list review) :
  NoDup (map fst (firstByUser rs))
  /\ (forall l t,
         mapGet l (firstByUser rs) = Some t ->
         isBotLogin l = false
         /\ (exists r, In r rs /\ user r = Some l /\ submitted_at r = Some t)
         /\ (forall r t', In r rs -> user r = Some l ->
                          submitted_at r = Some t' -> (t <= t')%Z))
  /\ (forall r l t',
         In r rs -> user r = Some l -> isBotLogin l = false ->
         submitted_at r = Some t' -> mapGet l (firstByUser rs) <> None).
Proof.
  induction rs as [ | r rs IH] using rev_ind.
  - split; [constructor | split]; [intros l t H; discriminate H | ].
    intros r l t' [].
  - destruct IH as (Hnd & Hmin & Hall).
    assert (Old : forall l t,
               mapGet l (firstByUser rs) = Some t ->
               (forall t', user r = Some l -> submitted_at r = Some t' ->
                           (t <= t')%Z) ->
               isBotLogin l = false
               /\ (exists r0, In r0 (rs ++ [r]) /\ user r0 = Some l
                              /\ submitted_at r0 = Some t)
               /\ (forall r0 t', In r0 (rs ++ [r]) -> user r0 = Some l ->
                                 submitted_at r0 = Some t' -> (t <= t')%Z)).
    { intros l t Hget Hr. destruct (Hmin l t Hget) as (Hb & (r0 & Hr0) & Hm).
      split; [exact Hb | split].
      - exists r0. rewrite in_app_iff. tauto.
      - intros r1 t' Hin. apply in_app_iff in Hin.
        destruct Hin as [Hin | [<- | []]]; [apply Hm; exact Hin | apply Hr]. }
    assert (OldAll : forall m : list (string * Z),
               (forall l, mapGet l (firstByUser rs) <> None ->
                          mapGet l m <> None) ->
               (forall l t', user r = Some l -> isBotLogin l = false ->
                             submitted_at r = Some t' -> mapGet l m <> None) ->
               forall r0 l t',
                 In r0 (rs ++ [r]) -> user r0 = Some l ->
                 isBotLogin l = false -> submitted_at r0 = Some t' ->
                 mapGet l m <> None).
    { intros m Hkeep Hnew r0 l t' Hin Hu Hb Hs. apply in_app_iff in Hin.
      destruct Hin as [Hin | [<- | []]].
      - apply Hkeep. apply (Hall r0 l t'); assumption.
      - apply (Hnew l t'); assumption. }
    rewrite firstByUser_snoc.
    destruct (user r) as [login | ] eqn:Eu.
    2:{ split; [exact Hnd | split].
        - intros l t Hget. apply Old; [exact Hget | discriminate].
        - apply OldAll; [auto | discriminate]. }
    destruct (isBotLogin login) eqn:Eb.
    { split; [exact Hnd | split].
      - intros l t Hget. apply Old; [exact Hget | ].
        intros t' [= ->]. destruct (Hmin l t Hget). congruence.
      - apply OldAll; [auto | ]. intros l t' [= ->]. congruence. }
    destruct (submitted_at r) as [t | ] eqn:Es.
    2:{ split; [exact Hnd | split].
        - intros l t Hget. apply Old; [exact Hget | discriminate].
        - apply OldAll; [auto | discriminate]. }
    assert (New : forall l t0,
               mapGet l (mapSet login t (firstByUser rs)) = Some t0 ->
               (forall e, mapGet login (firstByUser rs) = Some e ->
                          (t < e)%Z) ->
               isBotLogin l = false
               /\ (exists r0, In r0 (rs ++ [r]) /\ user r0 = Some l
                              /\ submitted_at r0 = Some t0)
               /\ (forall r0 t', In r0 (rs ++ [r]) -> user r0 = Some l ->
                                 submitted_at r0 = Some t' -> (t0 <= t')%Z)).
    { intros l t0. rewrite mapGet_mapSet.
      destruct (String.eqb l login) eqn:El.
      - apply String.eqb_eq in El. subst l. intros [= <-] Hlt.
        split; [exact Eb | split].
        + exists r. rewrite in_app_iff. simpl. auto.
        + intros r0 t' Hin Hu Hs. apply in_app_iff in Hin.
          destruct Hin as [Hin | [<- | []]]; [ | rewrite Es in Hs; injection Hs; lia].
          destruct (mapGet login (firstByUser rs)) as [e | ] eqn:Ee.
          * destruct (Hmin login e Ee) as (_ & _ & Hm).
            specialize (Hm r0 t' Hin Hu Hs). specialize (Hlt e eq_refl). lia.
          * exfalso. apply (Hall r0 login t' Hin Hu Eb Hs). exact Ee.
      - intros Hget _. apply Old; [exact Hget | ].
        intros t' [= ->]. rewrite String.eqb_refl in El. discriminate. }
    assert (KeepSet : forall l, mapGet l (firstByUser rs) <> None ->
                                mapGet l (mapSet login t (firstByUser rs))
                                <> None).
    { intros l H. rewrite mapGet_mapSet.
      destruct (String.eqb l login); [discriminate | exact H]. }
    destruct (mapGet login (firstByUser rs)) as [e | ] eqn:Ee.
    + destruct (t <? e)%Z eqn:Elt.
      * apply Z.ltb_lt in Elt.
        split; [apply NoDup_keys_mapSet; exact Hnd | split].
        -- intros l t0 Hget. apply New; [exact Hget | ].
           intros e' [= <-]. exact Elt.
        -- apply OldAll; [exact KeepSet | ].
           intros l t' [= <-] _ _. rewrite mapGet_mapSet_same. discriminate.
      * apply Z.ltb_ge in Elt.
        split; [exact Hnd | split].
        -- intros l t0 Hget. apply Old; [exact Hget | ].
           intros t' [= ->] [= <-]. rewrite Ee in Hget.
           injection Hget as <-. exact Elt.
        -- apply OldAll; [auto | ].
           intros l t' [= <-] _ _. rewrite Ee. discriminate.
    + split; [apply NoDup_keys_mapSet; exact Hnd | split].
      * intros l t0 Hget. apply New; [exact Hget | discriminate].
      * apply OldAll; [exact KeepSet | ].
        intros l t' [= <-] _ _. rewrite mapGet_mapSet_same. discriminate.
Qed.

(** X19: [firstByUser] has one entry for each reviewer that is not
    bot-like and has a review with a submission time, and the entry holds
    the earliest of these times; reviews without a time and reviews of
    bots leave no trace. *)
Theorem firstByUser_earliest :
  forall (rs : list review),
    NoDup (map fst (firstByUser rs))
    /\ forall l t,
        In (l, t) (firstByUser rs)
        <-> isBotLogin l = false
            /\ (exists r, In r rs /\ user r = Some l
                          /\ submitted_at r = Some t)
            /\ (forall r t', In r rs -> user r = Some l ->
                             submitted_at r = Some t' -> (t <= t')%Z).
Proof.
  intros rs. destruct (firstByUser_invariant rs) as (Hnd & Hmin & Hall).
  split; [exact Hnd | ]. intros l t. split.
  - intros Hin. apply Hmin. apply In_mapGet_NoDup; assumption.
  - intros (Hb & (r & Hr & Hu & Hs) & Hle).
    pose proof (Hall r l t Hr Hu Hb Hs) as Hsome.
    destruct (mapGet l (firstByUser rs)) as [t0 | ] eqn:E; [ | congruence].
    destruct (Hmin l t0 E) as (_ & (r0 & Hr0 & Hu0 & Hs0) & Hle0).
    assert (t0 = t).
    { pose proof (Hle r0 t0 Hr0 Hu0 Hs0). pose proof (Hle0 r t Hr Hu Hs). lia. }
    subst t0. apply mapGet_In. exact E.
Qed.

(* ================================================================= *)
(** ** The latency profile *)

Lemma In_mapSet {V : Type} (k l : string) (v v' : V) (m : list (string * V)) :
  In (k, v) (mapSet l v' m) -> (k = l /\ v = v') \/ In (k, v) m.
Proof.
  induction m as [ | [k0 v0] m IH]; simpl.
  - intros [[= <- <-] | []]. left. auto.
  - destruct (String.eqb l k0) eqn:E; simpl.
    + apply String.eqb_eq in E. subst k0.
      intros [[= <- <-] | H]; [left; auto | right; right; exact H].
    + intros [H | H]; [right; left; exact H | ].
      destruct (IH H) as [H' | H']; [left; exact H' | right; right; exact H'].
Qed.

Lemma median_nonneg (arr : list Q) (m : Q) :
  (forall x, In x arr -> 0 <= x) -> median arr = Some m -> 0 <= m.
Proof.
  intros H Hm. apply median_cases in Hm.
  destruct Hm as [(x & Hx & ->) | (x & y & Hx & Hy & ->)].
  - apply H. exact Hx.
  - pose proof (H x Hx). pose proof (H y Hy).
    apply Qle_shift_div_l; lra.
Qed.

Lemma pushSamples_samples (c : Z) (firsts : list (string * Z)) :
  (forall l t, In (l, t) firsts -> isBotLogin l = false) ->
  forall per,
    (forall k arr, In (k, arr) per ->
                   (forall x, In x arr -> 0 <= x) /\ isBotLogin k = false) ->
    forall k arr,
      In (k, arr) (pushSamples c firsts per) ->
      (forall x, In x arr -> 0 <= x) /\ isBotLogin k = false.
Proof.
  intros Hbots. unfold pushSamples.
  induction firsts as [ | [l t] firsts IH]; intros per Hper; [exact Hper | ].
  cbn [fold_left]. apply IH.
  - intros l' t' H. apply (Hbots l' t'). right. exact H.
  - assert (Hl : isBotLogin l = false)
      by (apply (Hbots l t); left; reflexivity).
    destruct (Qlt_bool (latencyHours t c) 0) eqn:E; [exact Hper | ].
    apply Qlt_bool_false in E.
    set (per' := if mapHas l per then per else mapSet l [] per).
    assert (Hper' : forall k arr, In (k, arr) per' ->
                      (forall x, In x arr -> 0 <= x) /\ isBotLogin k = false).
    { unfold per'. destruct (mapHas l per); [exact Hper | ].
      intros k arr H. apply In_mapSet in H.
      destruct H as [(-> & ->) | H]; [ | apply Hper; exact H].
      split; [intros x [] | exact Hl]. }
    destruct (mapGet l per') as [arr0 | ] eqn:E0; [ | exact Hper'].
    intros k arr H. apply In_mapSet in H.
    destruct H as [(-> & ->) | H]; [ | apply Hper'; exact H].
    split; [ | exact Hl].
    intros x Hx. apply in_app_iff in Hx.
    destruct Hx as [Hx | [<- | []]]; [ | exact E].
    apply mapGet_In in E0. destruct (Hper' l arr0 E0) as (H0 & _).
    apply H0. exact Hx.
Qed.

Lemma perReviewerSamples_samples (since : Z) (pulls : list pull) :
  forall k arr,
    In (k, arr) (perReviewerSamples since pulls) ->
    (forall x, In x arr -> 0 <= x) /\ isBotLogin k = false.
Proof.
  unfold perReviewerSamples.
  assert (G : forall per,
             (forall k arr, In (k, arr) per ->
                            (forall x, In x arr -> 0 <= x)
                            /\ isBotLogin k = false) ->
             forall k arr,
               In (k, arr)
                  (fold_left
                     (fun per pr =>
                        if negb (isSome (merged_at pr))
                           && negb (isSome (closed_at pr)) then per
                        else if (created_at pr <? since)%Z then per
                        else match reviews pr with
                             | None => per
                             | Some rs =>
                                 pushSamples (created_at pr) (firstByUser rs)
                                   per
                             end) pulls per) ->
               (forall x, In x arr -> 0 <= x) /\ isBotLogin k = false).
  { induction pulls as [ | pr pulls IH]; intros per Hper; [exact Hper | ].
    cbn [fold_left]. apply IH.
    destruct (negb (isSome (merged_at pr)) && negb (isSome (closed_at pr)));
      [exact Hper | ].
    destruct (created_at pr <? since)%Z; [exact Hper | ].
    destruct (reviews pr) as [rs | ]; [ | exact Hper].
    apply pushSamples_samples; [ | exact Hper].
    intros l t Hin.
    destruct (firstByUser_invariant rs) as (Hnd & Hmin & _).
    apply (Hmin l t). apply In_mapGet_NoDup; assumption. }
  apply G. intros k arr [].
Qed.

Lemma latencyProfile_fold (all : list (string * list Q)) :
  forall per out,
    (forall e, In e per -> In e all) ->
    NoDup (map fst out) ->
    (forall l m, In (l, m) out ->
                 exists arr, In (l, arr) all /\ median arr = Some m) ->
    NoDup (map fst
             (fold_left
                (fun out '(login, arr) =>
                   match median arr with
                   | Some m => mapSet login m out
                   | None => out
                   end) per out))
    /\ forall l m,
        In (l, m)
           (fold_left
              (fun out '(login, arr) =>
                 match median arr with
                 | Some m => mapSet login m out
                 | None => out
                 end) per out) ->
        exists arr, In (l, arr) all /\ median arr = Some m.
Proof.
  induction per as [ | [l0 arr0] per IH]; intros out Hsub Hnd Hout;
    cbn [fold_left]; [split; assumption | ].
  apply IH.
  - intros e He. apply Hsub. right. exact He.
  - destruct (median arr0); [apply NoDup_keys_mapSet | ]; exact Hnd.
  - destruct (median arr0) as [m0 | ] eqn:E0; [ | exact Hout].
    intros l m H. apply In_mapSet in H.
    destruct H as [(-> & ->) | H]; [ | apply Hout; exact H].
    exists arr0. split; [apply Hsub; left; reflexivity | exact E0].
Qed.

(** X20: the latency profile has one entry per login, no entry for a
    bot-like login, and every median in it is the median of samples that
    are not negative, so it is not negative itself. *)
Theorem latencyProfile_entries_valid :
  forall (since : Z) (pulls : list pull),
    NoDup (map fst (computeReviewerLatencyHours since pulls))
    /\ forall l m,
        In (l, m) (computeReviewerLatencyHours since pulls) ->
        0 <= m /\ isBotLogin l = false.
Proof.
  intros since pulls. unfold computeReviewerLatencyHours.
  destruct (latencyProfile_fold (perReviewerSamples since pulls)
              (perReviewerSamples since pulls) [])
    as (Hnd & Hin).
  - auto.
  - constructor.
  - intros l m [].
  - split; [exact Hnd | ].
    intros l m H. destruct (Hin l m H) as (arr & Harr & Hm).
    destruct (perReviewerSamples_samples since pulls l arr Harr) as (H0 & Hb).
    split; [apply (median_nonneg arr m H0 Hm) | exact Hb].
Qed.

Lemma latencyProfile_entries_valid_witness :
  0 <= 3600000 # 3600000 /\ isBotLogin "al" = false.
Proof.
  destruct (latencyProfile_entries_valid 0 samplePulls) as (_ & H).
  apply (H "al"). vm_compute. left. reflexivity.
Defined.

Lemma firstByUser_earliest_witness :
  In ("al", 3601000%Z)
     (firstByUser [Review (Some "al") (Some 7201000%Z);
                   Review (Some "al") (Some 3601000%Z);
                   Review (Some "bo") None]).
Proof.
  destruct (firstByUser_earliest
              [Review (Some "al") (Some 7201000%Z);
               Review (Some "al") (Some 3601000%Z);
               Review (Some "bo") None]) as (_ & H).
  apply H. split; [reflexivity | split].
  - exists (Review (Some "al") (Some 3601000%Z)).
    split; [right; left; reflexivity | split; reflexivity].
  - intros r t' [<- | [<- | [<- | []]]] Hu Hs; simpl in *;
      try discriminate; injection Hs as <-; lia.
Defined.

(* ================================================================= *)
(** ** The coverage of the confidence label *)

Lemma mapHas_mapSet {V : Type} (k k' : string) (v : V)
      (m : list (string * V)) :
  mapHas k' (mapSet k v m) = String.eqb k' k || mapHas k' m.
Proof.
  unfold mapHas. rewrite mapGet_mapSet.
  destruct (String.eqb k' k); reflexivity.
Qed.

Lemma length_mapSet {V : Type} (k : string) (v : V) (m : list (string * V)) :
  List.length (mapSet k v m)
  = if mapHas k m then List.length m else S (List.length m).
Proof.
  unfold mapHas. induction m as [ | [k0 v0] m IH]; simpl; [reflexivity | ].
  destruct (String.eqb k k0); simpl; [reflexivity | ].
  rewrite IH. destruct (mapGet k m); reflexivity.
Qed.

Lemma byFile_init (files : list string) :
  forall m : list (string * bool),
    let m' := fold_left (fun m f => mapSet f false m) files m in
    (List.length m' <= List.length m + List.length files)%nat
    /\ forall f, In f files \/ mapHas f m = true -> mapHas f m' = true.
Proof.
  induction files as [ | f0 files IH]; intros m; cbn [fold_left].
  - simpl. split; [lia | intros f [[] | H]; exact H].
  - destruct (IH (mapSet f0 false m)) as (Hlen & Hkeys). split.
    + rewrite length_mapSet in Hlen. simpl.
      destruct (mapHas f0 m); lia.
    + intros f Hf. apply Hkeys. rewrite mapHas_mapSet.
      destruct Hf as [[-> | Hf] | Hf].
      * right. rewrite String.eqb_refl. reflexivity.
      * left. exact Hf.
      * right. rewrite Hf. apply orb_true_r.
Qed.

Lemma byFile_mark (minimatch : string -> string -> bool)
      (rules : list rule) (files : list string) :
  forall m : list (string * bool),
    (forall f, In f files -> mapHas f m = true) ->
    List.length
      (fold_left
         (fun m f =>
            if isNil (ownersForFile minimatch rules f) then m
            else mapSet f true m) files m)
    = List.length m.
Proof.
  induction files as [ | f0 files IH]; intros m Hm; cbn [fold_left];
    [reflexivity | ].
  assert (H0 : mapHas f0 m = true) by (apply Hm; left; reflexivity).
  destruct (isNil (ownersForFile minimatch rules f0)).
  - apply IH. intros f Hf. apply Hm. right. exact Hf.
  - rewrite IH.
    + rewrite length_mapSet, H0. reflexivity.
    + intros f Hf. rewrite mapHas_mapSet, (Hm f (or_intror Hf)).
      apply orb_true_r.
Qed.

Lemma byFileHasSignal_length (minimatch : string -> string -> bool)
      (rules : list rule) (files : list string) :
  (List.length (byFileHasSignal minimatch rules files)
   <= List.length files)%nat.
Proof.
  unfold byFileHasSignal.
  destruct (byFile_init files []) as (Hlen & Hkeys). simpl in Hlen.
  destruct (isNil rules); [exact Hlen | ].
  rewrite byFile_mark; [exact Hlen | ].
  intros f Hf. apply Hkeys. left. exact Hf.
Qed.

(** X21: the coverage ratio of the confidence label lies between 0 and 1,
    and the label is Low when there is no changed file and when there is
    no candidate. *)
Theorem coverage_is_a_ratio :
  forall (minimatch : string -> string -> bool)
         (ranked : list candidate) (changedFiles : list string)
         (codeownersRules : list rule) (fileAuthors : list fileAuthorsEntry),
    0 <= coverageRatio minimatch changedFiles codeownersRules fileAuthors <= 1
    /\ (changedFiles = [] ->
        computeConfidence minimatch ranked changedFiles codeownersRules
          fileAuthors = "Low")
    /\ (ranked = [] ->
        computeConfidence minimatch ranked changedFiles codeownersRules
          fileAuthors = "Low").
Proof.
  intros mm ranked files rules fas. split; [ | split].
  - unfold coverageRatio.
    destruct files as [ | f0 fs] eqn:Ef; cbn [isNil]; [lra | ].
    rewrite <- Ef.
    set (covered := Nat.max _ _).
    assert (Hc : (covered <= List.length files)%nat).
    { unfold covered, approxCovered.
      pose proof (byFileHasSignal_length mm rules files) as Hb.
      pose proof (filter_length_le (fun b : bool => b)
                    (map snd (byFileHasSignal mm rules files))) as Hf.
      rewrite length_map in Hf.
      destruct (isNil fas); lia. }
    assert (Hpos : (0 < List.length files)%nat) by (rewrite Ef; simpl; lia).
    assert (Hq : 0 < inject_Z (Z.of_nat (List.length files))).
    { change 0 with (inject_Z 0). rewrite <- Zlt_Qlt. lia. }
    assert (Hcq : inject_Z (Z.of_nat covered)
                  <= inject_Z (Z.of_nat (List.length files)))
      by (rewrite <- Zle_Qle; lia).
    assert (H0 : 0 <= inject_Z (Z.of_nat covered)).
    { change 0 with (inject_Z 0). rewrite <- Zle_Qle. lia. }
    split.
    + apply Qle_shift_div_l; [exact Hq | lra].
    + apply Qle_shift_div_r; [exact Hq | lra].
  - intros ->. unfold computeConfidence, coverageRatio. cbn [isNil].
    destruct (Qle_bool 12 (scoreAt ranked 0)), (Qle_bool 6 (scoreAt ranked 0));
      reflexivity.
  - intros ->. reflexivity.
Qed.

Lemma coverage_is_a_ratio_witness :
  computeConfidence Minimatch.minimatch confRanked [] sampleRules confAuthors
  = "Low".
Proof.
  destruct (coverage_is_a_ratio Minimatch.minimatch confRanked []
              sampleRules confAuthors) as (_ & H & _).
  apply H. reflexivity.
Defined.

(* ================================================================= *)
(** ** What the comment says *)

Lemma append_empty_r (s : string) : (s ++ "")%string = s.
Proof. induction s as [ | c s IH]; simpl; [ | rewrite IH]; reflexivity. Qed.

Lemma containsText_self (p : string) : containsText p p.
Proof. exists EmptyString, EmptyString. rewrite append_empty_r. reflexivity. Qed.

Lemma containsText_app_l (a b p : string) :
  containsText a p -> containsText (a ++ b) p.
Proof.
  intros (q & r & ->). exists q, (r ++ b)%string.
  rewrite !append_assoc. reflexivity.
Qed.

Lemma join_contains (sep : string) (parts : list string) (x : string) :
  In x parts -> containsText (join sep parts) x.
Proof.
  induction parts as [ | y parts IH]; intros Hx; [destruct Hx | ].
  destruct parts as [ | z parts].
  - destruct Hx as [<- | []]. apply containsText_self.
  - change (join sep (y :: z :: parts))
      with (y ++ sep ++ join sep (z :: parts))%string.
    destruct Hx as [<- | Hx].
    + apply containsText_app_l, containsText_self.
    + apply containsText_app_r, containsText_app_r, IH. exact Hx.
Qed.

(** X22: the comment for a list of suggestions that is not empty names
    every suggestion with its login and its score and quotes each of its
    reasons, and it ends with the note that the author and bots are
    excluded. *)
Theorem formatComment_lists_suggestions :
  forall (numberToString : Q -> string) (suggestions : list candidate)
         (lookbackDays maxFiles fileCount : Q) (confidence : string)
         (s : candidate),
    In s suggestions ->
    let comment :=
      formatComment numberToString suggestions lookbackDays maxFiles
        fileCount confidence in
    containsText comment
      ("- @" ++ login s ++ " (score: " ++ numberToString (score s) ++ ")")
    /\ (forall r, In r (reasons s) -> containsText comment r)
    /\ containsText comment
         "_Notes: excludes PR author and bots; heuristic-based._".
Proof.
  intros ns sugg d mf fc conf s Hs comment. unfold comment, formatComment.
  destruct sugg as [ | s0 sugg']; [destruct Hs | ]. cbn [isNil].
  set (line := fun s : candidate =>
                 ("- @" ++ login s ++ " (score: " ++ ns (score s) ++ ")"
                  ++ (if isNil (reasons s) then ""
                      else " — " ++ join ", " (reasons s)))%string).
  assert (Hline : containsText (join nl (map line (s0 :: sugg'))) (line s)).
  { apply join_contains. apply in_map. exact Hs. }
  assert (Hin : forall p, containsText (line s) p ->
                          containsText
                            (join nl (map line (s0 :: sugg'))) p).
  { intros p (q & r & E). destruct Hline as (q' & r' & E').
    exists (q' ++ q)%string, (r ++ r')%string.
    rewrite E', E, !append_assoc. reflexivity. }
  split; [ | split].
  - do 2 apply containsText_app_r. apply containsText_app_l. apply Hin.
    exists EmptyString,
      (if isNil (reasons s) then "" else " — " ++ join ", " (reasons s))%string.
    unfold line. rewrite !append_assoc. reflexivity.
  - intros r Hr.
    do 2 apply containsText_app_r. apply containsText_app_l. apply Hin.
    unfold line. do 5 apply containsText_app_r.
    destruct (reasons s) as [ | r0 rs] eqn:Er; [destruct Hr | ].
    cbn [isNil]. apply containsText_app_r. apply join_contains. exact Hr.
  - do 3 apply containsText_app_r.
    exists (nl ++ nl)%string, nl. reflexivity.
Qed.

Lemma formatComment_lists_suggestions_witness :
  containsText
    (formatComment showInteger
       [Candidate "bob" 8 ["recent commits"; "CODEOWNERS"]] 90 50 2 "Low")
    ("- @" ++ login (Candidate "bob" 8 ["recent commits"; "CODEOWNERS"])
     ++ " (score: "
     ++ showInteger (score (Candidate "bob" 8 ["recent commits"; "CODEOWNERS"]))
     ++ ")").
Proof.
  assert (H : In (Candidate "bob" 8 ["recent commits"; "CODEOWNERS"])
                 [Candidate "bob" 8 ["recent commits"; "CODEOWNERS"]])
    by (left; reflexivity).
  destruct (formatComment_lists_suggestions showInteger
              [Candidate "bob" 8 ["recent commits"; "CODEOWNERS"]] 90 50 2
              "Low" (Candidate "bob" 8 ["recent commits"; "CODEOWNERS"]) H)
    as (H1 & _).
  exact H1.
Defined.

Lemma topCommitAuthorsForPath_filters_witness :
  topCommitAuthorsForPath
    [Some "alice"; None; Some "dependabot[bot]"; Some ""; Some "alice";
     Some "zed"]
  = ["alice"; "alice"; "zed"].
Proof.
  destruct (topCommitAuthorsForPath_filters
              [Some "alice"; None; Some "dependabot[bot]"; Some "";
               Some "alice"; Some "zed"]) as (H & _).
  rewrite H. reflexivity.
Defined.
